(** * Compliance pipeline of delta-share-compliance

    A shallow embedding of the asset discovery, caching and validation
    pipeline of the backend:

    - [backend/routes/validation.js]: [validateAsset] and the cached route
      handlers [GET /overview], [GET /violations], [POST /validate-all];
    - [backend/services/databricksClient.js]: [rateLimitedRequest],
      [getAllShareTables], [_fetchAllAssets] and [getLoadingStatus].

    JavaScript objects used as dictionaries are finite maps ([gmap]) when
    they are only looked up, and association lists when the code iterates
    over them with [Object.entries]; what a plain object inherits from
    [Object.prototype] is part of the model ([Js.get], [Js.inherited]), and
    so is the order in which its own keys are enumerated ([Js.ownEntries]).
    An absent field ([undefined]) is [None].
    Exceptions are the [Throw] case of [Js.result].  Module-level mutable
    state ([cache], [activeRequests], [validationCache], the rate limiter's
    counters) is passed explicitly. *)

From Stdlib Require Import String Ascii List ZArith QArith Qminmax Qpower Lia Lqa Bool.
From stdpp Require Import base option list list_monad gmap strings pretty.
Import ListNotations.

Local Open Scope string_scope.
Local Open Scope list_scope.

(** ** JavaScript values and built-ins used by the code *)

Module Js.

(** An axios error carries [response.status]; every other exception of
    interest here is a [TypeError] raised by the runtime. *)
Inductive error : Type :=
| TypeError (message : string)
| HttpError (status : option Z) (message : string).

Definition status (e : error) : option Z :=
  match e with
  | TypeError _ => None
  | HttpError s _ => s
  end.

Definition message (e : error) : string :=
  match e with
  | TypeError m => m
  | HttpError _ m => m
  end.

Inductive result (A : Type) : Type :=
| Ok (a : A)
| Throw (e : error).
Arguments Ok {A} a.
Arguments Throw {A} e.

Definition bind {A B} (r : result A) (k : A -> result B) : result B :=
  match r with
  | Ok a => k a
  | Throw e => Throw e
  end.

(** [xs.forEach(body)] where [body] mutates a captured accumulator and may
    throw: the first exception aborts the loop. *)
Fixpoint forEach {A S} (xs : list A) (body : A -> S -> result S) (s : S)
  : result S :=
  match xs with
  | [] => Ok s
  | x :: xs' => bind (body x s) (forEach xs' body)
  end.

(** [String.prototype.includes]. *)
Fixpoint includes (s sub : string) : bool :=
  String.prefix sub s ||
  match s with
  | EmptyString => false
  | String _ s' => includes s' sub
  end.

(** Truthiness of a possibly-undefined string: [undefined] and the empty
    string are falsy. *)
Definition truthy (v : option string) : bool :=
  match v with
  | None => false
  | Some s => negb (String.eqb s EmptyString)
  end.

(** [a || b] on possibly-undefined strings. *)
Definition or (a b : option string) : option string :=
  if truthy a then a else b.

(** [Array.prototype.includes] on an array of strings. *)
(** A string field of a JSON answer: absent, [null] or a string. *)
Inductive field : Type :=
| Undefined
| Null
| Text (s : string).

(** The string of a field, for [||] and [?.]: [null] is as falsy as
    [undefined]. *)
Definition text (f : field) : option string :=
  match f with
  | Text s => Some s
  | Undefined | Null => None
  end.

(** A field in a template literal. *)
Definition print (f : field) : string :=
  match f with
  | Text s => s
  | Undefined => "undefined"
  | Null => "null"
  end.

Definition array_includes (xs : list string) (x : string) : bool :=
  existsb (String.eqb x) xs.

(** [Array.prototype.filter] with a callback that may throw: the callback
    runs on the elements in order, and the first exception aborts. *)
Fixpoint filter {A} (xs : list A) (keep : A -> result bool)
  : result (list A) :=
  match xs with
  | [] => Ok []
  | x :: xs' =>
      bind (keep x) (fun kept =>
      bind (filter xs' keep) (fun rest =>
      Ok (if kept then x :: rest else rest)))
  end.

(** The [TypeError] raised by reading [property] of [undefined]. *)
Definition cannotRead (property : string) : error :=
  TypeError ("Cannot read properties of undefined (reading '"
             +:+ property +:+ "')").

(** *** Plain objects *)

(** The names every plain object inherits from [Object.prototype]. *)
Definition prototypeMembers : list string :=
  ["constructor"; "__defineGetter__"; "__defineSetter__"; "hasOwnProperty";
   "__lookupGetter__"; "__lookupSetter__"; "isPrototypeOf";
   "propertyIsEnumerable"; "toString"; "valueOf"; "__proto__";
   "toLocaleString"].

Definition inherited (key : string) : bool :=
  array_includes prototypeMembers key.

(** What [obj[key]] evaluates to when it is not [undefined], for a plain
    object whose own values are strings: an own string, or the member of
    [Object.prototype] of that name (a function, or for [__proto__] the
    prototype itself), which is truthy and equal to no string. *)
Inductive value : Type :=
| Str (s : string)
| Member (name : string).

(** [obj[key]]: own properties first, then the prototype. *)
Definition get (obj : gmap string string) (key : string) : option value :=
  match obj !! key with
  | Some s => Some (Str s)
  | None => if inherited key then Some (Member key) else None
  end.

Definition truthyValue (v : option value) : bool :=
  match v with
  | None => false
  | Some (Str s) => negb (String.eqb s EmptyString)
  | Some (Member _) => true
  end.

(** [a || b] *)
Definition orValue (a b : option value) : option value :=
  if truthyValue a then a else b.

(** [v !== s] for a string [s]. *)
Definition differs (v : option value) (s : string) : bool :=
  match v with
  | Some (Str s') => negb (String.eqb s' s)
  | _ => true
  end.

(** [key] is an array index: the canonical decimal form of an integer
    below [2^32 - 1]. *)
Definition digit (c : ascii) : option N :=
  let n := N_of_ascii c in
  if ((48 <=? n) && (n <=? 57))%N then Some (n - 48)%N else None.

Fixpoint digits (s : string) (acc : N) : option N :=
  match s with
  | EmptyString => Some acc
  | String c s' =>
      match digit c with
      | Some d => digits s' (10 * acc + d)%N
      | None => None
      end
  end.

Definition arrayIndex (key : string) : option N :=
  match key with
  | EmptyString => None
  | String c rest =>
      if Ascii.eqb c "0" && negb (String.eqb rest EmptyString) then None
      else
        match digits key 0 with
        | Some n => if (n <? 4294967295)%N then Some n else None
        | None => None
        end
  end.

Definition isIndex {V} (entry : string * V) : bool :=
  match arrayIndex (fst entry) with
  | Some _ => true
  | None => false
  end.

Definition indexOf {V} (entry : string * V) : N :=
  default 0%N (arrayIndex (fst entry)).

(** [Object.entries(obj)] (and the order of [Object.values] and
    [Object.keys]) for an object given by its own properties in creation
    order: array indices first, in ascending numeric order, then the other
    keys in creation order. *)
Fixpoint insertByIndex {V} (entry : string * V)
    (sorted : list (string * V)) : list (string * V) :=
  match sorted with
  | [] => [entry]
  | entry' :: rest =>
      if (indexOf entry <=? indexOf entry')%N then entry :: sorted
      else entry' :: insertByIndex entry rest
  end.

Definition ownEntries {V} (obj : list (string * V)) : list (string * V) :=
  fold_right insertByIndex [] (List.filter isIndex obj)
  ++ List.filter (fun entry => negb (isIndex entry)) obj.

End Js.

#[global] Instance result_ret : MRet Js.result := @Js.Ok.
#[global] Instance result_bind : MBind Js.result :=
  fun A B k r => Js.bind r k.

(** ** Data model *)

(** A discovered asset, as built by [_fetchAllAssets]: the remote record
    spread into an object that adds [id], [assetType], [catalog_name],
    [schema_name], [fullName], [environmentId] and [tags]. *)
Module Asset.
Record t : Type := Build {
  id : option string;
  assetType : string;
  catalog_name : string;
  schema_name : string;
  name : string;
  fullName : option string;
  environmentId : string;
  properties : option (gmap string string);
  tags : option (gmap string string);
}.
End Asset.

(** One entry of [parsedRequirements].  [requiredTags] is the list that
    [Object.entries] yields for the object, or [None] when the field is
    absent; [scope] is [None] when the field is absent. *)
Module Requirement.
Record t : Type := Build {
  scope : option string;
  requiredTags : option (list (string * string));
  severity : string;
  reason : option string;
}.
End Requirement.

(** An agreement record.  [environments], [shares] and
    [parsedRequirements] are arrays, or [None] when the field is absent. *)
Module Agreement.
Record t : Type := Build {
  id : option string;
  name : option string;
  environments : option (list string);
  shares : option (list string);
  parsedRequirements : option (list Requirement.t);
}.
End Agreement.

(** An element of [violations]; [actualValue] is [null] for a missing
    tag, and otherwise what the lookup of the tag key gave. *)
Module Violation.
Record t : Type := Build {
  agreementId : option string;
  agreementName : option string;
  severity : string;
  tagKey : string;
  expectedValue : string;
  actualValue : option Js.value;
  reason : option string;
}.
End Violation.

(** The object returned by [validateAsset]. *)
Module ValidationResult.
Record t : Type := Build {
  assetId : option string;
  assetName : string;
  fullName : option string;
  environmentId : string;
  compliant : bool;
  violations : list Violation.t;
}.
End ValidationResult.

(** ** [validateAsset] (routes/validation.js) *)

Module Evaluator.

(** [asset.properties?.[tagKey] || asset.tags?.[tagKey]] *)
Definition assetTagValue (asset : Asset.t) (tagKey : string)
  : option Js.value :=
  Js.orValue (Asset.properties asset ≫= (fun obj => Js.get obj tagKey))
             (Asset.tags asset ≫= (fun obj => Js.get obj tagKey)).

Definition mkViolation (agreement : Agreement.t) (req : Requirement.t)
    (tagKey tagValue : string) (actual : option Js.value) : Violation.t :=
  {| Violation.agreementId := Agreement.id agreement;
     Violation.agreementName := Agreement.name agreement;
     Violation.severity := Requirement.severity req;
     Violation.tagKey := tagKey;
     Violation.expectedValue := tagValue;
     Violation.actualValue := actual;
     Violation.reason := Requirement.reason req |}.

(** Body of [Object.entries(req.requiredTags).forEach(...)]: at most one
    [violations.push]. *)
Definition checkTag (asset : Asset.t) (agreement : Agreement.t)
    (req : Requirement.t) (violations : list Violation.t)
    (entry : string * string) : list Violation.t :=
  let '(tagKey, tagValue) := entry in
  let value := assetTagValue asset tagKey in
  if negb (Js.truthyValue value) then
    violations ++ [mkViolation agreement req tagKey tagValue None]
  else if Js.differs value tagValue then
    violations ++ [mkViolation agreement req tagKey tagValue value]
  else violations.

(** [req.scope === '*.*.*' || req.scope === 'all' ||
     req.scope.includes(asset.catalog_name) || req.scope.includes(asset.name)]:
    an absent [scope] fails both comparisons, and reading its [includes]
    raises a [TypeError]. *)
Definition scopeMatches (req : Requirement.t) (asset : Asset.t)
  : Js.result bool :=
  match Requirement.scope req with
  | None => Js.Throw (Js.cannotRead "includes")
  | Some scope =>
      Js.Ok (String.eqb scope "*.*.*"
             || String.eqb scope "all"
             || Js.includes scope (Asset.catalog_name asset)
             || Js.includes scope (Asset.name asset))
  end.

(** Body of [agreement.parsedRequirements?.forEach(req => ...)].
    [Object.entries(undefined)] raises a [TypeError]. *)
Definition checkRequirement (asset : Asset.t) (agreement : Agreement.t)
    (req : Requirement.t) (violations : list Violation.t)
  : Js.result (list Violation.t) :=
  matches ← scopeMatches req asset;
  if matches : bool then
    match Requirement.requiredTags req with
    | None =>
        Js.Throw (Js.TypeError "Cannot convert undefined or null to object")
    | Some entries =>
        Js.Ok (fold_left (checkTag asset agreement req) entries violations)
    end
  else Js.Ok violations.

Definition agreementApplies (agreement : Agreement.t) (asset : Asset.t) : bool :=
  match Agreement.shares agreement with
  | None => true
  | Some shares =>
      (length shares =? 0)%nat
      || Js.array_includes shares (Asset.catalog_name asset)
  end.

(** Body of [relevantAgreements.forEach(agreement => ...)]. *)
Definition checkAgreement (asset : Asset.t) (agreement : Agreement.t)
    (violations : list Violation.t) : Js.result (list Violation.t) :=
  if negb (agreementApplies agreement asset) then Js.Ok violations
  else
    match Agreement.parsedRequirements agreement with
    | None => Js.Ok violations
    | Some reqs => Js.forEach reqs (checkRequirement asset agreement) violations
    end.

(** [agreement.environments.includes(asset.environmentId)]: reading
    [includes] of an absent [environments] raises a [TypeError]. *)
Definition listsEnvironment (asset : Asset.t) (agreement : Agreement.t)
  : Js.result bool :=
  match Agreement.environments agreement with
  | None => Js.Throw (Js.cannotRead "includes")
  | Some environments =>
      Js.Ok (Js.array_includes environments (Asset.environmentId asset))
  end.

(** [agreements.filter(agreement => ...)], which runs over every
    agreement before any requirement is looked at. *)
Definition relevantAgreements (asset : Asset.t) (agreements : list Agreement.t)
  : Js.result (list Agreement.t) :=
  Js.filter agreements (listsEnvironment asset).

Definition validateAsset (asset : Asset.t) (agreements : list Agreement.t)
  : Js.result ValidationResult.t :=
  relevant ← relevantAgreements asset agreements;
  violations ← Js.forEach relevant (checkAgreement asset) [];
  Js.Ok {| ValidationResult.assetId :=
             Js.or (Asset.id asset) (Asset.fullName asset);
           ValidationResult.assetName := Asset.name asset;
           ValidationResult.fullName := Asset.fullName asset;
           ValidationResult.environmentId := Asset.environmentId asset;
           ValidationResult.compliant :=
             (length violations =? 0)%nat;
           ValidationResult.violations := violations |}.

End Evaluator.

(** ** [rateLimitedRequest] (services/databricksClient.js) *)

Module Transport.

Local Open Scope Q_scope.

Definition MIN_REQUEST_INTERVAL : Q := 300.

(** The module-level counters [lastRequestTime] and [consecutiveErrors],
    together with what the function observes of its environment: the
    clock read by [Date.now()], the number of times the thunk [fn] has
    been invoked, and the backoff delays announced on the console
    ("Rate limit hit, retrying in ...ms"), oldest first. *)
Record world : Type := World {
  clock : Q;
  lastRequestTime : Q;
  consecutiveErrors : nat;
  attempts : nat;
  backoffs : list Q;
}.

(** [await sleep(ms)] *)
Definition sleep (ms : Q) (w : world) : world :=
  World (clock w + ms) (lastRequestTime w) (consecutiveErrors w)
        (attempts w) (backoffs w).

Definition stampRequest (w : world) : world :=
  World (clock w) (clock w) (consecutiveErrors w) (attempts w) (backoffs w).

Definition setConsecutiveErrors (n : nat) (w : world) : world :=
  World (clock w) (lastRequestTime w) n (attempts w) (backoffs w).

Definition announce (backoffDelay : Q) (w : world) : world :=
  World (clock w) (lastRequestTime w) (consecutiveErrors w) (attempts w)
        (backoffs w ++ [backoffDelay]).

(** [await fn()]: the [k]-th invocation of the thunk takes [fst (fn k)]
    milliseconds and settles as [snd (fn k)]. *)
Definition invoke {A} (fn : nat -> Q * Js.result A) (w : world)
  : Js.result A * world :=
  let '(duration, outcome) := fn (attempts w) in
  (outcome,
   World (clock w + duration) (lastRequestTime w) (consecutiveErrors w)
         (S (attempts w)) (backoffs w)).

(** [Math.min(1000 * Math.pow(2, 3 - retries), 8000)] *)
Definition backoffDelay (retries : nat) : Q :=
  Qmin (1000 * 2 ^ (3 - Z.of_nat retries)) 8000.

Definition is429 (e : Js.error) : bool :=
  match Js.status e with
  | Some s => (s =? 429)%Z
  | None => false
  end.

(** Lines 43-53: wait until [MIN_REQUEST_INTERVAL * (1 +
    consecutiveErrors)] has elapsed since the previous request, then
    record the time of this one. *)
Definition throttle (w : world) : world :=
  let timeSinceLastRequest := clock w - lastRequestTime w in
  let adaptiveDelay :=
    MIN_REQUEST_INTERVAL * (1 + inject_Z (Z.of_nat (consecutiveErrors w))) in
  stampRequest
    (if Qlt_le_dec timeSinceLastRequest adaptiveDelay
     then sleep (adaptiveDelay - timeSinceLastRequest) w
     else w).

(** Lines 61-64: count the error, announce the delay and sleep. *)
Definition backoff (retries : nat) (w : world) : world :=
  sleep (backoffDelay retries)
        (announce (backoffDelay retries)
                  (setConsecutiveErrors (S (consecutiveErrors w)) w)).

(** One call followed from its entry to the value it settles with, while no
    other call is in progress; calls that overlap are in [TransportLoop]. *)
Fixpoint rateLimitedRequest {A} (fn : nat -> Q * Js.result A)
    (retries : nat) (w : world) : Js.result A * world :=
  let '(outcome, w) := invoke fn (throttle w) in
  match outcome with
  | Js.Ok result => (Js.Ok result, setConsecutiveErrors 0 w)
  | Js.Throw error =>
      match retries with
      | S retries' =>
          if is429 error
          then rateLimitedRequest fn retries' (backoff retries w)
          else (Js.Throw error, w)
      | O => (Js.Throw error, w)
      end
  end.

(** The default argument [retries = 3], used by every call site. *)
Definition DEFAULT_RETRIES : nat := 3.

Definition initial : world := World 0 0 0 0 [].

End Transport.

(** ** The in-memory [cache] of services/databricksClient.js *)

(** [DiscoveryProgress]: the object stored under the metadata key.  The
    error record written by the outer [catch] of [_fetchAllAssets] carries
    neither counter, and the default of [getLoadingStatus] no timestamp. *)
Module DiscoveryProgress.
Record t : Type := Build {
  isLoading : bool;
  catalogsProcessed : option nat;
  totalCatalogs : option nat;
  priorityCatalogs : option nat;
  currentAssetCount : option nat;
  error : option string;
  timestamp : option Z;
}.
End DiscoveryProgress.

Module Cache.

(** Values of the [cache] map: [{ data, timestamp }] for an asset list,
    or a progress record under a metadata key. *)
Inductive entry : Type :=
| Assets (data : list Asset.t) (timestamp : Z)
| Progress (p : DiscoveryProgress.t).

Definition CACHE_TTL : Z := 5 * 60 * 1000.

(** [`all_assets:${envId}`] *)
Definition cacheKey (envId : string) : string := "all_assets:" +:+ envId.

(** [`${cacheKey}:metadata`] *)
Definition metadataKey (envId : string) : string :=
  cacheKey envId +:+ ":metadata".

(** [`fetch_assets:${envId}`], the key into [activeRequests]. *)
Definition requestKey (envId : string) : string := "fetch_assets:" +:+ envId.

(** [cached && Date.now() - cached.timestamp < CACHE_TTL], for the
    asset-list entry of an environment. *)
Definition freshAssets (cache : gmap string entry) (envId : string) (now : Z)
  : option (list Asset.t) :=
  match cache !! cacheKey envId with
  | Some (Assets data timestamp) =>
      if (now - timestamp <? CACHE_TTL)%Z then Some data else None
  | _ => None
  end.

End Cache.

(** ** [_fetchAllAssets] and [getLoadingStatus] *)

Module Catalog.
Record t : Type := Build {
  name : string;
  catalog_type : option string;
}.
End Catalog.

Module Schema.
Record t : Type := Build {
  name : string;
}.
End Schema.

(** A table, volume, function or model as listed by the remote API. *)
Module RemoteObject.
Record t : Type := Build {
  name : string;
  full_name : Js.field;
  properties : option (gmap string string);
}.
End RemoteObject.

(** The [unityCatalog] listing calls for one environment, as
    [_fetchAllAssets] sees them settle.  [listVolumes], [listFunctions] and
    [listModels] catch their own errors and resolve to [[]].  [now k] is
    [Date.now()] at the [k]-th write to the cache. *)
Module Remote.
Record t : Type := Build {
  listCatalogs : Js.result (list Catalog.t);
  listSchemas : string -> Js.result (list Schema.t);
  listTables : string -> string -> Js.result (list RemoteObject.t);
  listVolumes : string -> string -> list RemoteObject.t;
  listFunctions : string -> string -> list RemoteObject.t;
  listModels : string -> string -> list RemoteObject.t;
  now : nat -> Z;
}.
End Remote.

Module Discovery.

(** [xs.slice(0, n)] for an integer [n]: a negative [n] counts from the
    end of the array. *)
Definition slice0 {A} (xs : list A) (n : Z) : list A :=
  if (n <? 0)%Z
  then firstn (Z.to_nat (Z.max 0 (Z.of_nat (length xs) + n))) xs
  else firstn (Z.to_nat n) xs.

Section Engine.

(** Configuration read from the process environment. *)
Variable MAX_CATALOGS : Z.
Variable MAX_SCHEMAS_PER_CATALOG : Z.

(** [String.prototype.toLowerCase]. *)
Variable toLowerCase : string -> string.

(** The remote catalog service of one environment. *)
Variable api : Remote.t.

Variable envId : string.

(** *** Catalog selection *)

(** [new Set(priorityCatalogs.map(c => c.toLowerCase()))] *)
Definition prioritySet (priorityCatalogs : list string) : gset string :=
  list_to_set (map toLowerCase priorityCatalogs).

Definition isPriority (priorityCatalogs : list string) (catalog : Catalog.t)
  : bool :=
  bool_decide (toLowerCase (Catalog.name catalog)
                 ∈ prioritySet priorityCatalogs).

(** The [catalogs.forEach] that pushes each catalog onto
    [prioritizedCatalogs] or [otherCatalogs]. *)
Definition partitionStep (priorityCatalogs : list string)
    (acc : list Catalog.t * list Catalog.t) (catalog : Catalog.t)
  : list Catalog.t * list Catalog.t :=
  let '(prioritizedCatalogs, otherCatalogs) := acc in
  if isPriority priorityCatalogs catalog
  then (prioritizedCatalogs ++ [catalog], otherCatalogs)
  else (prioritizedCatalogs, otherCatalogs ++ [catalog]).

Definition partitionCatalogs (priorityCatalogs : list string)
    (catalogs : list Catalog.t) : list Catalog.t * list Catalog.t :=
  fold_left (partitionStep priorityCatalogs) catalogs ([], []).

Definition catalogsToScan (priorityCatalogs : list string)
    (catalogs : list Catalog.t) : list Catalog.t :=
  let '(prioritizedCatalogs, otherCatalogs) :=
    partitionCatalogs priorityCatalogs catalogs in
  let remainingSlots :=
    Z.max 0 (MAX_CATALOGS - Z.of_nat (length prioritizedCatalogs)) in
  prioritizedCatalogs ++ slice0 otherCatalogs remainingSlots.

(** *** Asset records *)

(** [`${envId}:${obj.full_name}`]; an absent [full_name] prints as
    ["undefined"], a [null] one as ["null"]. *)
Definition assetId (obj : RemoteObject.t) : string :=
  envId +:+ ":" +:+ Js.print (RemoteObject.full_name obj).

(** [obj.full_name || `${catalog.name}.${schema.name}.${obj.name}`] *)
Definition assetFullName (catalog : Catalog.t) (schema : Schema.t)
    (obj : RemoteObject.t) : option string :=
  Js.or (Js.text (RemoteObject.full_name obj))
        (Some (Catalog.name catalog +:+ "." +:+ Schema.name schema
               +:+ "." +:+ RemoteObject.name obj)).

Definition mkAsset (assetType : string) (catalog : Catalog.t)
    (schema : Schema.t) (tags : gmap string string) (obj : RemoteObject.t)
  : Asset.t :=
  {| Asset.id := Some (assetId obj);
     Asset.assetType := assetType;
     Asset.catalog_name := Catalog.name catalog;
     Asset.schema_name := Schema.name schema;
     Asset.name := RemoteObject.name obj;
     Asset.fullName := assetFullName catalog schema obj;
     Asset.environmentId := envId;
     Asset.properties := RemoteObject.properties obj;
     Asset.tags := Some tags |}.

(** [tags: table.properties || {}] *)
Definition mkTable (catalog : Catalog.t) (schema : Schema.t)
    (table : RemoteObject.t) : Asset.t :=
  mkAsset "table" catalog schema
          (default ∅ (RemoteObject.properties table)) table.

(** One iteration of [for (const schema of limitedSchemas)]: when the
    [Promise.all] rejects, the error is logged and nothing is pushed. *)
Definition processSchema (catalog : Catalog.t) (allAssets : list Asset.t)
    (schema : Schema.t) : list Asset.t :=
  let c := Catalog.name catalog in
  let s := Schema.name schema in
  match Remote.listTables api c s with
  | Js.Throw _ => allAssets
  | Js.Ok tables =>
      allAssets
        ++ map (mkTable catalog schema) tables
        ++ map (mkAsset "volume" catalog schema ∅) (Remote.listVolumes api c s)
        ++ map (mkAsset "function" catalog schema ∅) (Remote.listFunctions api c s)
        ++ map (mkAsset "model" catalog schema ∅) (Remote.listModels api c s)
  end.

(** *** The crawl *)

(** Local variables of [_fetchAllAssets] and the writes it has made to
    [cache] so far, oldest first. *)
Record crawl : Type := Crawl {
  allAssets : list Asset.t;
  catalogsProcessed : nat;
  writes : list (string * Cache.entry);
}.

Definition cacheSet (key : string) (mk : Z -> Cache.entry) (c : crawl)
  : crawl :=
  Crawl (allAssets c) (catalogsProcessed c)
        (writes c ++ [(key, mk (Remote.now api (length (writes c))))]).

Definition progress (isLoading : bool) (processed total : nat)
    (priority count : option nat) (timestamp : Z) : Cache.entry :=
  Cache.Progress
    {| DiscoveryProgress.isLoading := isLoading;
       DiscoveryProgress.catalogsProcessed := Some processed;
       DiscoveryProgress.totalCatalogs := Some total;
       DiscoveryProgress.priorityCatalogs := priority;
       DiscoveryProgress.currentAssetCount := count;
       DiscoveryProgress.error := None;
       DiscoveryProgress.timestamp := Some timestamp |}.

Definition failed (message : string) (timestamp : Z) : Cache.entry :=
  Cache.Progress
    {| DiscoveryProgress.isLoading := false;
       DiscoveryProgress.catalogsProcessed := None;
       DiscoveryProgress.totalCatalogs := None;
       DiscoveryProgress.priorityCatalogs := None;
       DiscoveryProgress.currentAssetCount := None;
       DiscoveryProgress.error := Some message;
       DiscoveryProgress.timestamp := Some timestamp |}.

(** One iteration of [for (const catalog of catalogsToScan)].  The
    counter is incremented only once [listSchemas] has resolved; when
    it rejects, the [catch] logs and nothing is published. *)
Definition processCatalog (total : nat) (c : crawl) (catalog : Catalog.t)
  : crawl :=
  match Remote.listSchemas api (Catalog.name catalog) with
  | Js.Throw _ => c
  | Js.Ok schemas =>
      let processed := S (catalogsProcessed c) in
      let limitedSchemas := slice0 schemas MAX_SCHEMAS_PER_CATALOG in
      let assets := fold_left (processSchema catalog) limitedSchemas
                              (allAssets c) in
      let c := Crawl assets processed (writes c) in
      let c := cacheSet (Cache.cacheKey envId) (Cache.Assets assets) c in
      cacheSet (Cache.metadataKey envId)
               (progress true processed total None (Some (length assets)))
               c
  end.

(** The crawl of one environment: the writes made to [cache], in order,
    and the array the promise resolves to.  The function catches every
    error, so its promise never rejects. *)
Definition _fetchAllAssets (priorityCatalogs : list string) : crawl :=
  let c := Crawl [] 0 [] in
  match Remote.listCatalogs api with
  | Js.Throw error =>
      cacheSet (Cache.metadataKey envId) (failed (Js.message error)) c
  | Js.Ok catalogs =>
      let '(prioritizedCatalogs, _) :=
        partitionCatalogs priorityCatalogs catalogs in
      let toScan := catalogsToScan priorityCatalogs catalogs in
      let c := cacheSet (Cache.metadataKey envId)
                 (progress true 0 (length toScan)
                           (Some (length prioritizedCatalogs)) None) c in
      let c := fold_left (processCatalog (length toScan)) toScan c in
      let c := cacheSet (Cache.cacheKey envId)
                        (Cache.Assets (allAssets c)) c in
      cacheSet (Cache.metadataKey envId)
               (progress false (catalogsProcessed c) (catalogsProcessed c)
                         None (Some (length (allAssets c))))
               c
  end.

(** The progress records among a sequence of writes that are stored under
    the environment's metadata key. *)
Definition progressWrites (ws : list (string * Cache.entry))
  : list DiscoveryProgress.t :=
  omap (fun w : string * Cache.entry =>
          match w with
          | (key, Cache.Progress p) =>
              if String.eqb key (Cache.metadataKey envId)
              then Some p else None
          | _ => None
          end)
       ws.

(** The progress states a run publishes, in order. *)
Definition published (c : crawl) : list DiscoveryProgress.t :=
  progressWrites (writes c).

End Engine.

(** The cache after a run's writes. *)
Definition applyWrites (cache : gmap string Cache.entry)
    (ws : list (string * Cache.entry)) : gmap string Cache.entry :=
  fold_left (fun m w => <[fst w := snd w]> m) ws cache.

Definition defaultStatus : DiscoveryProgress.t :=
  {| DiscoveryProgress.isLoading := false;
     DiscoveryProgress.catalogsProcessed := Some 0%nat;
     DiscoveryProgress.totalCatalogs := Some 0%nat;
     DiscoveryProgress.priorityCatalogs := None;
     DiscoveryProgress.currentAssetCount := None;
     DiscoveryProgress.error := None;
     DiscoveryProgress.timestamp := None |}.

Definition getLoadingStatus (cache : gmap string Cache.entry)
    (envId : string) : DiscoveryProgress.t :=
  match cache !! Cache.metadataKey envId with
  | Some (Cache.Progress metadata) => metadata
  | _ => defaultStatus
  end.

End Discovery.


(** ** [getAllShareTables] and [clearCache]: request coalescing *)

(** Node runs each handler to completion between two [await]s, so a call
    of [getAllShareTables] is one atomic step up to its first [await] and
    one more when the promise it awaits has settled.  Promises returned by
    [_fetchAllAssets] are numbered in the order the crawls are started. *)
Module SingleFlight.

Definition outcome : Type := Js.result (list Asset.t).

(** Where a call of [getAllShareTables] stands. *)
Inductive task : Type :=
| AwaitingOwn (promise : nat) (requestKey : string)
    (** suspended at [await fetchPromise], inside [try]/[finally] *)
| AwaitingShared (promise : nat)
    (** suspended at [await activeRequests.get(requestKey)] *)
| Settled (result : outcome).

Record state : Type := State {
  cache : gmap string Cache.entry;
  activeRequests : gmap string nat;
  (** invocations of [_fetchAllAssets(envId, priorityCatalogs)]; the
      promise of the [k]-th one is [k] *)
  started : list (string * list string);
  (** promises that have settled, with their outcome *)
  settled : gmap nat outcome;
  (** the calls of [getAllShareTables], by caller *)
  tasks : gmap nat task;
}.

Definition setTask (caller : nat) (t : task) (s : state) : state :=
  State (cache s) (activeRequests s) (started s) (settled s)
        (<[caller := t]> (tasks s)).

(** [getAllShareTables(envId, priorityCatalogs)] up to its first
    [await], at time [now]. *)
Definition getAllShareTables (caller : nat) (envId : string)
    (priorityCatalogs : list string) (now : Z) (s : state) : state :=
  match Cache.freshAssets (cache s) envId now with
  | Some data => setTask caller (Settled (Js.Ok data)) s
  | None =>
      match activeRequests s !! Cache.requestKey envId with
      | Some promise => setTask caller (AwaitingShared promise) s
      | None =>
          let fetchPromise := length (started s) in
          State (cache s)
                (<[Cache.requestKey envId := fetchPromise]> (activeRequests s))
                (started s ++ [(envId, priorityCatalogs)])
                (settled s)
                (<[caller := AwaitingOwn fetchPromise (Cache.requestKey envId)]>
                   (tasks s))
      end
  end.

(** The crawl behind [promise] settles. *)
Definition settle (promise : nat) (result : outcome) (s : state) : state :=
  match settled s !! promise with
  | Some _ => s
  | None =>
      State (cache s) (activeRequests s) (started s)
            (<[promise := result]> (settled s)) (tasks s)
  end.

(** The continuation of a suspended call, once its promise has settled.
    The caller that started the crawl runs its [finally] block, whether
    the promise was fulfilled or rejected. *)
Definition resume (caller : nat) (s : state) : state :=
  match tasks s !! caller with
  | Some (AwaitingOwn promise requestKey) =>
      match settled s !! promise with
      | Some result =>
          State (cache s) (delete requestKey (activeRequests s)) (started s)
                (settled s) (<[caller := Settled result]> (tasks s))
      | None => s
      end
  | Some (AwaitingShared promise) =>
      match settled s !! promise with
      | Some result => setTask caller (Settled result) s
      | None => s
      end
  | _ => s
  end.

(** A crawl's [cache.set(cacheKey, { data, timestamp })]. *)
Definition publish (envId : string) (data : list Asset.t) (now : Z)
    (s : state) : state :=
  State (<[Cache.cacheKey envId := Cache.Assets data now]> (cache s))
        (activeRequests s) (started s) (settled s) (tasks s).

(** [clearCache()] *)
Definition clearCache (s : state) : state :=
  State ∅ ∅ (started s) (settled s) (tasks s).

Inductive event : Type :=
| Call (caller : nat) (envId : string) (priorityCatalogs : list string)
       (now : Z)
| Publish (envId : string) (data : list Asset.t) (now : Z)
| Settle (promise : nat) (result : outcome)
| Resume (caller : nat)
| ClearCache.

Definition step (s : state) (e : event) : state :=
  match e with
  | Call caller envId priorityCatalogs now =>
      getAllShareTables caller envId priorityCatalogs now s
  | Publish envId data now => publish envId data now s
  | Settle promise result => settle promise result s
  | Resume caller => resume caller s
  | ClearCache => clearCache s
  end.

Definition run (s : state) (events : list event) : state :=
  fold_left step events s.

(** The number of crawls started for an environment. *)
Definition crawls (envId : string) (s : state) : nat :=
  length (List.filter (fun c => String.eqb (fst c) envId) (started s)).

Definition initial : state := State ∅ ∅ [] ∅ ∅.

End SingleFlight.

(** ** Cached route handlers (routes/validation.js) *)

Module Overall.
Record t : Type := Build {
  totalAssets : nat;
  totalCatalogs : nat;
  catalogsScanned : nat;
  compliantAssets : nat;
  nonCompliantAssets : nat;
  criticalViolations : nat;
  compliancePercentage : nat;
  note : string;
}.
End Overall.

Module EnvironmentStats.
Record t : Type := Build {
  environmentId : string;
  totalAssets : nat;
  compliantAssets : nat;
  compliancePercentage : nat;
}.
End EnvironmentStats.

Module Routes.

Definition VALIDATION_CACHE_TTL : Z := 5 * 60 * 1000.

(** Bodies passed to [res.json]. *)
Inductive payload : Type :=
| Overview (overall : Overall.t) (byEnvironment : list EnvironmentStats.t)
           (lastUpdated : Z)
| Violations (violations : list ValidationResult.t)
             (totalAssets compliantAssets violatingAssets : nat)
             (note : option string)
| ValidateAll (results : list ValidationResult.t)
              (total compliant nonCompliant : nat).

Inductive response : Type :=
| Json (body : payload)
| Status500 (error message : string).

(** Values of [validationCache]: [{ data, timestamp }]. *)
Record cached : Type := Cached {
  data : payload;
  timestamp : Z;
}.

(** [validationCache], and the environments for which
    [deltaSharing.getAllShareTables] has been called, oldest first. *)
Record world : Type := World {
  validationCache : gmap string cached;
  fetched : list string;
}.

(** [cached && Date.now() - cached.timestamp < VALIDATION_CACHE_TTL] *)
Definition fresh (w : world) (cacheKey : string) (now : Z) : option payload :=
  match validationCache w !! cacheKey with
  | Some c =>
      if (now - timestamp c <? VALIDATION_CACHE_TTL)%Z
      then Some (data c) else None
  | None => None
  end.

(** [validationCache.set(cacheKey, { data, timestamp: Date.now() })] *)
Definition store (cacheKey : string) (body : payload) (now : Z) (w : world)
  : world :=
  World (<[cacheKey := Cached body now]> (validationCache w)) (fetched w).

Section Handlers.

(** [Math.round((compliant / total) * 100)] on IEEE doubles. *)
Variable roundPercent : nat -> nat -> nat.

(** [getEnvironments()] (their ids) and [getAllAgreements()]. *)
Variable environments : list string.
Variable agreements : list Agreement.t.

(** How [await deltaSharing.getAllShareTables(env.id)] settles. *)
Variable getAllShareTables : string -> Js.result (list Asset.t).

(** [for (const env of environments) { try { ... allAssets.push(...assets) }
    catch (error) { console.error(...) } }] *)
Definition fetchStep (acc : list Asset.t * world) (env : string)
  : list Asset.t * world :=
  let '(allAssets, w) := acc in
  let w := World (validationCache w) (fetched w ++ [env]) in
  match getAllShareTables env with
  | Js.Ok assets => (allAssets ++ assets, w)
  | Js.Throw _ => (allAssets, w)
  end.

Definition fetchAssets (w : world) : list Asset.t * world :=
  fold_left fetchStep environments ([], w).

(** [allAssets.map(asset => validateAsset(asset, agreements))] *)
Definition validateEach (assets : list Asset.t)
  : Js.result (list ValidationResult.t) :=
  mapM (fun asset => Evaluator.validateAsset asset agreements) assets.

Definition countCompliant (results : list ValidationResult.t) : nat :=
  length (List.filter ValidationResult.compliant results).

Definition countNonCompliant (results : list ValidationResult.t) : nat :=
  length (List.filter (fun r => negb (ValidationResult.compliant r)) results).

(** The [catch] of every handler. *)
Definition failure (error : string) (e : Js.error) : response :=
  Status500 error (Js.message e).

(** *** [GET /violations] *)

Definition emptyResult : payload :=
  Violations [] 0 0 0
    (Some "No agreements defined. Create an agreement to check for violations.").

Definition getViolations (now stored : Z) (w : world) : response * world :=
  match fresh w "violations" now with
  | Some body => (Json body, w)
  | None =>
      if (length agreements =? 0)%nat then (Json emptyResult, w)
      else
        let '(allAssets, w) := fetchAssets w in
        match validateEach allAssets with
        | Js.Throw e => (failure "Failed to get violations" e, w)
        | Js.Ok results =>
            let violationsOnly :=
              List.filter (fun r => negb (ValidationResult.compliant r))
                          results in
            let violations :=
              Violations violationsOnly (length allAssets)
                         (length allAssets - length violationsOnly)
                         (length violationsOnly) None in
            (Json violations, store "violations" violations stored w)
        end
  end.

(** *** [POST /validate-all] *)

Definition postValidateAll (now stored : Z) (w : world) : response * world :=
  match fresh w "validate_all" now with
  | Some body => (Json body, w)
  | None =>
      let '(allAssets, w) := fetchAssets w in
      match validateEach allAssets with
      | Js.Throw e => (failure "Failed to validate all assets" e, w)
      | Js.Ok results =>
          let body :=
            ValidateAll results (length results) (countCompliant results)
                        (countNonCompliant results) in
          (Json body, store "validate_all" body stored w)
      end
  end.

(** *** [GET /overview] *)

Definition defaultOverview (lastUpdated : Z) : payload :=
  Overview
    {| Overall.totalAssets := 0; Overall.totalCatalogs := 0;
       Overall.catalogsScanned := 0; Overall.compliantAssets := 0;
       Overall.nonCompliantAssets := 0; Overall.criticalViolations := 0;
       Overall.compliancePercentage := 0;
       Overall.note := "Loading assets... Please wait." |}
    [] lastUpdated.

Definition isCritical (v : Violation.t) : bool :=
  String.eqb (Violation.severity v) "critical".

(** [results.reduce((count, r) => count + r.violations.filter(...).length, 0)] *)
Definition countCritical (results : list ValidationResult.t) : nat :=
  fold_left
    (fun count r =>
       count + length (List.filter isCritical (ValidationResult.violations r)))
    results 0.

(** The own properties of the [byEnvironment] object, in creation order:
    environment id, [totalAssets], [compliantAssets].  When the id is no
    own key but names a member of [Object.prototype], the lookup
    [byEnvironment[result.environmentId]] is truthy: no entry is created,
    and the increments land on the inherited member. *)
Fixpoint tally (byEnvironment : list (string * (nat * nat)))
    (result : ValidationResult.t) : list (string * (nat * nat)) :=
  let bump (entry : nat * nat) :=
    (S (fst entry),
     if ValidationResult.compliant result then S (snd entry) else snd entry) in
  match byEnvironment with
  | [] =>
      if Js.inherited (ValidationResult.environmentId result) then []
      else [(ValidationResult.environmentId result, bump (0, 0))]
  | (env, entry) :: rest =>
      if String.eqb env (ValidationResult.environmentId result)
      then (env, bump entry) :: rest
      else (env, entry) :: tally rest result
  end.

Definition percentage (compliant total : nat) : nat :=
  if (0 <? total)%nat then roundPercent compliant total else 0.

(** [Object.values(byEnvironment).map(env => ...)] *)
Definition environmentStats (byEnvironment : list (string * (nat * nat)))
  : list EnvironmentStats.t :=
  map (fun e : string * (nat * nat) =>
         let '(env, (total, compliant)) := e in
         EnvironmentStats.Build env total compliant
                                (percentage compliant total))
      (Js.ownEntries byEnvironment).

(** [new Set(detailedAssets.map(a => a.catalog_name)).size] *)
Definition uniqueCatalogs (assets : list Asset.t) : nat :=
  size (list_to_set (map Asset.catalog_name assets) : gset string).

Definition getOverview (now built stored : Z) (w : world) : response * world :=
  match fresh w "compliance_overview" now with
  | Some body => (Json body, w)
  | None =>
      let '(detailedAssets, w) := fetchAssets w in
      if (length detailedAssets =? 0)%nat
      then (Json (defaultOverview built), w)
      else
        match validateEach detailedAssets with
        | Js.Throw e => (failure "Failed to get compliance overview" e, w)
        | Js.Ok results =>
            let compliantAssets := countCompliant results in
            let catalogs := uniqueCatalogs detailedAssets in
            let overview :=
              Overview
                {| Overall.totalAssets := length detailedAssets;
                   Overall.totalCatalogs := catalogs;
                   Overall.catalogsScanned := catalogs;
                   Overall.compliantAssets := compliantAssets;
                   Overall.nonCompliantAssets :=
                     length detailedAssets - compliantAssets;
                   Overall.criticalViolations := countCritical results;
                   Overall.compliancePercentage :=
                     percentage compliantAssets (length detailedAssets);
                   Overall.note :=
                     "Showing compliance for " +:+ pretty catalogs
                       +:+ " scanned shares" |}
                (environmentStats (fold_left tally results []))
                built in
            (Json overview, store "compliance_overview" overview stored w)
        end
  end.

End Handlers.

Definition initial : world := World ∅ [].

End Routes.

(** * Specifications *)

(** ** What [validateAsset] computes, as a comprehension *)

Module EvaluatorSpec.

Import Evaluator.

(** The violation a single required tag gives rise to, if any. *)
Definition tagViolations (asset : Asset.t) (agreement : Agreement.t)
    (req : Requirement.t) (entry : string * string) : list Violation.t :=
  let '(tagKey, tagValue) := entry in
  match assetTagValue asset tagKey with
  | None => [mkViolation agreement req tagKey tagValue None]
  | Some (Js.Str observed) =>
      if String.eqb observed EmptyString then
        [mkViolation agreement req tagKey tagValue None]
      else if String.eqb observed tagValue then []
      else [mkViolation agreement req tagKey tagValue (Some (Js.Str observed))]
  | Some (Js.Member name) =>
      [mkViolation agreement req tagKey tagValue (Some (Js.Member name))]
  end.

(** The agreement lists the asset's environment. *)
Definition listed (asset : Asset.t) (agreement : Agreement.t) : bool :=
  match Agreement.environments agreement with
  | Some environments =>
      Js.array_includes environments (Asset.environmentId asset)
  | None => false
  end.

(** The agreement lists the asset's environment and is not restricted
    to other shares. *)
Definition covers (asset : Asset.t) (agreement : Agreement.t) : bool :=
  match Agreement.environments agreement with
  | Some environments =>
      Js.array_includes environments (Asset.environmentId asset)
      && agreementApplies agreement asset
  | None => false
  end.

(** The requirement has a scope, and it matches the asset. *)
Definition inScope (asset : Asset.t) (req : Requirement.t) : bool :=
  match scopeMatches req asset with
  | Js.Ok matches => matches
  | Js.Throw _ => false
  end.

(** The requirements of an agreement whose scope matches the asset. *)
Definition matching (asset : Asset.t) (agreement : Agreement.t)
  : list Requirement.t :=
  List.filter (inScope asset)
              (default [] (Agreement.parsedRequirements agreement)).

Definition requirementViolations (asset : Asset.t) (agreement : Agreement.t)
    (req : Requirement.t) : list Violation.t :=
  flat_map (tagViolations asset agreement req)
           (default [] (Requirement.requiredTags req)).

Definition agreementViolations (asset : Asset.t) (agreement : Agreement.t)
  : list Violation.t :=
  flat_map (requirementViolations asset agreement) (matching asset agreement).

Definition expectedViolations (asset : Asset.t) (agreements : list Agreement.t)
  : list Violation.t :=
  flat_map (agreementViolations asset) (List.filter (covers asset) agreements).

Definition typeError : Js.error :=
  Js.TypeError "Cannot convert undefined or null to object".

(** The first error among the elements of a list, in order. *)
Definition firstError {A} (errorOf : A -> option Js.error) (xs : list A)
  : option Js.error :=
  head (omap errorOf xs).

(** The error an agreement raises while the agreements are filtered. *)
Definition environmentsError (agreement : Agreement.t) : option Js.error :=
  match Agreement.environments agreement with
  | None => Some (Js.cannotRead "includes")
  | Some _ => None
  end.

(** The error a requirement raises when it is evaluated for the asset:
    it has no [scope], or its scope matches and it has no
    [requiredTags]. *)
Definition requirementError (asset : Asset.t) (req : Requirement.t)
  : option Js.error :=
  match scopeMatches req asset with
  | Js.Throw e => Some e
  | Js.Ok true =>
      match Requirement.requiredTags req with
      | None => Some typeError
      | Some _ => None
      end
  | Js.Ok false => None
  end.

Definition agreementError (asset : Asset.t) (agreement : Agreement.t)
  : option Js.error :=
  if agreementApplies agreement asset
  then firstError (requirementError asset)
                  (default [] (Agreement.parsedRequirements agreement))
  else None.

(** The error that stops the evaluation of the asset, if any. *)
Definition evaluationError (asset : Asset.t) (agreements : list Agreement.t)
  : option Js.error :=
  match firstError environmentsError agreements with
  | Some e => Some e
  | None =>
      firstError (agreementError asset) (List.filter (covers asset) agreements)
  end.

(** Every agreement carries [environments], and every requirement carries
    [scope] and [requiredTags]. *)
Definition wellFormed (agreements : list Agreement.t) : bool :=
  forallb (fun agreement =>
             bool_decide (is_Some (Agreement.environments agreement))
             && forallb (fun req =>
                           bool_decide (is_Some (Requirement.scope req))
                           && bool_decide
                                (is_Some (Requirement.requiredTags req)))
                        (default [] (Agreement.parsedRequirements agreement)))
          agreements.

(** A violation reported for a tag key and an expected value. *)
Definition concerns (tagKey tagValue : string) (v : Violation.t) : Prop :=
  Violation.tagKey v = tagKey /\ Violation.expectedValue v = tagValue.

Definition resultOf (asset : Asset.t) (violations : list Violation.t)
  : ValidationResult.t :=
  {| ValidationResult.assetId := Js.or (Asset.id asset) (Asset.fullName asset);
     ValidationResult.assetName := Asset.name asset;
     ValidationResult.fullName := Asset.fullName asset;
     ValidationResult.environmentId := Asset.environmentId asset;
     ValidationResult.compliant := (length violations =? 0)%nat;
     ValidationResult.violations := violations |}.

(** The asset with its [tags] map replaced. *)
Definition withTags (tags : option (gmap string string)) (asset : Asset.t)
  : Asset.t :=
  {| Asset.id := Asset.id asset;
     Asset.assetType := Asset.assetType asset;
     Asset.catalog_name := Asset.catalog_name asset;
     Asset.schema_name := Asset.schema_name asset;
     Asset.name := Asset.name asset;
     Asset.fullName := Asset.fullName asset;
     Asset.environmentId := Asset.environmentId asset;
     Asset.properties := Asset.properties asset;
     Asset.tags := tags |}.

End EvaluatorSpec.

(** ** Backoff delays *)

Module TransportSpec.

Local Open Scope Q_scope.

(** Each delay is at least the one before it. *)
Fixpoint nondecreasing (delays : list Q) : Prop :=
  match delays with
  | [] => True
  | d :: rest =>
      match rest with
      | [] => True
      | d' :: _ => d <= d' /\ nondecreasing rest
      end
  end.

(** The values of [retries] at the first [n] retries of a call that
    starts with budget [retries]. *)
Fixpoint countdown (retries n : nat) {struct n} : list nat :=
  match n, retries with
  | S n', S retries' => retries :: countdown retries' n'
  | _, _ => []
  end.

(** The thunk's [k]-th invocation is answered with HTTP 429. *)
Definition rateLimited {A} (fn : nat -> Q * Js.result A) (k : nat) : Prop :=
  exists e, snd (fn k) = Js.Throw e /\ Transport.is429 e = true.

Definition always429 : nat -> Q * Js.result unit :=
  fun _ => (5, Js.Throw (Js.HttpError (Some 429%Z) "Too Many Requests")).

End TransportSpec.

(** ** Concurrent calls of [rateLimitedRequest]

    [_fetchAllAssets] lists tables, volumes, functions and models of a
    schema under one [Promise.all], so calls of [rateLimitedRequest] are
    suspended at their [await]s at the same time, and all of them read and
    write the module-level [lastRequestTime] and [consecutiveErrors].  A
    call runs without interruption from one [await] to the next; such a run
    takes no time. *)

Module TransportLoop.

Local Open Scope Q_scope.

(** [MIN_REQUEST_INTERVAL * (1 + consecutiveErrors)] *)
Definition adaptiveDelay (consecutiveErrors : nat) : Q :=
  Transport.MIN_REQUEST_INTERVAL
  * (1 + inject_Z (Z.of_nat consecutiveErrors)).

(** A call at one of its [await]s, with what it resumes with.  In
    [Throttled], [lastSeen] and [errorsSeen] are the values of
    [lastRequestTime] and [consecutiveErrors] from which the locals
    [timeSinceLastRequest] and [adaptiveDelay] were computed at [now]. *)
Inductive frame (A : Type) : Type :=
| Throttled (retries : nat) (now lastSeen : Q) (errorsSeen : nat)
| InFlight (retries : nat)
| BackingOff (retries : nat) (since backoffDelay : Q)
| Returned (result : A)
| Thrown (error : Js.error).
Arguments Throttled {A} retries now lastSeen errorsSeen.
Arguments InFlight {A} retries.
Arguments BackingOff {A} retries since backoffDelay.
Arguments Returned {A} result.
Arguments Thrown {A} error.

(** One invocation of the thunk [fn]: the call that made it, the values of
    [lastRequestTime] and [consecutiveErrors] the call had read when it
    decided how long to wait, and the time stamped in [lastRequestTime]. *)
Record request : Type := Request {
  caller : nat;
  lastSeen : Q;
  errorsSeen : nat;
  startedAt : Q;
}.

(** The writes to [consecutiveErrors], oldest first. *)
Inductive note : Type :=
| Succeeded (caller : nat)
| RateLimited (caller : nat) (backoffDelay : Q)
| Cleared.

(** The module-level variables, the calls that have been made (by a number
    that identifies the call), and two records of what has happened: the
    invocations of the thunks and the writes to the counter. *)
Record state (A : Type) : Type := State {
  clock : Q;
  lastRequestTime : Q;
  consecutiveErrors : nat;
  calls : gmap nat (frame A);
  requests : list request;
  history : list note;
}.
Arguments State {A} clock lastRequestTime consecutiveErrors calls requests
  history.
Arguments clock {A} s.
Arguments lastRequestTime {A} s.
Arguments consecutiveErrors {A} s.
Arguments calls {A} s.
Arguments requests {A} s.
Arguments history {A} s.

Inductive event (A : Type) : Type :=
| Elapse (ms : Q)
| Call (id retries : nat)
| TimerFires (id : nat)
| Settles (id : nat) (outcome : Js.result A)
| ClearCache.
Arguments Elapse {A} ms.
Arguments Call {A} id retries.
Arguments TimerFires {A} id.
Arguments Settles {A} id outcome.
Arguments ClearCache {A}.

(** The call [id] is suspended at an [await], or settles. *)
Definition suspend {A} (id : nat) (f : frame A) (s : state A) : state A :=
  State (clock s) (lastRequestTime s) (consecutiveErrors s)
        (<[id := f]> (calls s)) (requests s) (history s).

(** [lastRequestTime = Date.now(); ... await fn()] *)
Definition send {A} (id retries : nat) (lastSeen : Q) (errorsSeen : nat)
    (s : state A) : state A :=
  State (clock s) (clock s) (consecutiveErrors s)
        (<[id := InFlight retries]> (calls s))
        (requests s ++ [Request id lastSeen errorsSeen (clock s)])
        (history s).

(** The body of [rateLimitedRequest(fn, retries)] up to its first
    [await]. *)
Definition enter {A} (id retries : nat) (s : state A) : state A :=
  let now := clock s in
  let timeSinceLastRequest := now - lastRequestTime s in
  if Qlt_le_dec timeSinceLastRequest (adaptiveDelay (consecutiveErrors s))
  then suspend id (Throttled retries now (lastRequestTime s)
                             (consecutiveErrors s)) s
  else send id retries (lastRequestTime s) (consecutiveErrors s) s.

(** After [await fn()]: the [try] block's last two statements, or the
    [catch] block up to [await sleep(backoffDelay)]. *)
Definition settle {A} (id retries : nat) (outcome : Js.result A)
    (s : state A) : state A :=
  match outcome with
  | Js.Ok result =>
      State (clock s) (lastRequestTime s) 0
            (<[id := Returned result]> (calls s)) (requests s)
            (history s ++ [Succeeded id])
  | Js.Throw error =>
      if Transport.is429 error && (0 <? retries)%nat
      then
        let backoffDelay := Transport.backoffDelay retries in
        State (clock s) (lastRequestTime s) (S (consecutiveErrors s))
              (<[id := BackingOff retries (clock s) backoffDelay]> (calls s))
              (requests s)
              (history s ++ [RateLimited id backoffDelay])
      else suspend id (Thrown error) s
  end.

(** One turn of the event loop.  Time passes; a new call is made; a timer
    set by [sleep(ms)] fires, which it does no earlier than [ms] after it
    was set; the promise of [fn()] settles; or [clearCache] runs.  An event
    that cannot happen in [s] leaves it as it is. *)
Definition step {A} (s : state A) (ev : event A) : state A :=
  match ev with
  | Elapse ms =>
      if Qle_bool 0 ms
      then State (clock s + ms) (lastRequestTime s) (consecutiveErrors s)
                 (calls s) (requests s) (history s)
      else s
  | Call id retries =>
      match calls s !! id with
      | None => enter id retries s
      | Some _ => s
      end
  | TimerFires id =>
      match calls s !! id with
      | Some (Throttled retries now lastSeen errorsSeen) =>
          let timeSinceLastRequest := now - lastSeen in
          let ms := adaptiveDelay errorsSeen - timeSinceLastRequest in
          if Qle_bool (now + ms) (clock s)
          then send id retries lastSeen errorsSeen s
          else s
      | Some (BackingOff retries since backoffDelay) =>
          if Qle_bool (since + backoffDelay) (clock s)
          then enter id (retries - 1) s
          else s
      | _ => s
      end
  | Settles id outcome =>
      match calls s !! id with
      | Some (InFlight retries) => settle id retries outcome s
      | _ => s
      end
  | ClearCache =>
      State (clock s) (lastRequestTime s) 0 (calls s) (requests s)
            (history s ++ [Cleared])
  end.

Definition run {A} (s : state A) (events : list (event A)) : state A :=
  fold_left step events s.

(** The module as loaded, at time [start]. *)
Definition initial {A} (start : Q) : state A := State start 0 0 ∅ [] [].

End TransportLoop.

Module TransportLoopSpec.

Import TransportLoop.

(** The number of rate-limited answers since the counter was last reset,
    on top of [count] before the history. *)
Fixpoint sinceReset (history : list note) (count : nat) : nat :=
  match history with
  | [] => count
  | RateLimited _ _ :: rest => sinceReset rest (S count)
  | Succeeded _ :: rest => sinceReset rest 0
  | Cleared :: rest => sinceReset rest 0
  end.

(** The requests made by one call. *)
Definition requestsOf (id : nat) (log : list request) : list request :=
  List.filter (fun r => (caller r =? id)%nat) log.

(** The backoffs taken by one call. *)
Definition backoffsOf (id : nat) (notes : list note) : list Q :=
  flat_map (fun n => match n with
                     | RateLimited id' backoffDelay =>
                         if (id' =? id)%nat then [backoffDelay] else []
                     | _ => []
                     end) notes.


(** What holds of the counter and of the record of its writes. *)
Definition counted {A} (s : state A) : Prop :=
  consecutiveErrors s = sinceReset (history s) 0
  /\ (forall id result,
        calls s !! id = Some (Returned result) ->
        In (Succeeded id) (history s))
  /\ (forall id retries since backoffDelay,
        calls s !! id = Some (BackingOff retries since backoffDelay) ->
        In (RateLimited id backoffDelay) (history s)
        /\ backoffDelay = Transport.backoffDelay retries
        /\ 0 < retries).

Definition tooMany : Js.error :=
  Js.HttpError (Some 429%Z) "Too Many Requests".

Definition notFound : Js.error := Js.HttpError (Some 404%Z) "Not Found".


(** Call 1 is rate limited and backs off; meanwhile call 2 succeeds; then
    the retry of call 1 fails for good. *)
Definition interleaved : list (event unit) :=
  [Call 1 3; Elapse 300; TimerFires 1;
   Call 2 3; Elapse 300; TimerFires 2;
   Settles 1 (Js.Throw tooMany);
   Settles 2 (Js.Ok ());
   Elapse 1000; TimerFires 1;
   Settles 1 (Js.Throw notFound)].

End TransportLoopSpec.

(** ** Progress of a discovery run *)

Module DiscoverySpec.

(** [catalogsProcessed <= totalCatalogs], for a state that carries both
    counters. *)
Definition withinTotal (p : DiscoveryProgress.t) : Prop :=
  match DiscoveryProgress.catalogsProcessed p,
        DiscoveryProgress.totalCatalogs p with
  | Some processed, Some total => processed <= total
  | _, _ => False
  end.

(** [catalogsProcessed] never decreases from one state to the next. *)
Fixpoint processedNondecreasing (states : list DiscoveryProgress.t) : Prop :=
  match states with
  | [] => True
  | p :: rest =>
      match rest with
      | [] => True
      | q :: _ =>
          match DiscoveryProgress.catalogsProcessed p,
                DiscoveryProgress.catalogsProcessed q with
          | Some m, Some n => m <= n
          | _, _ => False
          end
          /\ processedNondecreasing rest
      end
  end.

(** The number of places where a flag goes from [from] to [negb from]. *)
Fixpoint transitions (from : bool) (flags : list bool) : nat :=
  match flags with
  | [] => 0
  | a :: rest =>
      match rest with
      | [] => 0
      | b :: _ =>
          (if Bool.eqb a from && Bool.eqb b (negb from) then 1 else 0)
          + transitions from rest
      end
  end.

(** C9 as stated, for the states one run publishes. *)
Definition progressClaim (states : list DiscoveryProgress.t) : Prop :=
  Forall withinTotal states
  /\ processedNondecreasing states
  /\ transitions true (map DiscoveryProgress.isLoading states) = 1
  /\ transitions false (map DiscoveryProgress.isLoading states) = 0.

(** The only state published by a run whose catalog listing fails. *)
Definition failedState (message : string) (timestamp : Z)
  : DiscoveryProgress.t :=
  {| DiscoveryProgress.isLoading := false;
     DiscoveryProgress.catalogsProcessed := None;
     DiscoveryProgress.totalCatalogs := None;
     DiscoveryProgress.priorityCatalogs := None;
     DiscoveryProgress.currentAssetCount := None;
     DiscoveryProgress.error := Some message;
     DiscoveryProgress.timestamp := Some timestamp |}.

(** A write of the crawl of [envId]: a progress record under the metadata
    key, or an asset list under another key. *)
Definition wellKeyed (envId : string) (w : string * Cache.entry) : Prop :=
  match snd w with
  | Cache.Progress _ => fst w = Cache.metadataKey envId
  | Cache.Assets _ _ => fst w <> Cache.metadataKey envId
  end.

(** A state published while the loop runs: loading, over [total]
    catalogs, with at most [bound] processed. *)
Definition loadingState (total bound : nat) (p : DiscoveryProgress.t) : Prop :=
  DiscoveryProgress.isLoading p = true
  /\ DiscoveryProgress.totalCatalogs p = Some total
  /\ exists m, DiscoveryProgress.catalogsProcessed p = Some m /\ m <= bound.

(** What the loop over [catalogsToScan] maintains, once the initial state
    has been published and [k] catalogs have been visited. *)
Definition loopInvariant (envId : string) (total k : nat)
    (c : Discovery.crawl) : Prop :=
  Discovery.catalogsProcessed c <= k
  /\ Discovery.published envId c <> []
  /\ Forall (loadingState total (Discovery.catalogsProcessed c))
            (Discovery.published envId c)
  /\ processedNondecreasing (Discovery.published envId c).

End DiscoverySpec.

(** ** Coalesced requests *)

Module SingleFlightSpec.

Import SingleFlight.

(** One caller: its identity, the [priorityCatalogs] it passes and the
    time of its call. *)
Definition caller : Type := nat * list string * Z.

Definition callerId (c : caller) : nat := fst (fst c).

Definition callOf (envId : string) (c : caller) : event :=
  Call (callerId c) envId (snd (fst c)) (snd c).

(** A caller of the coalesced request is suspended on the crawl's
    promise, or has received the crawl's result. *)
Definition joined (promise : nat) (requestKey : string) (result : outcome)
    (t : task) : Prop :=
  t = AwaitingOwn promise requestKey
  \/ t = AwaitingShared promise
  \/ t = Settled result.

(** The crawl has settled with [result]; every caller in [ids] has
    joined it; and the caller [owner] that started it is either still
    suspended or has resumed and removed the in-flight marker. *)
Definition settling (promise : nat) (requestKey : string) (result : outcome)
    (owner : nat) (ids : list nat) (s : state) : Prop :=
  settled s !! promise = Some result
  /\ (forall c, In c ids ->
                exists t, tasks s !! c = Some t
                          /\ joined promise requestKey result t)
  /\ (tasks s !! owner = Some (AwaitingOwn promise requestKey)
      \/ (tasks s !! owner = Some (Settled result)
          /\ activeRequests s !! requestKey = None)).

End SingleFlightSpec.

(** ** Sample inputs *)

Module Samples.

(** [{catalog_name: "sales", name: "orders", tags: {PII: "true"}}] in
    environment [env]. *)
Definition orders (env : string) (tags : gmap string string) : Asset.t :=
  {| Asset.id := None; Asset.assetType := "table";
     Asset.catalog_name := "sales"; Asset.schema_name := "default";
     Asset.name := "orders"; Asset.fullName := None;
     Asset.environmentId := env; Asset.properties := None;
     Asset.tags := Some tags |}.

Definition requirement (requiredTags : option (list (string * string)))
  : Requirement.t :=
  {| Requirement.scope := Some "all";
     Requirement.requiredTags := requiredTags;
     Requirement.severity := "critical";
     Requirement.reason := None |}.

(** [{shares, parsedRequirements: [{scope: "all", requiredTags,
    severity: "critical"}]}] covering the environments [envs]. *)
Definition agreement (envs shares : list string)
    (requiredTags : option (list (string * string))) : Agreement.t :=
  {| Agreement.id := None; Agreement.name := None;
     Agreement.environments := Some envs; Agreement.shares := Some shares;
     Agreement.parsedRequirements := Some [requirement requiredTags] |}.

Definition piiAndRetention : option (list (string * string)) :=
  Some [("PII", "true"); ("retention_years", "7")].

Definition missingRetention : Violation.t :=
  {| Violation.agreementId := None;
     Violation.agreementName := None;
     Violation.severity := "critical";
     Violation.tagKey := "retention_years";
     Violation.expectedValue := "7";
     Violation.actualValue := None;
     Violation.reason := None |}.

(** The asset with both a [properties] and a [tags] map. *)
Definition ordersWith (properties tags : gmap string string) : Asset.t :=
  {| Asset.id := None; Asset.assetType := "table";
     Asset.catalog_name := "sales"; Asset.schema_name := "default";
     Asset.name := "orders"; Asset.fullName := None;
     Asset.environmentId := "prod"; Asset.properties := Some properties;
     Asset.tags := Some tags |}.

(** [toLowerCase] on ASCII letters. *)
Fixpoint ascii_lower (s : string) : string :=
  match s with
  | EmptyString => EmptyString
  | String c s' =>
      let n := nat_of_ascii c in
      String (if ((65 <=? n) && (n <=? 90))%nat
              then ascii_of_nat (n + 32) else c)
             (ascii_lower s')
  end.

(** Fifty catalogs [c0 ... c49]. *)
Definition fiftyCatalogs : list Catalog.t :=
  map (fun n => Catalog.Build ("c" +:+ pretty n) None) (seq 0 50).

Definition threeShares : list string := ["C3"; "c10"; "c20"].

(** An asset with no tags at all, in environment ["prod"]. *)
Definition untagged : Asset.t := orders "prod" ∅.

(** An agreement that requires [PII = "true"] of every asset of
    ["prod"]. *)
Definition piiAgreement : Agreement.t :=
  agreement ["prod"] [] (Some [("PII", "true")]).

(** A remote whose catalog listing fails. *)
Definition unreachable : Remote.t :=
  {| Remote.listCatalogs := Js.Throw (Js.HttpError (Some 500%Z) "boom");
     Remote.listSchemas := fun _ => Js.Ok [];
     Remote.listTables := fun _ _ => Js.Ok [];
     Remote.listVolumes := fun _ _ => [];
     Remote.listFunctions := fun _ _ => [];
     Remote.listModels := fun _ _ => [];
     Remote.now := fun k => Z.of_nat k |}.

(** Three catalogs; listing the schemas of [hr] fails, and listing the
    tables of any schema [s2] is rate limited. *)
Definition flaky : Remote.t :=
  {| Remote.listCatalogs :=
       Js.Ok [Catalog.Build "Sales" None; Catalog.Build "hr" None;
              Catalog.Build "ops" None];
     Remote.listSchemas := fun c =>
       if String.eqb c "hr" then Js.Throw (Js.HttpError (Some 500%Z) "boom")
       else Js.Ok [Schema.Build "s1"; Schema.Build "s2"];
     Remote.listTables := fun c s =>
       if String.eqb s "s2" then Js.Throw (Js.HttpError (Some 429%Z) "slow down")
       else Js.Ok [RemoteObject.Build "t" Js.Undefined None];
     Remote.listVolumes := fun _ _ =>
       [RemoteObject.Build "v" (Js.Text "x.y.v") None];
     Remote.listFunctions := fun _ _ => [];
     Remote.listModels := fun _ _ => [];
     Remote.now := fun k => Z.of_nat k |}.

End Samples.

(** ** What a crawl discovers *)

Module CrawlSpec.

(** The asset was built from a record listed under [schema] of [catalog]:
    the schema is among those of the catalog that are visited, and the
    record is one of its tables, volumes, functions or models. *)
Definition discoveredIn (MAX_SCHEMAS_PER_CATALOG : Z) (api : Remote.t)
    (envId : string) (catalog : Catalog.t) (asset : Asset.t) : Prop :=
  exists schemas schema obj,
    Remote.listSchemas api (Catalog.name catalog) = Js.Ok schemas
    /\ In schema (Discovery.slice0 schemas MAX_SCHEMAS_PER_CATALOG)
    /\ ((exists tables,
            Remote.listTables api (Catalog.name catalog) (Schema.name schema)
            = Js.Ok tables
            /\ In obj tables
            /\ asset = Discovery.mkTable envId catalog schema obj)
        \/ (In obj (Remote.listVolumes api (Catalog.name catalog)
                                       (Schema.name schema))
            /\ asset = Discovery.mkAsset envId "volume" catalog schema ∅ obj)
        \/ (In obj (Remote.listFunctions api (Catalog.name catalog)
                                         (Schema.name schema))
            /\ asset = Discovery.mkAsset envId "function" catalog schema ∅ obj)
        \/ (In obj (Remote.listModels api (Catalog.name catalog)
                                      (Schema.name schema))
            /\ asset = Discovery.mkAsset envId "model" catalog schema ∅ obj)).

(** What a visited schema holds, as asset records. *)
Definition schemaAssets (api : Remote.t) (envId : string)
    (catalog : Catalog.t) (schema : Schema.t) : list Asset.t :=
  let c := Catalog.name catalog in
  let s := Schema.name schema in
  match Remote.listTables api c s with
  | Js.Throw _ => []
  | Js.Ok tables =>
      map (Discovery.mkTable envId catalog schema) tables
      ++ map (Discovery.mkAsset envId "volume" catalog schema ∅)
             (Remote.listVolumes api c s)
      ++ map (Discovery.mkAsset envId "function" catalog schema ∅)
             (Remote.listFunctions api c s)
      ++ map (Discovery.mkAsset envId "model" catalog schema ∅)
             (Remote.listModels api c s)
  end.

(** What a catalog holds in the schemas that are visited. *)
Definition catalogAssets (MAX_SCHEMAS_PER_CATALOG : Z) (api : Remote.t)
    (envId : string) (catalog : Catalog.t) : list Asset.t :=
  match Remote.listSchemas api (Catalog.name catalog) with
  | Js.Throw _ => []
  | Js.Ok schemas =>
      flat_map (schemaAssets api envId catalog)
               (Discovery.slice0 schemas MAX_SCHEMAS_PER_CATALOG)
  end.

(** The schemas of the catalog can be listed. *)
Definition schemasListed (api : Remote.t) (catalog : Catalog.t) : bool :=
  match Remote.listSchemas api (Catalog.name catalog) with
  | Js.Ok _ => true
  | Js.Throw _ => false
  end.

(** The time of the crawl's last write of the asset list: the write before
    the final progress record. *)
Definition completedAt (api : Remote.t) (c : Discovery.crawl) : Z :=
  Remote.now api (length (Discovery.writes c) - 2).

End CrawlSpec.

(** ** [POST /validate/:assetId] and [POST /clear-cache] (routes/validation.js) *)

Module ValidateById.

(** [String.prototype.split] with a one-character separator. *)
Fixpoint split (sep : ascii) (s : string) : list string :=
  match s with
  | EmptyString => [EmptyString]
  | String c s' =>
      if Ascii.eqb c sep then EmptyString :: split sep s'
      else
        match split sep s' with
        | [] => [String c EmptyString]
        | part :: parts => String c part :: parts
        end
  end.

Inductive response : Type :=
| Json (result : ValidationResult.t)
| Status400 (error : string)
| Status404 (error : string)
| Status500 (error message : string).

Section Handler.

(** [getAllAgreements()] and how [await deltaSharing.getAllShareTables(envId)]
    settles. *)
Variable agreements : list Agreement.t.
Variable getAllShareTables : string -> Js.result (list Asset.t).

(** [tables.find(t => t.fullName === fullTableName)] *)
Definition findTable (tables : list Asset.t) (fullTableName : string)
  : option Asset.t :=
  List.find (fun t => bool_decide (Asset.fullName t = Some fullTableName))
            tables.

(** The handler: its response and the environments for which
    [getAllShareTables] was called. *)
Definition postValidate (assetId : string) : response * list string :=
  let parts := split ":" assetId in
  let envId := nth_error parts 0 in
  let fullTableName := nth_error parts 1 in
  if negb (Js.truthy envId) || negb (Js.truthy fullTableName)
  then (Status400 "Invalid asset ID format", [])
  else
    match envId, fullTableName with
    | Some envId, Some fullTableName =>
        match getAllShareTables envId with
        | Js.Throw e =>
            (Status500 "Failed to validate asset" (Js.message e), [envId])
        | Js.Ok tables =>
            match findTable tables fullTableName with
            | None => (Status404 "Asset not found", [envId])
            | Some table =>
                match Evaluator.validateAsset table agreements with
                | Js.Ok result => (Json result, [envId])
                | Js.Throw e =>
                    (Status500 "Failed to validate asset" (Js.message e),
                     [envId])
                end
            end
        end
    | _, _ => (Status400 "Invalid asset ID format", [])
    end.

End Handler.

(** The string holds no [":"]. *)
Fixpoint noColon (s : string) : bool :=
  match s with
  | EmptyString => true
  | String c s' => negb (Ascii.eqb c ":") && noColon s'
  end.

End ValidateById.

Module ClearCache.



End ClearCache.

(** ** Counting over validation results *)

Module RoutesSpec.

(** The results that belong to one environment. *)
Definition ofEnvironment (env : string) (results : list ValidationResult.t)
  : list ValidationResult.t :=
  List.filter (fun r => String.eqb env (ValidationResult.environmentId r))
              results.

(** The results whose environment gets an entry in [byEnvironment]: those
    whose id does not name a member of [Object.prototype]. *)
Definition counted (results : list ValidationResult.t)
  : list ValidationResult.t :=
  List.filter
    (fun r => negb (Js.inherited (ValidationResult.environmentId r))) results.

(** What the [byEnvironment] tally must hold after the results [seen]. *)
Definition tallied (stats : list (string * (nat * nat)))
    (seen : list ValidationResult.t) : Prop :=
  NoDup (map fst stats)
  /\ (forall r,
        In r seen ->
        Js.inherited (ValidationResult.environmentId r) = false ->
        In (ValidationResult.environmentId r) (map fst stats))
  /\ (forall env total compliant,
        In (env, (total, compliant)) stats ->
        Js.inherited env = false
        /\ total = length (ofEnvironment env seen)
        /\ compliant = Routes.countCompliant (ofEnvironment env seen)
        /\ 0 < total)
  /\ list_sum (map (fun e : string * (nat * nat) => fst (snd e)) stats)
     = length (counted seen).

(** One more result counted into an entry of the tally. *)
Definition bumped (r : ValidationResult.t) (entry : nat * nat) : nat * nat :=
  (S (fst entry),
   if ValidationResult.compliant r then S (snd entry) else snd entry).

(** An agreement whose only requirement has no [requiredTags]. *)
Definition malformed : Agreement.t :=
  {| Agreement.id := None; Agreement.name := None;
     Agreement.environments := Some ["prod"]; Agreement.shares := None;
     Agreement.parsedRequirements := Some
       [ {| Requirement.scope := Some "all"; Requirement.requiredTags := None;
            Requirement.severity := "critical";
            Requirement.reason := None |} ] |}.

End RoutesSpec.

(** ** Further sample data *)

Module MoreSamples.

(** The table [sales.default.orders] as a crawl of [env] records it. *)
Definition crawledOrders (env : string) (tags : gmap string string)
  : Asset.t :=
  {| Asset.id := Some (env +:+ ":sales.default.orders");
     Asset.assetType := "table";
     Asset.catalog_name := "sales"; Asset.schema_name := "default";
     Asset.name := "orders";
     Asset.fullName := Some "sales.default.orders";
     Asset.environmentId := env; Asset.properties := Some tags;
     Asset.tags := Some tags |}.

(** A remote with the fifty catalogs [c0 ... c49], each with one schema
    [s] that holds one table [t]. *)
Definition fiftyCatalogApi : Remote.t :=
  {| Remote.listCatalogs := Js.Ok Samples.fiftyCatalogs;
     Remote.listSchemas := fun _ => Js.Ok [Schema.Build "s"];
     Remote.listTables := fun _ _ =>
       Js.Ok [RemoteObject.Build "t" Js.Undefined None];
     Remote.listVolumes := fun _ _ => [];
     Remote.listFunctions := fun _ _ => [];
     Remote.listModels := fun _ _ => [];
     Remote.now := fun k => Z.of_nat k |}.

(** A table whose name holds a colon. *)
Definition oddlyNamed : Asset.t :=
  {| Asset.id := Some "prod:sales.default.orders:2024";
     Asset.assetType := "table";
     Asset.catalog_name := "sales"; Asset.schema_name := "default";
     Asset.name := "orders:2024";
     Asset.fullName := Some "sales.default.orders:2024";
     Asset.environmentId := "prod"; Asset.properties := None;
     Asset.tags := Some ∅ |}.

End MoreSamples.

(** ** [GET /catalog-compliance] (routes/validation.js) *)

Module CatalogEntry.
Record t : Type := Build {
  catalogName : string;
  environmentId : string;
  totalAssets : nat;
  compliantAssets : nat;
  nonCompliantAssets : nat;
  compliancePercentage : nat;
  isCompliant : bool;
  violations : nat;
  criticalViolations : nat;
}.
End CatalogEntry.

Module CatalogSummary.
Record t : Type := Build {
  totalCatalogs : nat;
  compliantCatalogs : nat;
  nonCompliantCatalogs : nat;
}.
End CatalogSummary.

Module CatalogCompliance.

(** The body passed to [res.json]; [catalogCompliance] is an object keyed
    by catalog name. *)
Record body : Type := Body {
  catalogCompliance : gmap string CatalogEntry.t;
  summary : CatalogSummary.t;
  lastUpdated : Z;
}.

Inductive response : Type :=
| Json (data : body)
| Status500 (error message : string).

(** The entry of [validationCache] under ["catalog_compliance"], the only
    key this handler reads or writes, and the environments for which
    [deltaSharing.getAllShareTables] has been called. *)
Record world : Type := World {
  cached : option (body * Z);
  fetched : list string;
}.

(** [cached && Date.now() - cached.timestamp < VALIDATION_CACHE_TTL] *)
Definition fresh (w : world) (now : Z) : option body :=
  match cached w with
  | Some (data, timestamp) =>
      if (now - timestamp <? Routes.VALIDATION_CACHE_TTL)%Z
      then Some data else None
  | None => None
  end.

(** Body of [assets.forEach(asset => ...)]; [assetsByCatalog] lists the own
    properties of the object in the order of their creation.  For a name
    that [Object.prototype] defines and the object does not,
    [assetsByCatalog[catalogName]] reads the inherited member: it is truthy,
    so no array is assigned, and it has no [push]. *)
Fixpoint group (assetsByCatalog : list (string * list Asset.t))
    (asset : Asset.t) : Js.result (list (string * list Asset.t)) :=
  match assetsByCatalog with
  | [] =>
      if Js.inherited (Asset.catalog_name asset)
      then Js.Throw (Js.TypeError
                       "assetsByCatalog[catalogName].push is not a function")
      else Js.Ok [(Asset.catalog_name asset, [asset])]
  | (catalogName, catalogAssets) :: rest =>
      if String.eqb catalogName (Asset.catalog_name asset)
      then Js.Ok ((catalogName, catalogAssets ++ [asset]) :: rest)
      else Js.bind (group rest asset)
             (fun rest' => Js.Ok ((catalogName, catalogAssets) :: rest'))
  end.

(** [const assetsByCatalog = {}; assets.forEach(...)] *)
Definition groupByCatalog (assets : list Asset.t)
  : Js.result (list (string * list Asset.t)) :=
  Js.forEach assets (fun asset assetsByCatalog => group assetsByCatalog asset)
             [].

Section Handler.

(** [Math.round((compliant / total) * 100)] on IEEE doubles. *)
Variable roundPercent : nat -> nat -> nat.

(** [getEnvironments()] (their ids) and [getAllAgreements()]. *)
Variable environments : list string.
Variable agreements : list Agreement.t.

(** How [await deltaSharing.getAllShareTables(env.id)] settles. *)
Variable getAllShareTables : string -> Js.result (list Asset.t).

(** The object assigned to [catalogCompliance[catalogName]]. *)
Definition entryOf (env catalogName : string)
    (results : list ValidationResult.t) : CatalogEntry.t :=
  let compliant := Routes.countCompliant results in
  let total := length results in
  let violations :=
    List.filter (fun r => negb (ValidationResult.compliant r)) results in
  {| CatalogEntry.catalogName := catalogName;
     CatalogEntry.environmentId := env;
     CatalogEntry.totalAssets := total;
     CatalogEntry.compliantAssets := compliant;
     CatalogEntry.nonCompliantAssets := total - compliant;
     CatalogEntry.compliancePercentage :=
       Routes.percentage roundPercent compliant total;
     CatalogEntry.isCompliant := (compliant =? total)%nat;
     CatalogEntry.violations := length violations;
     CatalogEntry.criticalViolations := Routes.countCritical violations |}.

(** [for (const [catalogName, catalogAssets] of entries)]: a throw of
    [validateAsset] leaves the loop, and the entries assigned so far
    stay. *)
Fixpoint validateCatalogs (env : string)
    (entries : list (string * list Asset.t))
    (catalogCompliance : gmap string CatalogEntry.t)
  : gmap string CatalogEntry.t :=
  match entries with
  | [] => catalogCompliance
  | (catalogName, catalogAssets) :: rest =>
      match Routes.validateEach agreements catalogAssets with
      | Js.Throw _ => catalogCompliance
      | Js.Ok results =>
          validateCatalogs env rest
            (<[catalogName := entryOf env catalogName results]>
               catalogCompliance)
      end
  end.

(** One iteration of [for (const env of environments) { try { ... }
    catch (error) { console.error(...) } }]: a throw of the fetch, of the
    grouping or of an evaluation ends the iteration.  The inner loop goes
    through [Object.entries(assetsByCatalog)]. *)
Definition environmentStep
    (acc : gmap string CatalogEntry.t * list string) (env : string)
  : gmap string CatalogEntry.t * list string :=
  let '(catalogCompliance, fetched) := acc in
  match getAllShareTables env with
  | Js.Throw _ => (catalogCompliance, fetched ++ [env])
  | Js.Ok assets =>
      match groupByCatalog assets with
      | Js.Throw _ => (catalogCompliance, fetched ++ [env])
      | Js.Ok assetsByCatalog =>
          (validateCatalogs env (Js.ownEntries assetsByCatalog)
                            catalogCompliance,
           fetched ++ [env])
      end
  end.

Definition summaryOf (catalogCompliance : gmap string CatalogEntry.t)
  : CatalogSummary.t :=
  let values := map snd (map_to_list catalogCompliance) in
  {| CatalogSummary.totalCatalogs := size catalogCompliance;
     CatalogSummary.compliantCatalogs :=
       length (List.filter CatalogEntry.isCompliant values);
     CatalogSummary.nonCompliantCatalogs :=
       length (List.filter (fun c => negb (CatalogEntry.isCompliant c))
                           values) |}.

Definition getCatalogCompliance (now built stored : Z) (w : world)
  : response * world :=
  match fresh w now with
  | Some data => (Json data, w)
  | None =>
      let '(catalogCompliance, fetched) :=
        fold_left environmentStep environments (∅, fetched w) in
      let response :=
        Body catalogCompliance (summaryOf catalogCompliance) built in
      (Json response, World (Some (response, stored)) fetched)
  end.

End Handler.

Definition initial : world := World None [].

End CatalogCompliance.

Module CatalogComplianceSpec.

(** The assets an environment contributes: none when its fetch fails. *)
Definition assetsOf (getAllShareTables : string -> Js.result (list Asset.t))
    (env : string) : list Asset.t :=
  match getAllShareTables env with
  | Js.Ok assets => assets
  | Js.Throw _ => []
  end.

(** Whether the catalog name of an asset is a member of
    [Object.prototype]. *)
Definition reservedCatalog (asset : Asset.t) : bool :=
  Js.inherited (Asset.catalog_name asset).

(** The assets an environment contributes to the catalog report: none when
    its fetch fails or when one of its assets is in a catalog named like a
    member of [Object.prototype]. *)
Definition contributed
    (getAllShareTables : string -> Js.result (list Asset.t))
    (env : string) : list Asset.t :=
  if existsb reservedCatalog (assetsOf getAllShareTables env)
  then []
  else assetsOf getAllShareTables env.

(** The assets of one catalog. *)
Definition inCatalog (catalogName : string) (assets : list Asset.t)
  : list Asset.t :=
  List.filter (fun a => String.eqb catalogName (Asset.catalog_name a)) assets.

(** What [assetsByCatalog] must hold after the assets [seen]. *)
Definition grouped (entries : list (string * list Asset.t))
    (seen : list Asset.t) : Prop :=
  NoDup (map fst entries)
  /\ (forall a, In a seen -> In (Asset.catalog_name a) (map fst entries))
  /\ (forall c l, In (c, l) entries -> l = inCatalog c seen /\ l <> [])
  /\ (forall c, In c (map fst entries) -> Js.inherited c = false).

(** What [catalogCompliance] holds once the environments [done] have been
    gone through and no evaluation has thrown. *)
Definition reported (roundPercent : nat -> nat -> nat)
    (agreements : list Agreement.t)
    (getAllShareTables : string -> Js.result (list Asset.t))
    (done : list string) (cc : gmap string CatalogEntry.t) : Prop :=
  let assets := contributed getAllShareTables in
  (forall c e,
     cc !! c = Some e ->
     exists pre env post results,
       done = pre ++ env :: post
       /\ (forall env', In env' post -> inCatalog c (assets env') = [])
       /\ inCatalog c (assets env) <> []
       /\ Routes.validateEach agreements (inCatalog c (assets env))
          = Js.Ok results
       /\ e = CatalogCompliance.entryOf roundPercent env c results)
  /\ (forall env a,
        In env done -> In a (assets env) ->
        is_Some (cc !! Asset.catalog_name a)).

End CatalogComplianceSpec.

(** ** Environments and clients (config/databricks.js,
       [createDatabricksClient]) *)

(** An entry of [config.environments]; [enabled] is the truthiness of the
    field. *)
Module EnvironmentConfig.
Record t : Type := Build {
  name : option string;
  workspaceUrl : option string;
  token : option string;
  enabled : bool;
}.
End EnvironmentConfig.

Module Environment.
Record t : Type := Build {
  id : string;
  name : option string;
  host : option string;
  token : option string;
  type : string;
  status : string;
}.
End Environment.

(** What [axios.create] is given. *)
Module Client.
Record t : Type := Build {
  baseURL : option string;
  authorization : string;
}.
End Client.

Module Config.

(** [new Error(message)]: an error without [response]. *)
Definition Error (message : string) : Js.error := Js.HttpError None message.

Section Process.

(** [process.env.DATABRICKS_HOST], [process.env.DATABRICKS_APP_NAME] and
    [Object.entries(config.environments)]. *)
Variable DATABRICKS_HOST : option string.
Variable DATABRICKS_APP_NAME : option string.
Variable environments : list (string * EnvironmentConfig.t).

Definition getDatabricksHost : option string :=
  match DATABRICKS_HOST with
  | Some host =>
      if Js.truthy (Some host)
      then Some (if String.prefix "https://" host then host
                 else "https://" +:+ host)
      else None
  | None => None
  end.

(** The environment of the workspace the app runs in. *)
Definition current (databricksHost : string) : Environment.t :=
  {| Environment.id := "current";
     Environment.name := Js.or DATABRICKS_APP_NAME (Some "Current Workspace");
     Environment.host := Some databricksHost;
     Environment.token := None;
     Environment.type := "databricks";
     Environment.status := "connected" |}.

(** The environment built from an entry of the config file. *)
Definition configured (id : string) (env : EnvironmentConfig.t)
  : Environment.t :=
  {| Environment.id := id;
     Environment.name := EnvironmentConfig.name env;
     Environment.host := EnvironmentConfig.workspaceUrl env;
     Environment.token := Js.or (EnvironmentConfig.token env) None;
     Environment.type := "databricks";
     Environment.status := "connected" |}.

(** Body of [Object.entries(config.environments).forEach(...)]. *)
Definition pushConfigured (acc : list Environment.t)
    (entry : string * EnvironmentConfig.t) : list Environment.t :=
  let '(id, env) := entry in
  if EnvironmentConfig.enabled env
     && Js.truthy (EnvironmentConfig.workspaceUrl env)
  then acc ++ [configured id env]
  else acc.

Definition getEnvironments : list Environment.t :=
  fold_left pushConfigured environments
    match getDatabricksHost with
    | Some databricksHost => [current databricksHost]
    | None => []
    end.

(** [config.environments[envId]] *)
Definition entryOf (envId : string) : option EnvironmentConfig.t :=
  snd <$> List.find (fun entry => String.eqb (fst entry) envId) environments.

Definition getEnvironment (envId : string) : option Environment.t :=
  let fromConfig :=
    match entryOf envId with
    | None => None
    | Some env =>
        if negb (EnvironmentConfig.enabled env) then None
        else Some (configured envId env)
    end in
  match getDatabricksHost with
  | Some databricksHost =>
      if String.eqb envId "current" then Some (current databricksHost)
      else fromConfig
  | None => fromConfig
  end.

(** The module-level [currentUserToken]. *)
Variable currentUserToken : option string.

Definition createDatabricksClient (envId : string)
    (userToken : option string) : Js.result Client.t :=
  match getEnvironment envId with
  | None =>
      Js.Throw (Error ("Environment " +:+ envId
                       +:+ " not found or not enabled"))
  | Some env =>
      let token :=
        Js.or userToken (Js.or currentUserToken (Environment.token env)) in
      if negb (Js.truthy token)
      then Js.Throw (Error "No authentication token available. Either configure a PAT in databricks-config.json or access via Databricks Apps.")
      else Js.Ok {| Client.baseURL := Environment.host env;
                    Client.authorization :=
                      "Bearer " +:+ default EmptyString token |}
  end.

End Process.

End Config.

(** ** [unityCatalog.listCatalogs] and [unityCatalog.listSchemas] *)

Module Listing.

Local Open Scope Q_scope.

Definition CACHE_TTL : Q := inject_Z Cache.CACHE_TTL.

(** The entries of [cache] under the keys [catalogs:...] and
    [schemas:...], each [{ data, timestamp }], and the state of the
    transport, whose clock is what [Date.now()] reads. *)
Record world : Type := World {
  catalogs : gmap string (list Catalog.t * Q);
  schemas : gmap string (list Schema.t * Q);
  transport : Transport.world;
}.

(** [cached && Date.now() - cached.timestamp < CACHE_TTL] *)
Definition fresh {A} (cache : gmap string (A * Q)) (cacheKey : string)
    (now : Q) : option A :=
  match cache !! cacheKey with
  | Some (data, timestamp) =>
      if Qlt_le_dec (now - timestamp) CACHE_TTL then Some data else None
  | None => None
  end.

(** [!catalog.name.startsWith('__') && !catalog.name.startsWith('system')] *)
Definition visibleCatalog (catalog : Catalog.t) : bool :=
  negb (String.prefix "__" (Catalog.name catalog))
  && negb (String.prefix "system" (Catalog.name catalog)).

(** [!schema.name.startsWith('__') &&
     !schema.name.startsWith('information_schema')] *)
Definition visibleSchema (schema : Schema.t) : bool :=
  negb (String.prefix "__" (Schema.name schema))
  && negb (String.prefix "information_schema" (Schema.name schema)).

Section Calls.

(** How [createDatabricksClient(envId, userToken)] returns. *)
Variable createDatabricksClient :
  string -> option string -> Js.result Client.t.

(** [client.get('/api/2.1/unity-catalog/catalogs')] at its [k]-th
    invocation: how long it takes and [response.data.catalogs]. *)
Variable getCatalogs :
  Client.t -> nat -> Q * Js.result (option (list Catalog.t)).

(** [client.get('/api/2.1/unity-catalog/schemas', { params })] and
    [response.data.schemas]. *)
Variable getSchemas :
  Client.t -> string -> nat -> Q * Js.result (option (list Schema.t)).

Definition listCatalogs (envId : string) (userToken : option string)
    (w : world) : Js.result (list Catalog.t) * world :=
  let cacheKey := "catalogs:" +:+ envId in
  match fresh (catalogs w) cacheKey (Transport.clock (transport w)) with
  | Some data => (Js.Ok data, w)
  | None =>
      match createDatabricksClient envId userToken with
      | Js.Throw e => (Js.Throw e, w)
      | Js.Ok client =>
          let '(response, t) :=
            Transport.rateLimitedRequest (getCatalogs client)
              Transport.DEFAULT_RETRIES (transport w) in
          match response with
          | Js.Throw e => (Js.Throw e, World (catalogs w) (schemas w) t)
          | Js.Ok found =>
              let data := List.filter visibleCatalog (default [] found) in
              (Js.Ok data,
               World (<[cacheKey := (data, Transport.clock t)]> (catalogs w))
                     (schemas w) t)
          end
      end
  end.

Definition listSchemas (envId catalogName : string)
    (userToken : option string) (w : world)
  : Js.result (list Schema.t) * world :=
  let cacheKey := "schemas:" +:+ envId +:+ ":" +:+ catalogName in
  match fresh (schemas w) cacheKey (Transport.clock (transport w)) with
  | Some data => (Js.Ok data, w)
  | None =>
      match createDatabricksClient envId userToken with
      | Js.Throw e => (Js.Throw e, w)
      | Js.Ok client =>
          let '(response, t) :=
            Transport.rateLimitedRequest (getSchemas client catalogName)
              Transport.DEFAULT_RETRIES (transport w) in
          match response with
          | Js.Throw e => (Js.Throw e, World (catalogs w) (schemas w) t)
          | Js.Ok found =>
              let data := List.filter visibleSchema (default [] found) in
              (Js.Ok data,
               World (catalogs w)
                     (<[cacheKey := (data, Transport.clock t)]> (schemas w))
                     t)
          end
      end
  end.

End Calls.

Definition initial : world := World ∅ ∅ Transport.initial.

End Listing.

Module ListingSpec.

(** Every cached listing has gone through its filter. *)
Definition clean (w : Listing.world) : Prop :=
  (forall key data timestamp,
     Listing.catalogs w !! key = Some (data, timestamp) ->
     Forall (fun c => Listing.visibleCatalog c = true) data)
  /\ (forall key data timestamp,
        Listing.schemas w !! key = Some (data, timestamp) ->
        Forall (fun s => Listing.visibleSchema s = true) data).

(** The listings a crawl of [envId] sees are answers of [listCatalogs] and
    [listSchemas] in states whose cache is clean. *)
Definition answers
    (createDatabricksClient : string -> option string -> Js.result Client.t)
    (getCatalogs : Client.t -> nat -> Q * Js.result (option (list Catalog.t)))
    (getSchemas :
       Client.t -> string -> nat -> Q * Js.result (option (list Schema.t)))
    (envId : string) (userToken : option string) (api : Remote.t) : Prop :=
  (exists w,
      clean w
      /\ Remote.listCatalogs api
         = fst (Listing.listCatalogs createDatabricksClient getCatalogs
                                     envId userToken w))
  /\ (forall catalogName,
        exists w,
          clean w
          /\ Remote.listSchemas api catalogName
             = fst (Listing.listSchemas createDatabricksClient getSchemas
                                        envId catalogName userToken w)).

(** A remote API that lists the catalogs [main], [system] and
    [systems_eu], each with the schemas [default] and
    [information_schema]. *)
Definition workspace : Client.t -> nat -> Q * Js.result (option (list Catalog.t)) :=
  fun _ _ => (10%Q, Js.Ok (Some [Catalog.Build "main" None;
                                  Catalog.Build "system" None;
                                  Catalog.Build "systems_eu" None])).

Definition workspaceSchemas
  : Client.t -> string -> nat -> Q * Js.result (option (list Schema.t)) :=
  fun _ _ _ => (10%Q, Js.Ok (Some [Schema.Build "default";
                                    Schema.Build "information_schema"])).

Definition anyClient : string -> option string -> Js.result Client.t :=
  fun _ _ => Js.Ok (Client.Build (Some "https://example.test") "Bearer t").

(** The remote API as a crawl of ["prod"] sees it through the listing
    calls, with one table [t] in every schema. *)
Definition seenThroughListing : Remote.t :=
  {| Remote.listCatalogs :=
       fst (Listing.listCatalogs anyClient workspace "prod" None
                                 Listing.initial);
     Remote.listSchemas := fun c =>
       fst (Listing.listSchemas anyClient workspaceSchemas "prod" c None
                                Listing.initial);
     Remote.listTables := fun _ _ =>
       Js.Ok [RemoteObject.Build "t" Js.Undefined None];
     Remote.listVolumes := fun _ _ => [];
     Remote.listFunctions := fun _ _ => [];
     Remote.listModels := fun _ _ => [];
     Remote.now := fun k => Z.of_nat k |}.

(** A config file with one enabled and one disabled environment. *)
Definition configFile : list (string * EnvironmentConfig.t) :=
  [("prod", EnvironmentConfig.Build (Some "Production")
              (Some "https://prod.example.test") (Some "pat") true);
   ("dev", EnvironmentConfig.Build (Some "Development")
             (Some "https://dev.example.test") None false)].

End ListingSpec.

(** * Proofs *)

(** ** The evaluator *)

Section EvaluatorFacts.

Import Evaluator EvaluatorSpec.

Variable asset : Asset.t.

Lemma checkTag_app agreement req violations entry :
  checkTag asset agreement req violations entry
  = violations ++ tagViolations asset agreement req entry.
Proof.
  destruct entry as [tagKey tagValue]. unfold checkTag, tagViolations.
  destruct (assetTagValue asset tagKey) as [[observed|name]|]; simpl;
    [|done|done].
  destruct (String.eqb observed EmptyString); simpl; [done|].
  destruct (String.eqb observed tagValue); simpl; [by rewrite app_nil_r|done].
Qed.

Lemma fold_checkTag agreement req entries violations :
  fold_left (checkTag asset agreement req) entries violations
  = violations ++ flat_map (tagViolations asset agreement req) entries.
Proof.
  revert violations.
  induction entries as [|entry entries IH]; intros violations; simpl.
  - by rewrite app_nil_r.
  - rewrite IH, checkTag_app. by rewrite <- app_assoc.
Qed.

Lemma firstError_cons {A} (errorOf : A -> option Js.error) x xs :
  firstError errorOf (x :: xs)
  = match errorOf x with
    | Some e => Some e
    | None => firstError errorOf xs
    end.
Proof. unfold firstError. simpl. by destruct (errorOf x). Qed.

Lemma firstError_In {A} (errorOf : A -> option Js.error) xs e :
  firstError errorOf xs = Some e ->
  exists x, In x xs /\ errorOf x = Some e.
Proof.
  induction xs as [|x xs IH]; [done|]. rewrite firstError_cons.
  destruct (errorOf x) as [e'|] eqn:Hx.
  - intros [= <-]. exists x. split; [by left|done].
  - intros (x' & Hin & Hx')%IH. exists x'. split; [by right|done].
Qed.

Lemma firstError_None {A} (errorOf : A -> option Js.error) xs :
  firstError errorOf xs = None <->
  forall x, In x xs -> errorOf x = None.
Proof.
  induction xs as [|x xs IH]; [by split|]. rewrite firstError_cons. split.
  - destruct (errorOf x) eqn:Hx; [done|]. intros Hnone x' [<-|Hin]; [done|].
    by apply IH.
  - intros Hall. rewrite (Hall x) by (by left). apply IH.
    intros x' Hin. apply Hall. by right.
Qed.

(** A loop whose body either throws or appends stops at the first element
    that throws, and otherwise appends every contribution in order. *)
Lemma forEach_first {A} (xs : list A)
    (body : A -> list Violation.t -> Js.result (list Violation.t))
    (errorOf : A -> option Js.error) (out : A -> list Violation.t) :
  (forall x violations,
      body x violations
      = match errorOf x with
        | Some e => Js.Throw e
        | None => Js.Ok (violations ++ out x)
        end) ->
  forall violations,
    Js.forEach xs body violations
    = match firstError errorOf xs with
      | Some e => Js.Throw e
      | None => Js.Ok (violations ++ flat_map out xs)
      end.
Proof.
  intros Hbody. induction xs as [|x xs IH]; intros violations.
  - simpl. by rewrite app_nil_r.
  - rewrite firstError_cons. cbn [Js.forEach]. rewrite Hbody.
    destruct (errorOf x) as [e|]; [done|]. cbn [Js.bind]. rewrite IH.
    destruct (firstError errorOf xs); [done|].
    simpl. by rewrite <- app_assoc.
Qed.

Lemma flat_map_if {A B} (p : A -> bool) (f : A -> list B) xs :
  flat_map (fun x => if p x then f x else []) xs
  = flat_map f (List.filter p xs).
Proof.
  induction xs as [|x xs IH]; simpl; [done|].
  destruct (p x); simpl; by rewrite IH.
Qed.

Lemma checkRequirement_spec agreement req violations :
  checkRequirement asset agreement req violations
  = match requirementError asset req with
    | Some e => Js.Throw e
    | None =>
        Js.Ok (violations
                 ++ (if inScope asset req
                     then requirementViolations asset agreement req else []))
    end.
Proof.
  unfold checkRequirement, requirementError, inScope, requirementViolations.
  destruct (scopeMatches req asset) as [[|]|e]; simpl.
  - destruct (Requirement.requiredTags req) as [entries|]; [|done].
    simpl. by rewrite fold_checkTag.
  - by rewrite app_nil_r.
  - done.
Qed.

Lemma checkAgreement_spec agreement violations :
  checkAgreement asset agreement violations
  = match agreementError asset agreement with
    | Some e => Js.Throw e
    | None =>
        Js.Ok (violations
                 ++ (if agreementApplies agreement asset
                     then agreementViolations asset agreement else []))
    end.
Proof.
  unfold checkAgreement, agreementError, agreementViolations, matching.
  destruct (agreementApplies agreement asset); simpl;
    [|by rewrite app_nil_r].
  destruct (Agreement.parsedRequirements agreement) as [reqs|]; simpl.
  - rewrite (forEach_first reqs _ (requirementError asset)
               (fun req => if inScope asset req
                           then requirementViolations asset agreement req
                           else []))
      by (intros; apply checkRequirement_spec).
    by rewrite flat_map_if.
  - by rewrite app_nil_r.
Qed.

Lemma relevantAgreements_spec agreements :
  relevantAgreements asset agreements
  = match firstError environmentsError agreements with
    | Some e => Js.Throw e
    | None => Js.Ok (List.filter (listed asset) agreements)
    end.
Proof.
  unfold relevantAgreements.
  induction agreements as [|agreement agreements IH]; [done|].
  rewrite firstError_cons. cbn [Js.filter List.filter]. rewrite IH. clear IH.
  destruct (Agreement.environments agreement) as [environments|] eqn:Henvs.
  - assert (environmentsError agreement = None) as ->
      by (unfold environmentsError; by rewrite Henvs).
    assert (listed asset agreement
            = Js.array_includes environments (Asset.environmentId asset))
      as -> by (unfold listed; by rewrite Henvs).
    unfold listsEnvironment. rewrite Henvs. cbn [Js.bind].
    destruct (firstError environmentsError agreements); [reflexivity|].
    cbn [Js.bind]. by destruct (Js.array_includes _ _).
  - assert (environmentsError agreement = Some (Js.cannotRead "includes"))
      as -> by (unfold environmentsError; by rewrite Henvs).
    unfold listsEnvironment. by rewrite Henvs.
Qed.

Lemma filter_listed_covers agreements :
  List.filter (covers asset) agreements
  = List.filter (fun agreement => agreementApplies agreement asset)
                (List.filter (listed asset) agreements).
Proof.
  induction agreements as [|agreement agreements IH]; simpl; [done|].
  unfold covers at 1, listed at 1.
  destruct (Agreement.environments agreement) as [environments|]; [|done].
  destruct (Js.array_includes _ _); simpl; [|done].
  destruct (agreementApplies agreement asset); by rewrite IH.
Qed.

Lemma firstError_applies xs :
  firstError (agreementError asset) xs
  = firstError (agreementError asset)
      (List.filter (fun agreement => agreementApplies agreement asset) xs).
Proof.
  induction xs as [|agreement xs IH]; [done|]. simpl.
  destruct (agreementApplies agreement asset) eqn:Happlies.
  - rewrite !firstError_cons. by rewrite IH.
  - rewrite firstError_cons. unfold agreementError at 1.
    by rewrite Happlies.
Qed.

(** [validateAsset] either raises the first error met in evaluation
    order or returns the comprehension. *)
Lemma validateAsset_spec agreements :
  validateAsset asset agreements
  = match evaluationError asset agreements with
    | Some e => Js.Throw e
    | None => Js.Ok (resultOf asset (expectedViolations asset agreements))
    end.
Proof.
  unfold validateAsset, evaluationError. rewrite relevantAgreements_spec.
  destruct (firstError environmentsError agreements); [done|].
  unfold mbind, result_bind. cbn [Js.bind].
  rewrite (forEach_first _ _ (agreementError asset)
             (fun agreement => if agreementApplies agreement asset
                               then agreementViolations asset agreement
                               else []))
    by (intros; apply checkAgreement_spec).
  rewrite flat_map_if, <- filter_listed_covers.
  rewrite (firstError_applies (List.filter (listed asset) agreements)).
  rewrite <- filter_listed_covers.
  by destruct (firstError (agreementError asset) _).
Qed.

Lemma array_includes_In xs x : In x xs -> Js.array_includes xs x = true.
Proof.
  intros Hin. unfold Js.array_includes. apply existsb_exists.
  exists x. split; [done|apply String.eqb_refl].
Qed.

Lemma requirementError_TypeError req e :
  requirementError asset req = Some e -> exists message, e = Js.TypeError message.
Proof.
  unfold requirementError, scopeMatches.
  destruct (Requirement.scope req) as [scope|]; [|intros [= <-]; by eexists].
  destruct (_ || _); [|done].
  destruct (Requirement.requiredTags req); [done|].
  intros [= <-]. by eexists.
Qed.

Lemma evaluationError_TypeError agreements e :
  evaluationError asset agreements = Some e ->
  exists message, e = Js.TypeError message.
Proof.
  unfold evaluationError.
  destruct (firstError environmentsError agreements) as [e'|] eqn:Henv.
  - intros [= <-]. apply firstError_In in Henv as (agreement & _ & Henv).
    unfold environmentsError in Henv.
    destruct (Agreement.environments agreement); [done|].
    injection Henv as <-. by eexists.
  - intros (agreement & _ & Herr)%firstError_In.
    unfold agreementError in Herr.
    destruct (agreementApplies agreement asset); [|done].
    apply firstError_In in Herr as (req & _ & Hreq).
    by apply (requirementError_TypeError req).
Qed.

(** The evaluation succeeds exactly when every agreement carries
    [environments] and every requirement that is evaluated for the asset
    carries a [scope] and, if the scope matches, [requiredTags]. *)
Lemma evaluationError_None agreements :
  evaluationError asset agreements = None <->
  (forall agreement,
      In agreement agreements -> is_Some (Agreement.environments agreement))
  /\ (forall agreement req,
        In agreement agreements ->
        covers asset agreement = true ->
        In req (default [] (Agreement.parsedRequirements agreement)) ->
        is_Some (Requirement.scope req)
        /\ (inScope asset req = true ->
            is_Some (Requirement.requiredTags req))).
Proof.
  unfold evaluationError. split.
  - destruct (firstError environmentsError agreements) eqn:Henv; [done|].
    intros Hreqs. split.
    + intros agreement Hin.
      pose proof (proj1 (firstError_None _ _) Henv agreement Hin) as He.
      unfold environmentsError in He.
      by destruct (Agreement.environments agreement).
    + intros agreement req Hin Hcovers Hreq.
      pose proof (proj1 (firstError_None _ _) Hreqs agreement) as Hag.
      rewrite filter_In in Hag. specialize (Hag (conj Hin Hcovers)).
      unfold agreementError in Hag. unfold covers in Hcovers.
      destruct (Agreement.environments agreement); [|done].
      apply andb_prop in Hcovers as [_ Happlies]. rewrite Happlies in Hag.
      pose proof (proj1 (firstError_None _ _) Hag req Hreq) as Hr.
      unfold requirementError, inScope in *.
      unfold scopeMatches in *.
      destruct (Requirement.scope req) as [scope|]; [|done].
      split; [done|]. intros Hscope. rewrite Hscope in Hr.
      by destruct (Requirement.requiredTags req).
  - intros [Henvs Hreqs].
    assert (Henv : firstError environmentsError agreements = None).
    { apply firstError_None. intros agreement Hin.
      unfold environmentsError. by destruct (Henvs agreement Hin) as [? ->]. }
    rewrite Henv. apply firstError_None.
    intros agreement [Hin Hcovers]%filter_In. unfold agreementError.
    destruct (agreementApplies agreement asset); [|done].
    apply firstError_None. intros req Hreq.
    destruct (Hreqs agreement req Hin Hcovers Hreq) as [[scope Hscope] Htags].
    unfold requirementError, inScope in *. unfold scopeMatches in *.
    rewrite Hscope in *. destruct (_ || _); [|done].
    by destruct (Htags eq_refl) as [? ->].
Qed.

Lemma wellFormed_evaluationError agreements :
  wellFormed agreements = true -> evaluationError asset agreements = None.
Proof.
  intros Hwf. apply evaluationError_None.
  pose proof (proj1 (forallb_forall _ _) Hwf) as Hall. split.
  - intros agreement Hin. apply Hall in Hin as [Henv _]%andb_prop.
    by apply bool_decide_eq_true_1 in Henv.
  - intros agreement req Hin _ Hreq. apply Hall in Hin as [_ Hreqs]%andb_prop.
    pose proof (proj1 (forallb_forall _ _) Hreqs req Hreq) as Hr.
    apply andb_prop in Hr as [Hscope Htags].
    apply bool_decide_eq_true_1 in Hscope, Htags. by split.
Qed.

(** Where a violation of the comprehension comes from. *)
Lemma expectedViolations_In agreements v :
  In v (expectedViolations asset agreements) ->
  exists agreement req tagKey tagValue,
    In v (tagViolations asset agreement req (tagKey, tagValue))
    /\ concerns tagKey tagValue v.
Proof.
  unfold expectedViolations, agreementViolations, requirementViolations.
  intros (agreement & _ & Hv)%in_flat_map.
  apply in_flat_map in Hv as (req & _ & Hv).
  apply in_flat_map in Hv as ([tagKey tagValue] & _ & Hv).
  exists agreement, req, tagKey, tagValue. split; [done|].
  unfold tagViolations in Hv.
  destruct (assetTagValue asset tagKey) as [[observed|name]|].
  - destruct (String.eqb observed EmptyString);
      [by destruct Hv as [<-|[]]|].
    destruct (String.eqb observed tagValue); [done|].
    by destruct Hv as [<-|[]].
  - by destruct Hv as [<-|[]].
  - by destruct Hv as [<-|[]].
Qed.

(** A contribution of a covering agreement is part of the comprehension. *)
Lemma expectedViolations_incl agreements agreement reqs req entries entry :
  In agreement agreements ->
  covers asset agreement = true ->
  Agreement.parsedRequirements agreement = Some reqs ->
  In req reqs ->
  inScope asset req = true ->
  Requirement.requiredTags req = Some entries ->
  In entry entries ->
  incl (tagViolations asset agreement req entry)
       (expectedViolations asset agreements).
Proof.
  intros Hin Hcovers Hreqs Hreq Hscope Hentries Hentry v Hv.
  unfold expectedViolations. apply in_flat_map. exists agreement. split.
  - apply filter_In. by split.
  - apply in_flat_map. exists req. split.
    + apply filter_In. rewrite Hreqs. by split.
    + unfold requirementViolations. rewrite Hentries.
      apply in_flat_map. by exists entry.
Qed.

(** When the asset holds the expected value under the key, no violation
    of the comprehension concerns that key and value. *)
Lemma expectedViolations_equal agreements tagKey tagValue v :
  assetTagValue asset tagKey = Some (Js.Str tagValue) ->
  tagValue <> EmptyString ->
  In v (expectedViolations asset agreements) ->
  ~ concerns tagKey tagValue v.
Proof.
  intros Hvalue Hne Hv [Hkey Hexpected].
  apply expectedViolations_In in Hv
    as (agreement & req & tagKey' & tagValue' & Hv & Hkey' & Hexpected').
  assert (tagKey' = tagKey) as -> by congruence.
  assert (tagValue' = tagValue) as -> by congruence.
  unfold tagViolations in Hv. rewrite Hvalue in Hv.
  rewrite (proj2 (String.eqb_neq _ _) Hne), String.eqb_refl in Hv. done.
Qed.

Lemma assetTagValue_withTags tags' tagKey :
  (Js.truthyValue (Asset.properties asset ≫= (fun obj => Js.get obj tagKey))
   = true
   \/ tags' ≫= (fun obj => Js.get obj tagKey)
      = Asset.tags asset ≫= (fun obj => Js.get obj tagKey)) ->
  assetTagValue (withTags tags' asset) tagKey = assetTagValue asset tagKey.
Proof.
  unfold assetTagValue, Js.orValue. simpl. intros [Htruthy | Hsame].
  - by rewrite Htruthy.
  - by rewrite Hsame.
Qed.

Lemma expectedViolations_withTags tags' agreements :
  (forall tagKey, assetTagValue (withTags tags' asset) tagKey
                  = assetTagValue asset tagKey) ->
  expectedViolations (withTags tags' asset) agreements
  = expectedViolations asset agreements.
Proof.
  intros Hsame. unfold expectedViolations.
  change (covers (withTags tags' asset)) with (covers asset).
  apply flat_map_ext. intros agreement. unfold agreementViolations.
  change (matching (withTags tags' asset) agreement)
    with (matching asset agreement).
  apply flat_map_ext. intros req. unfold requirementViolations.
  apply flat_map_ext. intros [tagKey tagValue]. unfold tagViolations.
  by rewrite Hsame.
Qed.

End EvaluatorFacts.

Section EvaluatorCases.

Import Evaluator EvaluatorSpec.

(** What a call that returns tells about one required tag of a requirement
    that is evaluated for the asset. *)
Lemma evaluated_tag asset agreements r agreement environments reqs req
    entries tagKey tagValue :
  validateAsset asset agreements = Js.Ok r ->
  In agreement agreements ->
  Agreement.environments agreement = Some environments ->
  Js.array_includes environments (Asset.environmentId asset) = true ->
  agreementApplies agreement asset = true ->
  Agreement.parsedRequirements agreement = Some reqs ->
  In req reqs ->
  scopeMatches req asset = Js.Ok true ->
  Requirement.requiredTags req = Some entries ->
  In (tagKey, tagValue) entries ->
  ValidationResult.violations r = expectedViolations asset agreements
  /\ ValidationResult.compliant r
     = (length (ValidationResult.violations r) =? 0)%nat
  /\ incl (tagViolations asset agreement req (tagKey, tagValue))
          (ValidationResult.violations r).
Proof.
  intros Hok Hin Henvs Henv Happlies Hreqs Hreq Hscope Hentries Hentry.
  rewrite validateAsset_spec in Hok.
  destruct (evaluationError asset agreements); [discriminate|].
  injection Hok as <-. split; [reflexivity|]. split; [reflexivity|].
  unfold resultOf. cbn [ValidationResult.violations].
  apply (expectedViolations_incl asset agreements agreement reqs req entries);
    try done.
  - unfold covers. by rewrite Henvs, Henv, Happlies.
  - unfold inScope. by rewrite Hscope.
Qed.

Lemma not_compliant r v :
  ValidationResult.compliant r
  = (length (ValidationResult.violations r) =? 0)%nat ->
  In v (ValidationResult.violations r) ->
  ValidationResult.compliant r = false.
Proof.
  intros -> Hin. by destruct (ValidationResult.violations r).
Qed.

End EvaluatorCases.

Section EvaluatorClaims.

Import Evaluator EvaluatorSpec.

(** C1.  For the asset [{catalog_name: "sales", name: "orders", tags:
    {PII: "true"}}] in an environment covered by the single agreement
    [{shares: ["sales"], parsedRequirements: [{scope: "all",
    requiredTags: {PII: "true", retention_years: "7"}, severity:
    "critical"}]}], [validateAsset] returns exactly one violation, for
    [retention_years] with expected value ["7"], actual value [null] and
    severity ["critical"], and [compliant = false]; with the shares
    replaced by [["marketing"]] it returns no violation and
    [compliant = true]. *)
Theorem validateAsset_sales_orders (env : string) (envs : list string) :
  In env envs ->
  (exists r,
      validateAsset (Samples.orders env {[ "PII" := "true" ]})
        [Samples.agreement envs ["sales"] Samples.piiAndRetention] = Js.Ok r
      /\ ValidationResult.violations r = [Samples.missingRetention]
      /\ ValidationResult.compliant r = false)
  /\ (exists r,
      validateAsset (Samples.orders env {[ "PII" := "true" ]})
        [Samples.agreement envs ["marketing"] Samples.piiAndRetention] = Js.Ok r
      /\ ValidationResult.violations r = []
      /\ ValidationResult.compliant r = true).
Proof.
  intros Hin. apply (array_includes_In envs env) in Hin.
  split; eexists; (split; [rewrite validateAsset_spec|]).
  - unfold evaluationError, covers. simpl. rewrite Hin. reflexivity.
  - unfold expectedViolations, covers. simpl. rewrite Hin. vm_compute. done.
  - unfold evaluationError, covers. simpl. rewrite Hin. reflexivity.
  - unfold expectedViolations, covers. simpl. rewrite Hin. vm_compute. done.
Qed.

Lemma validateAsset_sales_orders_witness :
  In "prod" ["prod"; "staging"]
  /\ exists r,
      validateAsset (Samples.orders "prod" {[ "PII" := "true" ]})
        [Samples.agreement ["prod"; "staging"] ["sales"]
           Samples.piiAndRetention] = Js.Ok r
      /\ ValidationResult.violations r = [Samples.missingRetention].
Proof.
  assert (Hin : In "prod" ["prod"; "staging"]) by (simpl; auto).
  split; [exact Hin|].
  destruct (validateAsset_sales_orders "prod" ["prod"; "staging"] Hin)
    as [(r & Hr & Hv & _) _].
  exists r. split; assumption.
Defined.

(** C5 as stated fails when a tag is present but empty: the code takes
    the missing-tag branch and reports [actualValue = null], not the
    observed value. *)
Lemma empty_tag_reported_as_missing :
  let asset := Samples.orders "prod" {[ "PII" := EmptyString ]} in
  let req := Samples.requirement (Some [("PII", "true")]) in
  let agreement := Samples.agreement ["prod"] ["sales"] (Some [("PII", "true")]) in
  Asset.tags asset ≫= (.!! "PII") = Some EmptyString
  /\ EmptyString <> "true"
  /\ exists r,
      validateAsset asset [agreement] = Js.Ok r
      /\ ValidationResult.violations r
         = [mkViolation agreement req "PII" "true" None]
      /\ ~ In (mkViolation agreement req "PII" "true"
                           (Some (Js.Str EmptyString)))
              (ValidationResult.violations r).
Proof.
  simpl. split; [done|]. split; [done|].
  eexists. split; [vm_compute; reflexivity|]. split; [reflexivity|].
  simpl. intros [Heq | []]. discriminate Heq.
Qed.

(** C5, amended.  For every asset, applicable agreement, matching
    requirement and required tag key, with the asset's value for the key
    read as [properties[key] || tags[key]] on plain objects: if that value
    is absent or the empty string, [validateAsset] emits a violation with
    [actualValue = null]; if it is a non-empty string that differs from
    the expected value, it emits a violation whose [actualValue] is the
    observed string; if the key is no own key and names a member of
    [Object.prototype], the lookup gives that member and it emits a
    violation whose [actualValue] is the member; if the value is a
    non-empty string equal to the expected value, no violation is
    reported for that key and expected value.  The violations returned
    are exactly these contributions, in input order. *)
Theorem validateAsset_tag_cases (asset : Asset.t)
    (agreements : list Agreement.t) (r : ValidationResult.t)
    (agreement : Agreement.t) (environments : list string)
    (reqs : list Requirement.t) (req : Requirement.t)
    (entries : list (string * string)) (tagKey tagValue : string) :
  validateAsset asset agreements = Js.Ok r ->
  In agreement agreements ->
  Agreement.environments agreement = Some environments ->
  Js.array_includes environments (Asset.environmentId asset) = true ->
  agreementApplies agreement asset = true ->
  Agreement.parsedRequirements agreement = Some reqs ->
  In req reqs ->
  scopeMatches req asset = Js.Ok true ->
  Requirement.requiredTags req = Some entries ->
  In (tagKey, tagValue) entries ->
  ValidationResult.violations r = expectedViolations asset agreements
  /\ match assetTagValue asset tagKey with
     | None =>
         In (mkViolation agreement req tagKey tagValue None)
            (ValidationResult.violations r)
         /\ ValidationResult.compliant r = false
     | Some (Js.Str observed) =>
         if String.eqb observed EmptyString then
           In (mkViolation agreement req tagKey tagValue None)
              (ValidationResult.violations r)
           /\ ValidationResult.compliant r = false
         else if String.eqb observed tagValue then
           forall v, In v (ValidationResult.violations r) ->
                     ~ concerns tagKey tagValue v
         else
           In (mkViolation agreement req tagKey tagValue
                           (Some (Js.Str observed)))
              (ValidationResult.violations r)
           /\ ValidationResult.compliant r = false
     | Some (Js.Member name) =>
         name = tagKey
         /\ In (mkViolation agreement req tagKey tagValue
                            (Some (Js.Member name)))
               (ValidationResult.violations r)
         /\ ValidationResult.compliant r = false
     end.
Proof.
  intros Hok Hin Henvs Henv Happlies Hreqs Hreq Hscope Hentries Hentry.
  destruct (evaluated_tag _ _ _ _ _ _ _ _ _ _ Hok Hin Henvs Henv Happlies
              Hreqs Hreq Hscope Hentries Hentry) as (Hall & Hflag & Hincl).
  split; [done|]. unfold tagViolations in Hincl.
  destruct (assetTagValue asset tagKey) as [[observed|name]|] eqn:Hvalue.
  - destruct (String.eqb_spec observed EmptyString) as [->|Hne].
    + pose proof (Hincl _ (or_introl eq_refl)) as Hv.
      split; [done|]. by apply (not_compliant r _ Hflag Hv).
    + destruct (String.eqb_spec observed tagValue) as [->|Hdiff].
      * intros v Hv. rewrite Hall in Hv.
        by apply (expectedViolations_equal asset agreements tagKey tagValue).
      * pose proof (Hincl _ (or_introl eq_refl)) as Hv.
        split; [done|]. by apply (not_compliant r _ Hflag Hv).
  - pose proof (Hincl _ (or_introl eq_refl)) as Hv. split.
    + unfold assetTagValue, Js.orValue, Js.get in Hvalue.
      destruct (Asset.properties asset) as [properties|],
        (Asset.tags asset) as [tags|]; simpl in Hvalue;
        repeat (match type of Hvalue with
                | context [?m !! tagKey] => destruct (m !! tagKey)
                | context [Js.inherited tagKey] =>
                    destruct (Js.inherited tagKey)
                | context [String.eqb ?a ?b] => destruct (String.eqb a b)
                end; simpl in Hvalue); congruence.
    + split; [done|]. by apply (not_compliant r _ Hflag Hv).
  - pose proof (Hincl _ (or_introl eq_refl)) as Hv.
    split; [done|]. by apply (not_compliant r _ Hflag Hv).
Qed.

Lemma validateAsset_tag_cases_witness :
  let asset := Samples.orders "prod" {[ "PII" := "false" ]} in
  let agreement :=
    Samples.agreement ["prod"] ["sales"]
      (Some [("PII", "true"); ("constructor", "x")]) in
  let req :=
    Samples.requirement (Some [("PII", "true"); ("constructor", "x")]) in
  exists r,
    validateAsset asset [agreement] = Js.Ok r
    /\ In (mkViolation agreement req "PII" "true" (Some (Js.Str "false")))
          (ValidationResult.violations r)
    /\ In (mkViolation agreement req "constructor" "x"
                       (Some (Js.Member "constructor")))
          (ValidationResult.violations r).
Proof.
  intros asset agreement req.
  destruct (validateAsset asset [agreement]) as [r|e] eqn:Hr;
    [|vm_compute in Hr; discriminate Hr].
  exists r. split; [reflexivity|]. split.
  - refine (proj1 (proj2 (validateAsset_tag_cases asset [agreement] r
              agreement ["prod"] [req] req
              [("PII", "true"); ("constructor", "x")] "PII" "true"
              Hr _ eq_refl eq_refl eq_refl eq_refl _ eq_refl eq_refl _)));
      simpl; auto.
  - refine (proj1 (proj2 (proj2 (validateAsset_tag_cases asset [agreement] r
              agreement ["prod"] [req] req
              [("PII", "true"); ("constructor", "x")] "constructor" "x"
              Hr _ eq_refl eq_refl eq_refl eq_refl _ eq_refl eq_refl _))));
      simpl; auto.
Defined.

(** C6 as stated fails: a requirement without [requiredTags] whose scope
    matches makes [Object.entries] raise, and the evaluation fails. *)
Lemma missing_requiredTags_throws :
  let asset := Samples.orders "prod" {[ "PII" := "true" ]} in
  let agreement := Samples.agreement ["prod"] ["sales"] None in
  validateAsset asset [agreement] = Js.Throw typeError
  /\ ~ exists r, validateAsset asset [agreement] = Js.Ok r.
Proof.
  simpl. split; [vm_compute; reflexivity|].
  intros [r Hr]. vm_compute in Hr. discriminate Hr.
Qed.

(** C6, amended.  [validateAsset] is total over well-formed inputs, those
    in which every agreement carries [environments] and every requirement
    carries [scope] and [requiredTags].  In general it returns exactly
    when every agreement carries [environments] and every requirement of
    an agreement that covers the asset carries a [scope] and, where the
    scope matches, [requiredTags]: a requirement that lacks one of them is
    harmless only while it is not evaluated for the asset.  An agreement
    without [environments] makes every evaluation raise a [TypeError], and
    so does a requirement of a covering agreement that has no [scope], or
    whose scope matches and that has no [requiredTags]. *)
Theorem validateAsset_total (asset : Asset.t) (agreements : list Agreement.t) :
  (wellFormed agreements = true ->
   validateAsset asset agreements
   = Js.Ok (resultOf asset (expectedViolations asset agreements)))
  /\ ((forall agreement,
          In agreement agreements ->
          is_Some (Agreement.environments agreement))
      /\ (forall agreement req,
            In agreement agreements ->
            covers asset agreement = true ->
            In req (default [] (Agreement.parsedRequirements agreement)) ->
            is_Some (Requirement.scope req)
            /\ (inScope asset req = true ->
                is_Some (Requirement.requiredTags req)))
      <-> validateAsset asset agreements
          = Js.Ok (resultOf asset (expectedViolations asset agreements)))
  /\ ((exists r, validateAsset asset agreements = Js.Ok r)
      \/ (exists message,
             validateAsset asset agreements
             = Js.Throw (Js.TypeError message)))
  /\ (forall agreement,
        In agreement agreements ->
        Agreement.environments agreement = None ->
        validateAsset asset agreements
        = Js.Throw (Js.cannotRead "includes"))
  /\ (forall agreement req,
        In agreement agreements ->
        covers asset agreement = true ->
        In req (default [] (Agreement.parsedRequirements agreement)) ->
        Requirement.scope req = None
        \/ (inScope asset req = true /\ Requirement.requiredTags req = None) ->
        exists message,
          validateAsset asset agreements = Js.Throw (Js.TypeError message)).
Proof.
  rewrite validateAsset_spec.
  pose proof (evaluationError_None asset agreements) as Hnone.
  pose proof (evaluationError_TypeError asset agreements) as Htype.
  split; [|split; [|split; [|split]]].
  - intros Hwf. by rewrite (wellFormed_evaluationError asset agreements Hwf).
  - rewrite <- Hnone.
    destruct (evaluationError asset agreements); split; done.
  - destruct (evaluationError asset agreements) as [e|].
    + right. destruct (Htype e eq_refl) as [message ->]. by eexists.
    + left. by eexists.
  - intros agreement Hin Henv. unfold evaluationError.
    assert (Hfirst : firstError environmentsError agreements
                     = Some (Js.cannotRead "includes")).
    { destruct (firstError environmentsError agreements) as [e|] eqn:Hfirst.
      - apply firstError_In in Hfirst as (agreement' & _ & He).
        unfold environmentsError in He.
        destruct (Agreement.environments agreement'); congruence.
      - pose proof (proj1 (firstError_None _ _) Hfirst agreement Hin) as He.
        unfold environmentsError in He. by rewrite Henv in He. }
    by rewrite Hfirst.
  - intros agreement req Hin Hcovers Hreq Hlacks.
    destruct (evaluationError asset agreements) as [e|].
    + destruct (Htype e eq_refl) as [message ->]. by eexists.
    + destruct (proj1 Hnone eq_refl) as [_ Hreqs].
      destruct (Hreqs agreement req Hin Hcovers Hreq) as [[scope Hscope] Htags].
      destruct Hlacks as [Hlacks | [Hscoped Hlacks]]; [congruence|].
      destruct (Htags Hscoped) as [entries Hentries]. congruence.
Qed.

Lemma validateAsset_total_witness :
  let asset := Samples.orders "prod" {[ "PII" := "true" ]} in
  let agreements :=
    [Samples.agreement ["prod"] ["sales"] Samples.piiAndRetention] in
  wellFormed agreements = true
  /\ validateAsset asset agreements
     = Js.Ok (resultOf asset (expectedViolations asset agreements)).
Proof.
  intros asset agreements.
  assert (Hwf : wellFormed agreements = true) by reflexivity.
  split; [exact Hwf|].
  exact (proj1 (validateAsset_total asset agreements) Hwf).
Defined.

(** C10.  For a required tag key of a requirement that is evaluated for
    the asset, what [validateAsset] reports is decided by the value that
    [properties] holds for the key whenever that value is truthy, whatever
    [tags] holds: if it is the expected value nothing is reported for the
    key, and otherwise a violation is reported whose [actualValue] is the
    value from [properties], and the asset is not compliant.  [tags]
    decides in the same way only when [properties] lacks the key or holds
    a falsy value for it.  So replacing the [tags] map changes nothing in
    the result as long as it changes only keys for which [properties]
    holds a truthy value. *)
Theorem properties_take_precedence (asset : Asset.t)
    (agreements : list Agreement.t) (r : ValidationResult.t)
    (agreement : Agreement.t) (environments : list string)
    (reqs : list Requirement.t) (req : Requirement.t)
    (entries : list (string * string)) (tagKey tagValue : string) :
  validateAsset asset agreements = Js.Ok r ->
  In agreement agreements ->
  Agreement.environments agreement = Some environments ->
  Js.array_includes environments (Asset.environmentId asset) = true ->
  agreementApplies agreement asset = true ->
  Agreement.parsedRequirements agreement = Some reqs ->
  In req reqs ->
  scopeMatches req asset = Js.Ok true ->
  Requirement.requiredTags req = Some entries ->
  In (tagKey, tagValue) entries ->
  let fromProperties :=
    Asset.properties asset ≫= (fun obj => Js.get obj tagKey) in
  let fromTags := Asset.tags asset ≫= (fun obj => Js.get obj tagKey) in
  let reported actual :=
    In (mkViolation agreement req tagKey tagValue actual)
       (ValidationResult.violations r)
    /\ ValidationResult.compliant r = false in
  let silent :=
    forall v, In v (ValidationResult.violations r) ->
              ~ concerns tagKey tagValue v in
  (Js.truthyValue fromProperties = true ->
   (fromProperties = Some (Js.Str tagValue) -> silent)
   /\ (fromProperties <> Some (Js.Str tagValue) -> reported fromProperties))
  /\ (Js.truthyValue fromProperties = false ->
      (Js.truthyValue fromTags = false -> reported None)
      /\ (Js.truthyValue fromTags = true ->
          (fromTags = Some (Js.Str tagValue) -> silent)
          /\ (fromTags <> Some (Js.Str tagValue) -> reported fromTags)))
  /\ (forall tags',
        (forall key,
            Js.truthyValue
              (Asset.properties asset ≫= (fun obj => Js.get obj key)) = true
            \/ tags' ≫= (fun obj => Js.get obj key)
               = Asset.tags asset ≫= (fun obj => Js.get obj key)) ->
        validateAsset (withTags tags' asset) agreements = Js.Ok r).
Proof.
  intros Hok Hin Henvs Henv Happlies Hreqs Hreq Hscope Hentries Hentry
    fromProperties fromTags reported silent.
  destruct (evaluated_tag _ _ _ _ _ _ _ _ _ _ Hok Hin Henvs Henv Happlies
              Hreqs Hreq Hscope Hentries Hentry) as (Hall & Hflag & Hincl).
  assert (Hcases : forall observed,
            assetTagValue asset tagKey = observed ->
            (Js.truthyValue observed = false -> reported None)
            /\ (Js.truthyValue observed = true ->
                (observed = Some (Js.Str tagValue) -> silent)
                /\ (observed <> Some (Js.Str tagValue) -> reported observed))).
  { intros observed Hvalue. unfold tagViolations in Hincl.
    rewrite Hvalue in Hincl. unfold reported, silent.
    destruct observed as [[text|name]|]; cbn [Js.truthyValue].
    - destruct (String.eqb text EmptyString) eqn:Hempty; cbn [negb].
      + split; [|done]. intros _.
        pose proof (Hincl _ (or_introl eq_refl)) as Hv.
        split; [done|]. by apply (not_compliant r _ Hflag Hv).
      + split; [done|]. intros _. apply String.eqb_neq in Hempty. split.
        * intros [= Htext] v Hv. rewrite Hall in Hv. rewrite Htext in *.
          by apply (expectedViolations_equal asset agreements tagKey
                      tagValue).
        * intros Hdiff.
          destruct (String.eqb text tagValue) eqn:Hsame.
          -- apply String.eqb_eq in Hsame. by rewrite Hsame in Hdiff.
          -- pose proof (Hincl _ (or_introl eq_refl)) as Hv.
             split; [done|]. by apply (not_compliant r _ Hflag Hv).
    - split; [done|]. intros _. split; [done|]. intros _.
      pose proof (Hincl _ (or_introl eq_refl)) as Hv.
      split; [done|]. by apply (not_compliant r _ Hflag Hv).
    - split; [|done]. intros _.
      pose proof (Hincl _ (or_introl eq_refl)) as Hv.
      split; [done|]. by apply (not_compliant r _ Hflag Hv). }
  split; [|split].
  - intros Htruthy.
    assert (Hvalue : assetTagValue asset tagKey = fromProperties).
    { unfold assetTagValue, Js.orValue. fold fromProperties.
      by rewrite Htruthy. }
    by apply (Hcases _ Hvalue).
  - intros Hfalsy.
    assert (Hvalue : assetTagValue asset tagKey = fromTags).
    { unfold assetTagValue, Js.orValue. fold fromProperties.
      by rewrite Hfalsy. }
    by apply (Hcases _ Hvalue).
  - intros tags' Hkeys. rewrite <- Hok. rewrite !validateAsset_spec.
    change (evaluationError (withTags tags' asset) agreements)
      with (evaluationError asset agreements).
    rewrite expectedViolations_withTags; [done|].
    intros key. by apply assetTagValue_withTags.
Qed.

Lemma properties_take_precedence_witness :
  let asset :=
    Samples.ordersWith {[ "PII" := "true" ]}
                       {[ "PII" := "false"; "retention_years" := "7" ]} in
  let agreement :=
    Samples.agreement ["prod"] ["sales"] Samples.piiAndRetention in
  exists r,
    validateAsset asset [agreement] = Js.Ok r
    /\ ValidationResult.violations r = []
    /\ (forall v, In v (ValidationResult.violations r) ->
                  ~ concerns "PII" "true" v)
    /\ validateAsset (withTags (Some {[ "retention_years" := "7" ]}) asset)
                     [agreement] = Js.Ok r.
Proof.
  intros asset agreement.
  destruct (validateAsset asset [agreement]) as [r|e] eqn:Hr;
    [|vm_compute in Hr; discriminate Hr].
  exists r. split; [reflexivity|].
  split; [vm_compute in Hr; by injection Hr as <-|].
  destruct (properties_take_precedence asset [agreement] r agreement ["prod"]
              [Samples.requirement Samples.piiAndRetention]
              (Samples.requirement Samples.piiAndRetention)
              [("PII", "true"); ("retention_years", "7")] "PII" "true"
              Hr (or_introl eq_refl) eq_refl eq_refl eq_refl eq_refl
              (or_introl eq_refl) eq_refl eq_refl (or_introl eq_refl))
    as (Hfirst & _ & Hreplace).
  split.
  - exact (proj1 (Hfirst eq_refl) eq_refl).
  - apply Hreplace. intros key.
    destruct (decide (key = "PII")) as [->|Hne]; [by left|right].
    unfold asset. simpl. unfold Js.get.
    rewrite !lookup_insert_ne by done. reflexivity.
Defined.

End EvaluatorClaims.

(** ** The rate-limited transport *)

Section TransportFacts.

Import Transport TransportSpec.
Local Open Scope Q_scope.

Lemma backoffDelay_capped retries : backoffDelay retries <= 8000.
Proof. unfold backoffDelay. apply Q.le_min_r. Qed.

Lemma backoffDelay_mono retries :
  backoffDelay (S retries) <= backoffDelay retries.
Proof.
  unfold backoffDelay. apply Q.min_le_compat; [|apply Qle_refl].
  apply Qmult_le_l; [reflexivity|].
  apply Qpower_le_compat_l; [lia|discriminate].
Qed.

Lemma countdown_nondecreasing retries n :
  nondecreasing (map backoffDelay (countdown retries n)).
Proof.
  revert retries. induction n as [|n IH]; intros [|retries]; try exact I.
  specialize (IH retries). simpl.
  destruct n as [|n]; [exact I|]. destruct retries as [|retries]; [exact I|].
  split; [apply backoffDelay_mono|exact IH].
Qed.

Lemma countdown_capped retries n :
  Forall (fun d => d <= 8000) (map backoffDelay (countdown retries n)).
Proof.
  apply List.Forall_forall. intros d Hd.
  apply in_map_iff in Hd as (r & <- & _).
  apply backoffDelay_capped.
Qed.

Lemma throttle_attempts w : attempts (throttle w) = attempts w.
Proof. unfold throttle. by destruct (Qlt_le_dec _ _). Qed.

Lemma throttle_backoffs w : backoffs (throttle w) = backoffs w.
Proof. unfold throttle. by destruct (Qlt_le_dec _ _). Qed.

#[local] Arguments throttle : simpl never.

Lemma invoke_inv {A} (fn : nat -> Q * Js.result A) w outcome w' :
  invoke fn (throttle w) = (outcome, w') ->
  outcome = snd (fn (attempts w))
  /\ attempts w' = S (attempts w)
  /\ backoffs w' = backoffs w.
Proof.
  unfold invoke. rewrite throttle_attempts.
  destruct (fn (attempts w)) as [duration o]. intros [= <- <-]. simpl.
  repeat split. exact (throttle_backoffs w).
Qed.

#[local] Arguments invoke : simpl never.

(** A call performs [n <= retries] retries; it announces the delays of
    the budgets [retries, retries - 1, ...] and invokes the thunk [n + 1]
    times.  The retries are as many as the leading 429 answers allow. *)
Lemma rateLimitedRequest_trace {A} (fn : nat -> Q * Js.result A) retries w :
  exists n,
    (n <= retries)%nat
    /\ backoffs (snd (rateLimitedRequest fn retries w))
       = backoffs w ++ map backoffDelay (countdown retries n)
    /\ attempts (snd (rateLimitedRequest fn retries w))
       = (attempts w + n + 1)%nat
    /\ fst (rateLimitedRequest fn retries w) = snd (fn (attempts w + n)%nat)
    /\ (forall k, (k < n)%nat -> rateLimited fn (attempts w + k))
    /\ ((n < retries)%nat -> ~ rateLimited fn (attempts w + n)).
Proof.
  revert w. induction retries as [|retries IH]; intros w; simpl;
    destruct (invoke fn (throttle w)) as [outcome w1] eqn:Hinv;
    apply invoke_inv in Hinv as (Hout & Hatt & Hback).
  - exists 0%nat. rewrite Nat.add_0_r, <- Hout, app_nil_r.
    destruct outcome; simpl; rewrite ?Hatt, ?Hback; repeat split; lia.
  - destruct outcome as [result|error]; simpl.
    + exists 0%nat. rewrite Nat.add_0_r, <- Hout, app_nil_r, Hatt, Hback.
      repeat split; try lia.
      intros _ (e & He & _). rewrite <- Hout in He. discriminate He.
    + destruct (is429 error) eqn:H429; simpl.
      * destruct (IH (backoff (S retries) w1))
          as (n & Hn & Hb & Ha & Hr & Hlead & Hstop).
        simpl in Hb, Ha, Hr, Hlead, Hstop.
        rewrite Hatt in Ha, Hr, Hlead, Hstop. rewrite Hback in Hb.
        exists (S n). rewrite Hb, Ha, Hr.
        rewrite <- app_assoc. simpl.
        repeat split; try lia.
        -- f_equal. f_equal. lia.
        -- intros [|k] Hk.
           ++ exists error. rewrite Nat.add_0_r, <- Hout. by split.
           ++ replace (attempts w + S k)%nat with (S (attempts w) + k)%nat
                by lia.
              apply Hlead. lia.
        -- intros Hlt.
           replace (attempts w + S n)%nat with (S (attempts w) + n)%nat by lia.
           apply Hstop. lia.
      * exists 0%nat. rewrite Nat.add_0_r, <- Hout, app_nil_r, Hatt, Hback.
        repeat split; try lia.
        intros _ (e & He & He429). rewrite <- Hout in He.
        injection He as <-. congruence.
Qed.

Lemma countdown_length_le retries n :
  (n <= retries)%nat -> length (countdown retries n) = n.
Proof.
  revert retries. induction n as [|n IH]; intros [|retries] Hle; simpl;
    try lia.
  rewrite IH; lia.
Qed.

End TransportFacts.

Section TransportClaims.

Import Transport TransportSpec.
Local Open Scope Q_scope.

(** C3.  Whatever the thunk answers, the backoff delays of one call of
    [rateLimitedRequest] are nondecreasing, each is at most the maximum
    delay of 8000 ms, and there are at most [retries] of them (so at most
    [retries + 1] invocations of the thunk); and when every one of the
    [retries + 1] invocations is answered with HTTP 429, the call makes
    exactly [retries] retries and then surfaces the last 429 error to
    the caller. *)
Theorem backoff_nondecreasing_and_bounded {A} (fn : nat -> Q * Js.result A)
    (retries : nat) (w : world) :
  exists delays,
    backoffs (snd (rateLimitedRequest fn retries w)) = backoffs w ++ delays
    /\ nondecreasing delays
    /\ Forall (fun d => d <= 8000) delays
    /\ (length delays <= retries)%nat
    /\ attempts (snd (rateLimitedRequest fn retries w))
       = (attempts w + length delays + 1)%nat
    /\ ((forall k, (k <= retries)%nat -> rateLimited fn (attempts w + k)) ->
        length delays = retries
        /\ fst (rateLimitedRequest fn retries w)
           = snd (fn (attempts w + retries)%nat)
        /\ exists e, fst (rateLimitedRequest fn retries w) = Js.Throw e
                     /\ is429 e = true).
Proof.
  destruct (rateLimitedRequest_trace fn retries w)
    as (n & Hn & Hb & Ha & Hr & Hlead & Hstop).
  exists (map backoffDelay (countdown retries n)).
  rewrite length_map, (countdown_length_le retries n Hn).
  split; [exact Hb|]. split; [apply countdown_nondecreasing|].
  split; [apply countdown_capped|]. split; [exact Hn|]. split; [exact Ha|].
  intros Hall.
  assert (n = retries) as ->.
  { destruct (Nat.eq_dec n retries) as [->|Hne]; [done|].
    exfalso. apply Hstop; [lia|]. apply Hall. lia. }
  split; [done|]. split; [exact Hr|].
  destruct (Hall retries (Nat.le_refl retries)) as (e & He & H429).
  exists e. by rewrite Hr, He.
Qed.

Lemma backoff_nondecreasing_and_bounded_witness :
  (forall k, (k <= DEFAULT_RETRIES)%nat ->
             rateLimited always429 (attempts initial + k))
  /\ fst (rateLimitedRequest always429 DEFAULT_RETRIES initial)
     = Js.Throw (Js.HttpError (Some 429%Z) "Too Many Requests").
Proof.
  assert (Hall : forall k, (k <= DEFAULT_RETRIES)%nat ->
                           rateLimited always429 (attempts initial + k)).
  { intros k _. eexists. split; reflexivity. }
  split; [exact Hall|].
  destruct (backoff_nondecreasing_and_bounded always429 DEFAULT_RETRIES initial)
    as (delays & _ & _ & _ & _ & _ & Hsurfaced).
  exact (proj1 (proj2 (Hsurfaced Hall))).
Defined.

(** With the default budget the delays are 1 s, 2 s and 4 s; the cap of
    8 s is never reached. *)
Example default_backoffs :
  backoffs (snd (rateLimitedRequest always429 DEFAULT_RETRIES initial))
  = [1000; 2000; 4000]
  /\ attempts (snd (rateLimitedRequest always429 DEFAULT_RETRIES initial)) = 4%nat
  /\ consecutiveErrors
       (snd (rateLimitedRequest always429 DEFAULT_RETRIES initial)) = 3%nat.
Proof. vm_compute. repeat split. Qed.

End TransportClaims.

(** ** Catalog selection *)

Section SelectionFacts.

Import Discovery.

Variable MAX_CATALOGS : Z.
Variable toLowerCase : string -> string.
Variable priorityCatalogs : list string.

Let priority : Catalog.t -> bool := isPriority toLowerCase priorityCatalogs.
Let other : Catalog.t -> bool := fun catalog => negb (priority catalog).

Lemma partition_from prioritized others catalogs :
  fold_left (partitionStep toLowerCase priorityCatalogs) catalogs
            (prioritized, others)
  = (prioritized ++ List.filter priority catalogs,
     others ++ List.filter other catalogs).
Proof.
  revert prioritized others.
  induction catalogs as [|catalog catalogs IH]; intros prioritized others;
    simpl.
  - by rewrite !app_nil_r.
  - unfold other, priority in *.
    destruct (isPriority toLowerCase priorityCatalogs catalog); simpl;
      rewrite IH; by rewrite <- app_assoc.
Qed.

Lemma partitionCatalogs_filter catalogs :
  partitionCatalogs toLowerCase priorityCatalogs catalogs
  = (List.filter priority catalogs, List.filter other catalogs).
Proof. unfold partitionCatalogs. by rewrite partition_from. Qed.

Lemma slice0_firstn {A} (xs : list A) (n : Z) :
  (0 <= n)%Z -> slice0 xs n = firstn (Z.to_nat n) xs.
Proof. intros Hn. unfold slice0. by rewrite (proj2 (Z.ltb_ge n 0) Hn). Qed.

Lemma catalogsToScan_filter catalogs :
  catalogsToScan MAX_CATALOGS toLowerCase priorityCatalogs catalogs
  = List.filter priority catalogs
    ++ firstn (Z.to_nat (MAX_CATALOGS
                         - Z.of_nat (length (List.filter priority catalogs))))
              (List.filter other catalogs).
Proof.
  unfold catalogsToScan. rewrite partitionCatalogs_filter.
  rewrite slice0_firstn by lia. do 2 f_equal. lia.
Qed.

Lemma filter_split_length {A} (f : A -> bool) (xs : list A) :
  length (List.filter f xs) + length (List.filter (fun x => negb (f x)) xs)
  = length xs.
Proof.
  induction xs as [|x xs IH]; simpl; [done|].
  destruct (f x); simpl; lia.
Qed.

Lemma isPriority_referenced catalog :
  priority catalog = true
  <-> exists share, In share priorityCatalogs
                    /\ toLowerCase share = toLowerCase (Catalog.name catalog).
Proof.
  unfold priority, isPriority, prioritySet.
  rewrite bool_decide_eq_true, elem_of_list_to_set, list_elem_of_In.
  rewrite in_map_iff. split; intros (share & H1 & H2); eauto.
Qed.

End SelectionFacts.

(** ** Progress published by a discovery run *)

Section ProgressFacts.

Import Discovery DiscoverySpec.

Variable MAX_SCHEMAS_PER_CATALOG : Z.
Variable api : Remote.t.
Variable envId : string.

Lemma published_progress c isLoading processed total priority count :
  published envId
    (cacheSet api (Cache.metadataKey envId)
              (progress isLoading processed total priority count) c)
  = published envId c
    ++ [ {| DiscoveryProgress.isLoading := isLoading;
            DiscoveryProgress.catalogsProcessed := Some processed;
            DiscoveryProgress.totalCatalogs := Some total;
            DiscoveryProgress.priorityCatalogs := priority;
            DiscoveryProgress.currentAssetCount := count;
            DiscoveryProgress.error := None;
            DiscoveryProgress.timestamp :=
              Some (Remote.now api (length (writes c))) |} ].
Proof.
  unfold published, progressWrites, cacheSet. simpl. rewrite omap_app. simpl.
  by rewrite String.eqb_refl.
Qed.

Lemma published_assets c key data :
  published envId (cacheSet api key (Cache.Assets data) c)
  = published envId c.
Proof.
  unfold published, progressWrites, cacheSet. simpl. rewrite omap_app. simpl.
  by rewrite app_nil_r.
Qed.

Lemma loadingState_weaken total bound bound' p :
  bound <= bound' -> loadingState total bound p -> loadingState total bound' p.
Proof.
  intros Hle (Hloading & Htotal & m & Hm & Hbound).
  repeat split; try done. exists m. split; [done|lia].
Qed.

Lemma processedNondecreasing_snoc states total bound q n :
  processedNondecreasing states ->
  Forall (loadingState total bound) states ->
  DiscoveryProgress.catalogsProcessed q = Some n ->
  bound <= n ->
  processedNondecreasing (states ++ [q]).
Proof.
  intros Hsorted Hall Hq Hle.
  induction states as [|p states IH]; [exact I|].
  apply Forall_cons in Hall as [(_ & _ & m & Hm & Hbound) Hall].
  destruct states as [|p' states].
  - simpl. rewrite Hm, Hq. split; [lia|exact I].
  - destruct Hsorted as [Hpp' Hsorted]. split; [exact Hpp'|].
    by apply IH.
Qed.

Lemma processCatalog_invariant total k c catalog :
  loopInvariant envId total k c ->
  loopInvariant envId total (S k)
    (processCatalog MAX_SCHEMAS_PER_CATALOG api envId total c catalog).
Proof.
  intros (Hk & Hne & Hall & Hsorted). unfold processCatalog.
  destruct (Remote.listSchemas api (Catalog.name catalog)) as [schemas|e].
  - cbv zeta. unfold loopInvariant.
    rewrite published_progress, published_assets. simpl.
    repeat split.
    + lia.
    + intros Hnil. by apply app_eq_nil in Hnil as [_ Hnil].
    + apply Forall_app. split.
      * eapply Forall_impl; [exact Hall|]. intros p.
        apply loadingState_weaken. lia.
      * apply Forall_singleton. repeat split. eauto.
    + eapply processedNondecreasing_snoc; eauto.
  - repeat split; try done. lia.
Qed.

Lemma loop_invariant total catalogs k c :
  loopInvariant envId total k c ->
  loopInvariant envId total (k + length catalogs)
    (fold_left (processCatalog MAX_SCHEMAS_PER_CATALOG api envId total)
               catalogs c).
Proof.
  revert k c. induction catalogs as [|catalog catalogs IH]; intros k c Hinv;
    simpl.
  - by rewrite Nat.add_0_r.
  - replace (k + S (length catalogs)) with (S k + length catalogs) by lia.
    apply IH. by apply processCatalog_invariant.
Qed.

Lemma transitions_loading_then_done flags :
  flags <> [] ->
  Forall (fun b => b = true) flags ->
  transitions true (flags ++ [false]) = 1
  /\ transitions false (flags ++ [false]) = 0.
Proof.
  induction flags as [|a flags IH]; [done|]. intros _ Hall.
  apply Forall_cons in Hall as [-> Hall].
  destruct flags as [|b flags]; [done|].
  destruct (IH ltac:(done) Hall) as [IH1 IH0].
  pose proof Hall as Hb. apply Forall_cons in Hb as [-> _].
  change (transitions true ((true :: true :: flags) ++ [false]))
    with (0 + transitions true ((true :: flags) ++ [false])).
  change (transitions false ((true :: true :: flags) ++ [false]))
    with (0 + transitions false ((true :: flags) ++ [false])).
  by rewrite IH1, IH0.
Qed.

Lemma length_append (s1 s2 : string) :
  String.length (s1 +:+ s2) = String.length s1 + String.length s2.
Proof. induction s1 as [|a s1 IH]; simpl; [done|]. by rewrite IH. Qed.

Lemma cacheKey_not_metadataKey : Cache.cacheKey envId <> Cache.metadataKey envId.
Proof.
  unfold Cache.metadataKey. intros Heq.
  apply (f_equal String.length) in Heq. rewrite length_append in Heq.
  simpl in Heq. lia.
Qed.

Lemma last_cons {A} (x d : A) (xs : list A) :
  List.last (x :: xs) d = List.last xs x.
Proof.
  revert x d. induction xs as [|y xs IH]; intros x d; [done|].
  change (List.last (x :: y :: xs) d) with (List.last (y :: xs) d).
  by rewrite (IH y d), (IH y x).
Qed.

(** [getLoadingStatus] returns the last progress record written for the
    environment, or what it returned before the writes. *)
Lemma getLoadingStatus_applyWrites ws cache :
  Forall (wellKeyed envId) ws ->
  getLoadingStatus (applyWrites cache ws) envId
  = List.last (progressWrites envId ws) (getLoadingStatus cache envId).
Proof.
  revert cache. induction ws as [|[k v] ws IH]; intros cache Hkeys; [done|].
  apply Forall_cons in Hkeys as [Hk Hkeys].
  change (applyWrites cache ((k, v) :: ws))
    with (applyWrites (<[k := v]> cache) ws).
  rewrite (IH _ Hkeys). unfold wellKeyed in Hk. simpl in Hk.
  destruct v as [data timestamp | p]; simpl.
  - unfold getLoadingStatus. by rewrite lookup_insert_ne.
  - subst k. rewrite String.eqb_refl, last_cons.
    unfold getLoadingStatus at 1. by rewrite lookup_insert_eq.
Qed.

Lemma cacheSet_wellKeyed_progress c isLoading processed total priority count :
  Forall (wellKeyed envId) (writes c) ->
  Forall (wellKeyed envId)
    (writes (cacheSet api (Cache.metadataKey envId)
                      (progress isLoading processed total priority count) c)).
Proof.
  intros Hall. unfold cacheSet. simpl. apply Forall_app. split; [done|].
  by apply Forall_singleton.
Qed.

Lemma cacheSet_wellKeyed_assets c data :
  Forall (wellKeyed envId) (writes c) ->
  Forall (wellKeyed envId)
    (writes (cacheSet api (Cache.cacheKey envId) (Cache.Assets data) c)).
Proof.
  intros Hall. unfold cacheSet. simpl. apply Forall_app. split; [done|].
  apply Forall_singleton. exact cacheKey_not_metadataKey.
Qed.

Lemma processCatalog_wellKeyed total c catalog :
  Forall (wellKeyed envId) (writes c) ->
  Forall (wellKeyed envId)
    (writes (processCatalog MAX_SCHEMAS_PER_CATALOG api envId total c catalog)).
Proof.
  intros Hall. unfold processCatalog.
  destruct (Remote.listSchemas api (Catalog.name catalog)); [|done].
  cbv zeta. apply cacheSet_wellKeyed_progress.
  by apply (cacheSet_wellKeyed_assets (Crawl _ _ (writes c))).
Qed.

Lemma loop_wellKeyed total catalogs c :
  Forall (wellKeyed envId) (writes c) ->
  Forall (wellKeyed envId)
    (writes (fold_left (processCatalog MAX_SCHEMAS_PER_CATALOG api envId total)
                       catalogs c)).
Proof.
  revert c. induction catalogs as [|catalog catalogs IH]; intros c Hall;
    [done|].
  simpl. apply IH. by apply processCatalog_wellKeyed.
Qed.

End ProgressFacts.

Section ProgressReads.

Import Discovery DiscoverySpec.

Variable MAX_CATALOGS MAX_SCHEMAS_PER_CATALOG : Z.
Variable toLowerCase : string -> string.
Variable api : Remote.t.
Variable envId : string.
Variable priorityCatalogs : list string.

Lemma _fetchAllAssets_wellKeyed :
  Forall (wellKeyed envId)
    (writes (_fetchAllAssets MAX_CATALOGS MAX_SCHEMAS_PER_CATALOG toLowerCase
                             api envId priorityCatalogs)).
Proof.
  unfold _fetchAllAssets.
  destruct (Remote.listCatalogs api) as [catalogs|e].
  - destruct (partitionCatalogs toLowerCase priorityCatalogs catalogs)
      as [prioritized others].
    cbv zeta. apply cacheSet_wellKeyed_progress, cacheSet_wellKeyed_assets.
    apply loop_wellKeyed. by apply cacheSet_wellKeyed_progress.
  - unfold cacheSet. simpl. by apply Forall_singleton.
Qed.

(** A read of the loading status at any point of a run returns the state
    the run published last, or, before its first write, the status from
    before the run. *)
Lemma getLoadingStatus_during_run cache done rest :
  writes (_fetchAllAssets MAX_CATALOGS MAX_SCHEMAS_PER_CATALOG toLowerCase
                          api envId priorityCatalogs)
  = done ++ rest ->
  getLoadingStatus (applyWrites cache done) envId
  = List.last (progressWrites envId done) (getLoadingStatus cache envId)
  /\ published envId
       (_fetchAllAssets MAX_CATALOGS MAX_SCHEMAS_PER_CATALOG toLowerCase
                        api envId priorityCatalogs)
     = progressWrites envId done ++ progressWrites envId rest.
Proof.
  intros Hsplit. pose proof _fetchAllAssets_wellKeyed as Hkeys.
  unfold published. rewrite Hsplit in *.
  apply Forall_app in Hkeys as [Hdone _]. split.
  - by apply getLoadingStatus_applyWrites.
  - unfold progressWrites. apply omap_app.
Qed.

End ProgressReads.

Section ProgressClaims.

Import Discovery DiscoverySpec.

(** C9 as stated fails for a run whose catalog listing fails: the only
    state it publishes has [isLoading = false] and no counters, so
    [isLoading] never goes from true to false in that run. *)
Lemma failed_run_never_loading :
  let run :=
    _fetchAllAssets 10 5 Samples.ascii_lower Samples.unreachable "prod" [] in
  published "prod" run = [failedState "boom" 0]
  /\ ~ progressClaim (published "prod" run).
Proof.
  simpl. split; [vm_compute; reflexivity|].
  intros (_ & _ & Honce & _). vm_compute in Honce. discriminate Honce.
Qed.

(** C9, amended.  In a discovery run whose catalog listing succeeds,
    every published state satisfies [catalogsProcessed <= totalCatalogs],
    [catalogsProcessed] never decreases from one published state to the
    next, and [isLoading] is true in every state but the last and false
    in the last: it goes from true to false exactly once, at completion,
    and never from false to true.  A run whose catalog listing fails
    publishes a single state, with [isLoading = false], the error
    message and no counters. *)
Theorem discovery_progress (MAX_CATALOGS MAX_SCHEMAS_PER_CATALOG : Z)
    (toLowerCase : string -> string) (api : Remote.t) (envId : string)
    (priorityCatalogs : list string) :
  let states :=
    published envId
      (_fetchAllAssets MAX_CATALOGS MAX_SCHEMAS_PER_CATALOG toLowerCase api
                       envId priorityCatalogs) in
  match Remote.listCatalogs api with
  | Js.Ok _ =>
      progressClaim states
      /\ exists loading final,
          states = loading ++ [final]
          /\ loading <> []
          /\ Forall (fun p => DiscoveryProgress.isLoading p = true) loading
          /\ DiscoveryProgress.isLoading final = false
          /\ DiscoveryProgress.error final = None
  | Js.Throw e => states = [failedState (Js.message e) (Remote.now api 0)]
  end.
Proof.
  unfold _fetchAllAssets.
  destruct (Remote.listCatalogs api) as [catalogs|e].
  2: { unfold published, progressWrites, cacheSet. simpl.
     by rewrite String.eqb_refl. }
  destruct (partitionCatalogs toLowerCase priorityCatalogs catalogs)
    as [prioritized others].
  set (toScan := catalogsToScan MAX_CATALOGS toLowerCase priorityCatalogs
                                catalogs).
  set (c0 := cacheSet api (Cache.metadataKey envId)
               (progress true 0 (length toScan) (Some (length prioritized))
                         None)
               (Crawl [] 0 [])).
  assert (Hinit : loopInvariant envId (length toScan) 0 c0).
  { unfold loopInvariant, c0. rewrite published_progress. simpl.
    repeat split; try done.
    apply Forall_singleton. repeat split. eauto. }
  apply (loop_invariant MAX_SCHEMAS_PER_CATALOG api envId _ toScan) in Hinit.
  set (c := fold_left _ toScan c0) in *.
  destruct Hinit as (Hk & Hne & Hall & Hsorted). simpl in Hk.
  cbv zeta. rewrite published_progress, published_assets. simpl.
  set (final := DiscoveryProgress.Build false _ _ _ _ _ _).
  assert (Hflags : Forall (fun b => b = true)
                          (map DiscoveryProgress.isLoading (published envId c))).
  { apply List.Forall_map. eapply Forall_impl; [exact Hall|].
    by intros p (Hloading & _). }
  assert (Hflags_ne : map DiscoveryProgress.isLoading (published envId c) <> []).
  { intros Hnil. by apply map_eq_nil in Hnil. }
  destruct (transitions_loading_then_done _ Hflags_ne Hflags) as [Honce Hnever].
  split.
  - unfold progressClaim. rewrite map_app. simpl. repeat split; try done.
    + apply Forall_app. split.
      * eapply Forall_impl; [exact Hall|].
        intros p (_ & Htotal & m & Hm & Hbound). unfold withinTotal.
        rewrite Hm, Htotal. lia.
      * apply Forall_singleton. unfold withinTotal, final. simpl. lia.
    + eapply processedNondecreasing_snoc; eauto.
  - exists (published envId c), final. repeat split; try done.
    eapply Forall_impl; [exact Hall|]. by intros p (Hloading & _).
Qed.

(** A run over three catalogs in which one schema listing fails: the
    counter skips the failed catalog, and the last state reports the two
    catalogs processed as the total. *)
Example flaky_run_progress :
  map (fun p => (DiscoveryProgress.isLoading p,
                 DiscoveryProgress.catalogsProcessed p,
                 DiscoveryProgress.totalCatalogs p,
                 DiscoveryProgress.currentAssetCount p))
      (published "prod"
         (_fetchAllAssets 10 5 Samples.ascii_lower Samples.flaky "prod" []))
  = [ (true, Some 0, Some 3, None);
      (true, Some 1, Some 3, Some 2);
      (true, Some 2, Some 3, Some 4);
      (false, Some 2, Some 2, Some 4) ].
Proof. vm_compute. reflexivity. Qed.

End ProgressClaims.

(** ** Request coalescing *)

Section SingleFlightFacts.

Import SingleFlight SingleFlightSpec.

Variable envId : string.

Let key : string := Cache.requestKey envId.

Lemma run_cons s e events : run s (e :: events) = run (step s e) events.
Proof. reflexivity. Qed.

(** While the marker is present and the cache has no fresh entry, a call
    joins the crawl in flight and starts nothing. *)
Lemma join_in_flight c s promise :
  activeRequests s !! key = Some promise ->
  Cache.freshAssets (cache s) envId (snd c) = None ->
  step s (callOf envId c)
  = setTask (callerId c) (AwaitingShared promise) s.
Proof.
  intros Hactive Hmiss. unfold callOf, step, getAllShareTables.
  rewrite Hmiss. fold key. by rewrite Hactive.
Qed.

Lemma joiners (callers : list caller) s promise :
  activeRequests s !! key = Some promise ->
  (forall c, In c callers ->
             Cache.freshAssets (cache s) envId (snd c) = None) ->
  let s' := run s (map (callOf envId) callers) in
  cache s' = cache s
  /\ activeRequests s' = activeRequests s
  /\ started s' = started s
  /\ settled s' = settled s
  /\ (forall c, In c (map callerId callers) ->
                tasks s' !! c = Some (AwaitingShared promise))
  /\ (forall c, ~ In c (map callerId callers) -> tasks s' !! c = tasks s !! c).
Proof.
  revert s. induction callers as [|c callers IH]; intros s Hactive Hmiss.
  - simpl. repeat split; try done.
  - rewrite map_cons. cbv zeta. rewrite run_cons.
    rewrite (join_in_flight c s promise Hactive) by (apply Hmiss; simpl; auto).
    set (s1 := setTask (callerId c) (AwaitingShared promise) s).
    destruct (IH s1) as (Hc & Ha & Hst & Hse & Hin & Hout).
    { exact Hactive. }
    { intros c' Hc'. apply Hmiss. simpl. auto. }
    repeat split; try done.
    + intros c' [<- | Hc'].
      * destruct (in_dec Nat.eq_dec (callerId c) (map callerId callers))
          as [Hmem | Hmem]; [by apply Hin|].
        rewrite (Hout _ Hmem). unfold s1, setTask. simpl.
        apply lookup_insert_eq.
      * by apply Hin.
    + intros c' Hnot. rewrite Hout by (intros Hmem; apply Hnot; simpl; auto).
      unfold s1, setTask. simpl. apply lookup_insert_ne.
      intros Heq. apply Hnot. simpl. auto.
Qed.

Lemma crawls_snoc s priorityCatalogs :
  length (List.filter (fun c => String.eqb (fst c) envId)
                      (started s ++ [(envId, priorityCatalogs)]))
  = S (crawls envId s).
Proof.
  unfold crawls. rewrite List.filter_app, length_app. simpl.
  rewrite String.eqb_refl. simpl. lia.
Qed.

Section Settling.

Variable promise : nat.
Variable result : outcome.
Variable owner : nat.
Variable ids : list nat.

Let J := settling promise key result owner ids.

Lemma resume_settling c s : J s -> J (resume c s).
Proof.
  intros (Hsettled & Htasks & Hmarker). unfold resume.
  destruct (tasks s !! c) as [[p k | p | r]|] eqn:Htask;
    try (by repeat split).
  - destruct (settled s !! p) as [r|] eqn:Hp; [|by repeat split].
    split; [exact Hsettled|]. split.
    + intros c' Hc'. simpl.
      destruct (decide (c = c')) as [<- | Hne].
      * rewrite lookup_insert_eq. eexists. split; [done|].
        destruct (Htasks c Hc') as (t & Ht & Hj). rewrite Htask in Ht.
        injection Ht as <-.
        destruct Hj as [[= -> ->] | [[=] | [=]]].
        rewrite Hsettled in Hp. injection Hp as <-. by right; right.
      * rewrite lookup_insert_ne by done. by apply Htasks.
    + simpl. destruct (decide (c = owner)) as [-> | Hne].
      * right. rewrite lookup_insert_eq.
        destruct Hmarker as [Hown | [Hdone _]]; rewrite Htask in *.
        -- injection Hown as -> ->. rewrite Hsettled in Hp.
           injection Hp as <-. split; [done|apply lookup_delete_eq].
        -- discriminate Hdone.
      * rewrite lookup_insert_ne by done.
        destruct Hmarker as [Hown | [Hdone Hnone]]; [by left|].
        right. split; [done|].
        destruct (decide (k = key)) as [-> | Hk];
          [apply lookup_delete_eq | by rewrite lookup_delete_ne].
  - destruct (settled s !! p) as [r|] eqn:Hp; [|by repeat split].
    split; [exact Hsettled|]. split.
    + intros c' Hc'. simpl.
      destruct (decide (c = c')) as [<- | Hne].
      * rewrite lookup_insert_eq. eexists. split; [done|].
        destruct (Htasks c Hc') as (t & Ht & Hj). rewrite Htask in Ht.
        injection Ht as <-.
        destruct Hj as [[=] | [[= ->] | [=]]].
        rewrite Hsettled in Hp. injection Hp as <-. by right; right.
      * rewrite lookup_insert_ne by done. by apply Htasks.
    + simpl. destruct (decide (c = owner)) as [-> | Hne].
      * destruct Hmarker as [Hown | [Hdone _]]; rewrite Htask in *;
          discriminate.
      * by rewrite lookup_insert_ne.
Qed.

Lemma resume_settles c s :
  J s -> In c ids -> tasks (resume c s) !! c = Some (Settled result).
Proof.
  intros (Hsettled & Htasks & _) Hc. unfold resume.
  destruct (Htasks c Hc) as (t & Ht & [-> | [-> | ->]]); rewrite Ht;
    [| |exact Ht]; rewrite Hsettled; simpl; apply lookup_insert_eq.
Qed.

Lemma resume_keeps_result c c' s r :
  tasks s !! c = Some (Settled r) ->
  tasks (resume c' s) !! c = Some (Settled r).
Proof.
  intros Hc. unfold resume.
  destruct (tasks s !! c') as [[p k | p | r']|] eqn:Htask; try done;
    (destruct (settled s !! p); [|done]); simpl;
    (destruct (decide (c' = c)) as [-> | Hne];
     [congruence | by rewrite lookup_insert_ne]).
Qed.

Lemma resume_all order s :
  J s ->
  J (run s (map Resume order))
  /\ (forall c, In c ids ->
                In c order \/ tasks s !! c = Some (Settled result) ->
                tasks (run s (map Resume order)) !! c
                = Some (Settled result)).
Proof.
  revert s. induction order as [|c' order IH]; intros s HJ.
  - simpl. split; [done|]. by intros c _ [[] | Hc].
  - rewrite map_cons, run_cons.
    destruct (IH (step s (Resume c')) (resume_settling c' s HJ))
      as [HJ' Hafter].
    split; [exact HJ'|]. intros c Hc Hwhen. apply Hafter; [done|].
    destruct Hwhen as [[-> | Hlater] | Hdone].
    + right. by apply resume_settles.
    + by left.
    + right. by apply resume_keeps_result.
Qed.

End Settling.

End SingleFlightFacts.

Section SingleFlightClaims.

Import SingleFlight SingleFlightSpec.

(** C2.  When callers invoke [getAllShareTables] for the same
    environment while no unexpired cache entry exists and no crawl is
    registered, exactly one crawl ([_fetchAllAssets]) is started, by the
    first of them; every caller receives the outcome of that one crawl,
    whether it is fulfilled or rejected; and once the crawl has settled
    and the callers have resumed, the in-flight marker of the
    environment is removed. *)
Theorem single_flight (s : state) (envId : string) (first : caller)
    (others : list caller) (result : outcome) (order : list nat) :
  let callers := first :: others in
  let promise := length (started s) in
  let s1 := run s (map (callOf envId) callers) in
  let s2 := run s1 (Settle promise result :: map Resume order) in
  activeRequests s !! Cache.requestKey envId = None ->
  settled s !! promise = None ->
  (forall c, In c callers ->
             Cache.freshAssets (cache s) envId (snd c) = None) ->
  NoDup (map callerId callers) ->
  (forall c, In c (map callerId callers) -> In c order) ->
  started s1 = started s ++ [(envId, snd (fst first))]
  /\ crawls envId s1 = S (crawls envId s)
  /\ activeRequests s1 !! Cache.requestKey envId = Some promise
  /\ (forall c, In c (map callerId callers) ->
                tasks s2 !! c = Some (Settled result))
  /\ activeRequests s2 !! Cache.requestKey envId = None.
Proof.
  intros callers promise s1 s2 Hidle Hpending Hmiss Hdistinct Hresumed.
  set (key := Cache.requestKey envId) in *.
  set (owner := callerId first).
  set (sA := State (cache s) (<[key := promise]> (activeRequests s))
                   (started s ++ [(envId, snd (fst first))]) (settled s)
                   (<[owner := AwaitingOwn promise key]> (tasks s))).
  assert (Hfirst : step s (callOf envId first) = sA).
  { unfold callOf, step, getAllShareTables.
    rewrite (Hmiss first) by (simpl; auto). fold key. by rewrite Hidle. }
  assert (HsA : activeRequests sA !! key = Some promise)
    by apply lookup_insert_eq.
  destruct (joiners envId others sA promise HsA)
    as (Hcache & Hactive & Hstarted & Hsettled & Hshared & Hrest).
  { intros c Hc. apply Hmiss. simpl. auto. }
  assert (Hs1 : s1 = run sA (map (callOf envId) others)).
  { unfold s1, callers. by rewrite map_cons, run_cons, Hfirst. }
  rewrite <- Hs1 in Hcache, Hactive, Hstarted, Hsettled, Hshared, Hrest.
  apply NoDup_cons in Hdistinct as [Hfresh Hdistinct].
  assert (Howner : tasks s1 !! owner = Some (AwaitingOwn promise key)).
  { rewrite Hrest by (by rewrite <- list_elem_of_In). apply lookup_insert_eq. }
  assert (Hsettle : step s1 (Settle promise result)
                    = State (cache s1) (activeRequests s1) (started s1)
                            (<[promise := result]> (settled s1)) (tasks s1)).
  { assert (Hsame : settled s1 = settled s) by exact Hsettled.
    unfold step, settle. by rewrite Hsame, Hpending. }
  set (sB := State (cache s1) (activeRequests s1) (started s1)
                   (<[promise := result]> (settled s1)) (tasks s1)) in *.
  assert (HJ : settling promise key result owner (map callerId callers) sB).
  { split; [apply lookup_insert_eq|]. split.
    - intros c [<- | Hc]; eexists; (split; [|]).
      + exact Howner.
      + by left.
      + by apply Hshared.
      + by right; left.
    - by left. }
  destruct (resume_all envId promise result owner (map callerId callers)
                       order sB HJ) as [HJ' Hdone].
  assert (Hs2 : s2 = run sB (map Resume order)).
  { unfold s2. by rewrite run_cons, Hsettle. }
  rewrite <- Hs2 in HJ', Hdone.
  split; [by rewrite Hstarted|]. split.
  { unfold crawls at 1. rewrite Hstarted. apply crawls_snoc. }
  split; [by rewrite Hactive|]. split.
  { intros c Hc. apply Hdone; [done|]. left. by apply Hresumed. }
  destruct HJ' as (_ & _ & [Hstill | [_ Hgone]]); [|exact Hgone].
  rewrite Hdone in Hstill; [discriminate|by left|].
  left. apply Hresumed. by left.
Qed.

Lemma single_flight_witness :
  let callers := [(1, [], 0%Z); (2, [], 5%Z); (3, ["sales"], 9%Z)] in
  let s2 :=
    run initial
        (map (callOf "prod") callers
           ++ Settle 0 (Js.Ok []) :: map Resume [1; 2; 3]) in
  NoDup (map callerId callers)
  /\ crawls "prod" s2 = 1
  /\ (forall c, In c [1; 2; 3] -> tasks s2 !! c = Some (Settled (Js.Ok [])))
  /\ activeRequests s2 !! Cache.requestKey "prod" = None.
Proof.
  intros callers s2.
  assert (Hdistinct : NoDup (map callerId callers)).
  { apply (bool_decide_unpack (NoDup (map callerId callers))).
    vm_compute. reflexivity. }
  split; [exact Hdistinct|]. split; [vm_compute; reflexivity|].
  destruct (single_flight initial "prod" (1, [], 0%Z)
              [(2, [], 5%Z); (3, ["sales"], 9%Z)] (Js.Ok []) [1; 2; 3])
    as (_ & _ & _ & Hall & Hgone).
  - reflexivity.
  - reflexivity.
  - intros c _. reflexivity.
  - exact Hdistinct.
  - intros c Hc. exact Hc.
  - split.
    + intros c Hc. specialize (Hall c Hc).
      destruct Hc as [<-|[<-|[<-|[]]]]; vm_compute in Hall |- *; exact Hall.
    + vm_compute in Hgone |- *. exact Hgone.
Defined.

(** The guarantee is about one flight: [clearCache] drops the marker of a
    crawl that is still running, and the next caller starts a second one. *)
Example clearCache_restarts_crawl :
  crawls "prod"
    (run initial [Call 1 "prod" [] 0; ClearCache; Call 2 "prod" [] 1]) = 2.
Proof. vm_compute. reflexivity. Qed.

(** Once a crawl has published its first partial result, later callers are
    served from the cache while the crawl is still running. *)
Example partial_results_served :
  tasks (run initial [Call 1 "prod" [] 0;
                      Publish "prod" [Samples.untagged] 10;
                      Call 2 "prod" [] 20]) !! 2
  = Some (Settled (Js.Ok [Samples.untagged])).
Proof. vm_compute. reflexivity. Qed.

End SingleFlightClaims.

(** ** The cached route handlers *)

Section RoutesFacts.

Import Routes.

Variable environments : list string.
Variable getAllShareTables : string -> Js.result (list Asset.t).

Lemma fetchAssets_from acc w envs :
  validationCache (snd (fold_left (fetchStep getAllShareTables) envs (acc, w)))
  = validationCache w
  /\ fetched (snd (fold_left (fetchStep getAllShareTables) envs (acc, w)))
     = fetched w ++ envs.
Proof.
  revert acc w. induction envs as [|env envs IH]; intros acc w; simpl.
  - by rewrite app_nil_r.
  - destruct (getAllShareTables env) as [assets|e];
      match goal with
      | |- context [fold_left _ envs (?acc', ?w')] =>
          destruct (IH acc' w') as [-> ->]
      end; simpl; by rewrite <- app_assoc.
Qed.

(** The loop over the environments calls [getAllShareTables] once per
    environment, in order, and leaves [validationCache] alone. *)
Lemma fetchAssets_log w :
  validationCache (snd (fetchAssets environments getAllShareTables w))
  = validationCache w
  /\ fetched (snd (fetchAssets environments getAllShareTables w))
     = fetched w ++ environments.
Proof. apply fetchAssets_from. Qed.

(** With at least one agreement and no fresh entry, [GET /violations]
    does fetch the assets of every environment. *)
Lemma getViolations_fetches agreements now stored w :
  agreements <> [] ->
  fresh w "violations" now = None ->
  fetched (snd (getViolations environments agreements getAllShareTables
                              now stored w))
  = fetched w ++ environments.
Proof.
  intros Hne Hmiss. unfold getViolations. rewrite Hmiss.
  destruct agreements as [|agreement agreements]; [done|]. simpl.
  pose proof (fetchAssets_log w) as [_ Hlog].
  destruct (fetchAssets environments getAllShareTables w) as [allAssets w'].
  simpl in Hlog.
  by destruct (validateEach _ allAssets).
Qed.

(** [GET /overview] returns the default overview without touching
    [validationCache] when no asset has been discovered. *)
Lemma getOverview_no_assets roundPercent agreements now built stored w :
  fresh w "compliance_overview" now = None ->
  fst (fetchAssets environments getAllShareTables w) = [] ->
  fst (getOverview roundPercent environments agreements getAllShareTables
                   now built stored w)
  = Json (defaultOverview built)
  /\ validationCache
       (snd (getOverview roundPercent environments agreements
                         getAllShareTables now built stored w))
     = validationCache w.
Proof.
  intros Hmiss Hnone. unfold getOverview. rewrite Hmiss.
  pose proof (fetchAssets_log w) as [Hcache _].
  destruct (fetchAssets environments getAllShareTables w) as [assets w'].
  simpl in Hnone, Hcache. subst assets. simpl. by split.
Qed.

(** [POST /validate-all] has no such guard: whatever it computes is
    stored, an empty result included. *)
Lemma postValidateAll_stores agreements now stored w results :
  fresh w "validate_all" now = None ->
  validateEach agreements
    (fst (fetchAssets environments getAllShareTables w)) = Js.Ok results ->
  validationCache
    (snd (postValidateAll environments agreements getAllShareTables
                          now stored w))
  !! "validate_all"
  = Some (Cached (ValidateAll results (length results)
                              (countCompliant results)
                              (countNonCompliant results))
                 stored).
Proof.
  intros Hmiss Hresults. unfold postValidateAll. rewrite Hmiss.
  destruct (fetchAssets environments getAllShareTables w) as [assets w'].
  simpl in Hresults. rewrite Hresults. simpl. apply lookup_insert_eq.
Qed.

End RoutesFacts.

Section RoutesClaims.

Import Routes.

(** C8.  When the agreement list is empty, [GET /violations] fetches no
    assets, and on a cache miss the violations computation returns the
    empty result (no violations, zero total, zero compliant, zero
    violating assets) and leaves the handler's state as it was: no
    environment is fetched, no asset is validated, nothing is cached. *)
Theorem no_agreements_no_violations (environments : list string)
    (getAllShareTables : string -> Js.result (list Asset.t))
    (now stored : Z) (w : world) :
  fetched (snd (getViolations environments [] getAllShareTables now stored w))
  = fetched w
  /\ (fresh w "violations" now = None ->
      getViolations environments [] getAllShareTables now stored w
      = (Json (Violations [] 0 0 0
                 (Some "No agreements defined. Create an agreement to check for violations.")),
         w)).
Proof.
  unfold getViolations.
  destruct (fresh w "violations" now) as [body|]; simpl; [done|].
  split; [done|]. by intros _.
Qed.

Lemma no_agreements_no_violations_witness :
  fresh initial "violations" 0 = None
  /\ getViolations ["prod"] [] (fun _ => Js.Ok [Samples.untagged]) 0 1 initial
     = (Json emptyResult, initial).
Proof.
  assert (Hmiss : fresh initial "violations" 0 = None) by reflexivity.
  split; [exact Hmiss|].
  exact (proj2 (no_agreements_no_violations
                  ["prod"] (fun _ => Js.Ok [Samples.untagged]) 0 1 initial)
               Hmiss).
Defined.

(** C7 fails on the code.  [POST /validate-all], finding no agreement and
    no asset, stores its empty result; a call one second later, after
    an agreement has been created and an asset discovered, is answered
    from the cache with that empty result and recomputes nothing.
    [GET /violations], finding an agreement but no asset, stores its
    empty result too, and likewise keeps answering with it. *)
Theorem empty_results_are_cached :
  let nothing : string -> Js.result (list Asset.t) := fun _ => Js.Ok [] in
  let discovered : string -> Js.result (list Asset.t) :=
    fun _ => Js.Ok [Samples.untagged] in
  let w1 := snd (postValidateAll ["prod"] [] nothing 0 1 initial) in
  let w2 := snd (getViolations ["prod"] [Samples.piiAgreement] nothing 0 1
                               initial) in
  validationCache w1 !! "validate_all" = Some (Cached (ValidateAll [] 0 0 0) 1)
  /\ postValidateAll ["prod"] [Samples.piiAgreement] discovered 1000 1001 w1
     = (Json (ValidateAll [] 0 0 0), w1)
  /\ validationCache w2 !! "violations"
     = Some (Cached (Violations [] 0 0 0 None) 1)
  /\ getViolations ["prod"] [Samples.piiAgreement] discovered 1000 1001 w2
     = (Json (Violations [] 0 0 0 None), w2)
  /\ (exists results,
        fst (postValidateAll ["prod"] [Samples.piiAgreement] discovered
                             1000 1001 initial)
        = Json (ValidateAll results 1 0 1)).
Proof.
  simpl. repeat split; try (vm_compute; reflexivity).
  eexists. vm_compute. reflexivity.
Qed.

End RoutesClaims.

(** ** What a crawl discovers and leaves in the cache *)

Section CrawlFacts.

Import Discovery DiscoverySpec CrawlSpec.

Variable MAX_SCHEMAS_PER_CATALOG : Z.
Variable api : Remote.t.
Variable envId : string.

Lemma processSchema_In catalog schema acc asset :
  In asset (processSchema api envId catalog acc schema) ->
  In asset acc
  \/ exists obj,
      (exists tables,
          Remote.listTables api (Catalog.name catalog) (Schema.name schema)
          = Js.Ok tables
          /\ In obj tables
          /\ asset = mkTable envId catalog schema obj)
      \/ (In obj (Remote.listVolumes api (Catalog.name catalog)
                                     (Schema.name schema))
          /\ asset = mkAsset envId "volume" catalog schema ∅ obj)
      \/ (In obj (Remote.listFunctions api (Catalog.name catalog)
                                       (Schema.name schema))
          /\ asset = mkAsset envId "function" catalog schema ∅ obj)
      \/ (In obj (Remote.listModels api (Catalog.name catalog)
                                    (Schema.name schema))
          /\ asset = mkAsset envId "model" catalog schema ∅ obj).
Proof.
  unfold processSchema.
  destruct (Remote.listTables api _ _) as [tables|e] eqn:Htables; [|by left].
  rewrite !in_app_iff, !in_map_iff.
  intros [Hacc | [(obj & <- & Hobj) | [(obj & <- & Hobj)
          | [(obj & <- & Hobj) | (obj & <- & Hobj)]]]]; [by left|..];
    right; exists obj.
  - left. by exists tables.
  - right; left. done.
  - right; right; left. done.
  - right; right; right. done.
Qed.

Lemma processSchemas_In catalog schemas acc asset :
  In asset (fold_left (processSchema api envId catalog) schemas acc) ->
  In asset acc
  \/ exists schema,
      In schema schemas
      /\ In asset (processSchema api envId catalog [] schema).
Proof.
  revert acc. induction schemas as [|schema schemas IH]; intros acc Hin;
    [by left|].
  simpl in Hin. apply IH in Hin as [Hin | (schema' & Hs & Hin)].
  - unfold processSchema in Hin |- *.
    destruct (Remote.listTables api _ _) as [tables|e] eqn:Htables.
    + apply in_app_iff in Hin as [Hin | Hin]; [by left|].
      right. exists schema. split; [by left|].
      unfold processSchema. by rewrite Htables.
    + by left.
  - right. exists schema'. split; [by right|done].
Qed.

Lemma processCatalog_In total c catalog asset :
  In asset (allAssets (processCatalog MAX_SCHEMAS_PER_CATALOG api envId total
                                      c catalog)) ->
  In asset (allAssets c)
  \/ discoveredIn MAX_SCHEMAS_PER_CATALOG api envId catalog asset.
Proof.
  unfold processCatalog.
  destruct (Remote.listSchemas api (Catalog.name catalog)) as [schemas|e]
    eqn:Hschemas; [|by left].
  cbv zeta. unfold cacheSet. simpl. intros Hin.
  apply processSchemas_In in Hin as [Hin | (schema & Hschema & Hin)];
    [by left|].
  right. apply processSchema_In in Hin as [[] | (obj & Hobj)].
  exists schemas, schema, obj. done.
Qed.

Lemma loop_In total catalogs c asset :
  In asset (allAssets (fold_left (processCatalog MAX_SCHEMAS_PER_CATALOG api
                                                 envId total) catalogs c)) ->
  In asset (allAssets c)
  \/ exists catalog,
      In catalog catalogs
      /\ discoveredIn MAX_SCHEMAS_PER_CATALOG api envId catalog asset.
Proof.
  revert c. induction catalogs as [|catalog catalogs IH]; intros c Hin;
    [by left|].
  simpl in Hin. apply IH in Hin as [Hin | (catalog' & Hc & Hin)].
  - apply processCatalog_In in Hin as [Hin | Hin]; [by left|].
    right. exists catalog. split; [by left|done].
  - right. exists catalog'. split; [by right|done].
Qed.

Lemma discoveredIn_shape catalog asset :
  discoveredIn MAX_SCHEMAS_PER_CATALOG api envId catalog asset ->
  Asset.environmentId asset = envId
  /\ Asset.catalog_name asset = Catalog.name catalog
  /\ In (Asset.assetType asset) ["table"; "volume"; "function"; "model"]
  /\ (exists tags, Asset.tags asset = Some tags)
  /\ (Asset.assetType asset <> "table" -> Asset.tags asset = Some ∅)
  /\ (exists fullName, Asset.fullName asset = Some fullName).
Proof.
  intros (schemas & schema & obj & _ & _ & Hcases).
  assert (Hfull : forall type tags,
             exists fullName,
               Asset.fullName (mkAsset envId type catalog schema tags obj)
               = Some fullName).
  { intros type tags. simpl. unfold assetFullName, Js.or.
    destruct (Js.truthy (Js.text (RemoteObject.full_name obj))) eqn:Htruthy;
      [|eauto].
    destruct (Js.text (RemoteObject.full_name obj)); [eauto|discriminate]. }
  destruct Hcases as [(tables & _ & _ & ->) | [[_ ->] | [[_ ->] | [_ ->]]]];
    (split; [reflexivity|]); (split; [reflexivity|]);
    (split; [simpl; tauto|]); (split; [eexists; reflexivity|]);
    (split; [|apply Hfull]); simpl; intros Hne; done.
Qed.

End CrawlFacts.

Section CrawlContentFacts.

Import Discovery DiscoverySpec CrawlSpec.

Variable MAX_SCHEMAS_PER_CATALOG : Z.
Variable api : Remote.t.
Variable envId : string.

Lemma processSchema_app catalog acc schema :
  processSchema api envId catalog acc schema
  = acc ++ schemaAssets api envId catalog schema.
Proof.
  unfold processSchema, schemaAssets. cbv zeta.
  destruct (Remote.listTables api _ _); [done|by rewrite app_nil_r].
Qed.

Lemma processSchemas_app catalog schemas acc :
  fold_left (processSchema api envId catalog) schemas acc
  = acc ++ flat_map (schemaAssets api envId catalog) schemas.
Proof.
  revert acc. induction schemas as [|schema schemas IH]; intros acc; simpl.
  - by rewrite app_nil_r.
  - rewrite IH, processSchema_app. by rewrite <- app_assoc.
Qed.

Lemma processCatalog_content total c catalog :
  let c' := processCatalog MAX_SCHEMAS_PER_CATALOG api envId total c catalog in
  allAssets c'
  = allAssets c ++ catalogAssets MAX_SCHEMAS_PER_CATALOG api envId catalog
  /\ catalogsProcessed c'
     = catalogsProcessed c + (if schemasListed api catalog then 1 else 0)
  /\ exists more, published envId c' = published envId c ++ more.
Proof.
  unfold processCatalog, catalogAssets, schemasListed.
  destruct (Remote.listSchemas api (Catalog.name catalog)) as [schemas|e].
  - cbv zeta. rewrite published_progress, published_assets. simpl.
    rewrite processSchemas_app. split; [done|]. split; [lia|]. by eexists.
  - simpl. rewrite app_nil_r. split; [done|]. split; [lia|].
    exists []. by rewrite app_nil_r.
Qed.

Lemma loop_content total catalogs c :
  let c' := fold_left (processCatalog MAX_SCHEMAS_PER_CATALOG api envId total)
                      catalogs c in
  allAssets c'
  = allAssets c
    ++ flat_map (catalogAssets MAX_SCHEMAS_PER_CATALOG api envId) catalogs
  /\ catalogsProcessed c'
     = catalogsProcessed c
       + length (List.filter (schemasListed api) catalogs)
  /\ exists more, published envId c' = published envId c ++ more.
Proof.
  revert c. induction catalogs as [|catalog catalogs IH]; intros c;
    cbn [fold_left flat_map List.filter].
  - rewrite app_nil_r. split; [done|]. split; [simpl; lia|].
    exists []. by rewrite app_nil_r.
  - destruct (processCatalog_content total c catalog)
      as (Hassets & Hcount & more & Hmore).
    destruct (IH (processCatalog MAX_SCHEMAS_PER_CATALOG api envId total c
                                 catalog))
      as (Hassets' & Hcount' & more' & Hmore').
    rewrite Hassets', Hcount', Hmore', Hassets, Hcount, Hmore.
    split; [by rewrite <- app_assoc|]. split.
    + destruct (schemasListed api catalog); simpl; lia.
    + exists (more ++ more'). by rewrite <- app_assoc.
Qed.

Lemma catalogAssets_table catalog schemas schema tables table :
  Remote.listSchemas api (Catalog.name catalog) = Js.Ok schemas ->
  In schema (slice0 schemas MAX_SCHEMAS_PER_CATALOG) ->
  Remote.listTables api (Catalog.name catalog) (Schema.name schema)
  = Js.Ok tables ->
  In table tables ->
  In (mkTable envId catalog schema table)
     (catalogAssets MAX_SCHEMAS_PER_CATALOG api envId catalog).
Proof.
  intros Hschemas Hschema Htables Htable. unfold catalogAssets.
  rewrite Hschemas. apply in_flat_map. exists schema. split; [done|].
  unfold schemaAssets. cbv zeta. rewrite Htables.
  apply in_or_app. left. by apply in_map.
Qed.

End CrawlContentFacts.

Section SelectionClaims.

Import Discovery DiscoverySpec CrawlSpec.

(** C4.  For every list of catalogs that the remote lists and every set
    of priority catalogs (those whose name, case-insensitively, is
    referenced by an agreement's shares), the crawl selects all the
    priority catalogs, none dropped, followed by the first
    [MAX_CATALOGS - #priority] other catalogs in listing order, and these
    are the catalogs it scans: the first progress record announces their
    number and the number of priority catalogs, the assets it returns are
    exactly what these catalogs hold in their visited schemas, catalog by
    catalog in that order, every table listed there is returned, no asset
    of another catalog is, and the number of catalogs processed is the
    number of selected catalogs whose schemas could be listed.  With 50
    catalogs of which 3 are priority and [MAX_CATALOGS = 10], these are
    exactly the 3 priority catalogs plus the first 7 others, 10 in
    total. *)
Theorem priority_catalogs_always_scanned
    (MAX_CATALOGS MAX_SCHEMAS_PER_CATALOG : Z)
    (toLowerCase : string -> string) (api : Remote.t) (envId : string)
    (priorityCatalogs : list string) (catalogs : list Catalog.t) :
  Remote.listCatalogs api = Js.Ok catalogs ->
  let priority := isPriority toLowerCase priorityCatalogs in
  let prioritized := List.filter priority catalogs in
  let others := List.filter (fun c => negb (priority c)) catalogs in
  let scanned :=
    catalogsToScan MAX_CATALOGS toLowerCase priorityCatalogs catalogs in
  let run :=
    _fetchAllAssets MAX_CATALOGS MAX_SCHEMAS_PER_CATALOG toLowerCase api envId
                    priorityCatalogs in
  scanned
  = prioritized
      ++ firstn (Z.to_nat (MAX_CATALOGS - Z.of_nat (length prioritized))) others
  /\ (forall catalog,
        In catalog catalogs ->
        (exists share,
            In share priorityCatalogs
            /\ toLowerCase share = toLowerCase (Catalog.name catalog)) ->
        In catalog scanned)
  /\ length scanned
     = length prioritized
       + Nat.min (Z.to_nat (MAX_CATALOGS - Z.of_nat (length prioritized)))
                 (length others)
  /\ (exists first,
        head (published envId run) = Some first
        /\ DiscoveryProgress.isLoading first = true
        /\ DiscoveryProgress.totalCatalogs first = Some (length scanned)
        /\ DiscoveryProgress.priorityCatalogs first
           = Some (length prioritized))
  /\ allAssets run
     = flat_map (catalogAssets MAX_SCHEMAS_PER_CATALOG api envId) scanned
  /\ (forall catalog schemas schema tables table,
        In catalog scanned ->
        Remote.listSchemas api (Catalog.name catalog) = Js.Ok schemas ->
        In schema (slice0 schemas MAX_SCHEMAS_PER_CATALOG) ->
        Remote.listTables api (Catalog.name catalog) (Schema.name schema)
        = Js.Ok tables ->
        In table tables ->
        In (mkTable envId catalog schema table) (allAssets run))
  /\ (forall asset,
        In asset (allAssets run) ->
        exists catalog,
          In catalog scanned
          /\ Asset.catalog_name asset = Catalog.name catalog)
  /\ catalogsProcessed run = length (List.filter (schemasListed api) scanned)
  /\ (length catalogs = 50 -> length prioritized = 3 -> MAX_CATALOGS = 10%Z ->
      scanned = prioritized ++ firstn 7 others /\ length scanned = 10).
Proof.
  intros Hlist priority prioritized others scanned run.
  assert (Hscan : scanned
                  = prioritized
                      ++ firstn (Z.to_nat (MAX_CATALOGS
                                           - Z.of_nat (length prioritized)))
                                others)
    by apply catalogsToScan_filter.
  assert (Hrun : allAssets run
                 = flat_map (catalogAssets MAX_SCHEMAS_PER_CATALOG api envId)
                            scanned
                 /\ catalogsProcessed run
                    = length (List.filter (schemasListed api) scanned)
                 /\ exists more,
                     published envId run
                     = progressWrites envId
                         [(Cache.metadataKey envId,
                           progress true 0 (length scanned)
                                    (Some (length prioritized)) None
                                    (Remote.now api 0))]
                       ++ more).
  { unfold run, _fetchAllAssets. rewrite Hlist.
    rewrite (partitionCatalogs_filter toLowerCase priorityCatalogs catalogs).
    cbv zeta. fold scanned priority prioritized.
    set (start := cacheSet api (Cache.metadataKey envId)
                   (progress true 0 (length scanned)
                             (Some (length prioritized)) None)
                   (Crawl [] 0 [])).
    destruct (loop_content MAX_SCHEMAS_PER_CATALOG api envId (length scanned)
                scanned start) as (Hassets & Hcount & more & Hmore).
    unfold cacheSet at 1 2. cbn [allAssets catalogsProcessed].
    split; [exact Hassets|]. split; [exact Hcount|].
    rewrite published_progress, published_assets, Hmore.
    eexists. unfold start, published, cacheSet. cbn [writes app length].
    by rewrite <- app_assoc. }
  destruct Hrun as (Hassets & Hcount & more & Hpublished).
  split; [exact Hscan|]. split; [|split; [|split; [|split; [|split;
    [|split; [|split]]]]]].
  - intros catalog Hin Href. rewrite Hscan.
    apply in_or_app. left. apply filter_In. split; [done|].
    by apply isPriority_referenced.
  - rewrite Hscan, length_app, length_firstn. done.
  - rewrite Hpublished. unfold progressWrites. simpl.
    rewrite String.eqb_refl. simpl. eexists. split; [reflexivity|]. done.
  - exact Hassets.
  - intros catalog schemas schema tables table Hin Hschemas Hschema Htables
      Htable. rewrite Hassets. apply in_flat_map. exists catalog.
    split; [done|]. by eapply catalogAssets_table.
  - intros asset Hin. rewrite Hassets in Hin.
    apply in_flat_map in Hin as (catalog & Hcatalog & Hin).
    exists catalog. split; [done|]. unfold catalogAssets in Hin.
    destruct (Remote.listSchemas api (Catalog.name catalog)); [|done].
    apply in_flat_map in Hin as (schema & _ & Hin).
    unfold schemaAssets in Hin. cbv zeta in Hin.
    destruct (Remote.listTables api _ _); [|done].
    repeat (apply in_app_or in Hin as [Hin|Hin]);
      by apply in_map_iff in Hin as (obj & <- & _).
  - exact Hcount.
  - intros H50 H3 ->. rewrite Hscan, H3. simpl.
    split; [done|]. rewrite length_app, length_firstn, H3.
    pose proof (filter_split_length priority catalogs) as Hsplit.
    fold prioritized in Hsplit. fold others in Hsplit. lia.
Qed.

Lemma priority_catalogs_always_scanned_witness :
  let run :=
    _fetchAllAssets 10 5 Samples.ascii_lower MoreSamples.fiftyCatalogApi
                    "prod" Samples.threeShares in
  map Catalog.name
      (catalogsToScan 10 Samples.ascii_lower Samples.threeShares
                      Samples.fiftyCatalogs)
  = ["c3"; "c10"; "c20"; "c0"; "c1"; "c2"; "c4"; "c5"; "c6"; "c7"]
  /\ map Asset.catalog_name (allAssets run)
     = ["c3"; "c10"; "c20"; "c0"; "c1"; "c2"; "c4"; "c5"; "c6"; "c7"]
  /\ catalogsProcessed run = 10.
Proof.
  intros run.
  destruct (priority_catalogs_always_scanned 10 5 Samples.ascii_lower
              MoreSamples.fiftyCatalogApi "prod" Samples.threeShares
              Samples.fiftyCatalogs eq_refl)
    as (_ & _ & _ & _ & Hassets & _ & _ & Hcount & Hinstance).
  destruct (Hinstance eq_refl) as [Hscanned _];
    [vm_compute; reflexivity|reflexivity|].
  split; [rewrite Hscanned; vm_compute; reflexivity|].
  split.
  - unfold run. rewrite Hassets, Hscanned. vm_compute. reflexivity.
  - unfold run. rewrite Hcount, Hscanned. vm_compute. reflexivity.
Defined.

End SelectionClaims.

Section CrawlClaims.

Import Discovery DiscoverySpec CrawlSpec.

(** X1.  Every asset a crawl returns was built from a record listed under
    a catalog selected for scanning and one of the visited schemas of that
    catalog; it carries the crawl's environment id, that catalog's name,
    one of the four asset types, a full name and a tags map, and the tags
    map of a volume, function or model is empty. *)
Theorem discovered_assets_shape (MAX_CATALOGS MAX_SCHEMAS_PER_CATALOG : Z)
    (toLowerCase : string -> string) (api : Remote.t) (envId : string)
    (priorityCatalogs : list string) (asset : Asset.t) :
  In asset
     (allAssets (_fetchAllAssets MAX_CATALOGS MAX_SCHEMAS_PER_CATALOG
                                 toLowerCase api envId priorityCatalogs)) ->
  (exists catalogs catalog,
      Remote.listCatalogs api = Js.Ok catalogs
      /\ In catalog (catalogsToScan MAX_CATALOGS toLowerCase priorityCatalogs
                                    catalogs)
      /\ discoveredIn MAX_SCHEMAS_PER_CATALOG api envId catalog asset)
  /\ Asset.environmentId asset = envId
  /\ In (Asset.assetType asset) ["table"; "volume"; "function"; "model"]
  /\ (exists tags, Asset.tags asset = Some tags)
  /\ (Asset.assetType asset <> "table" -> Asset.tags asset = Some ∅)
  /\ (exists fullName, Asset.fullName asset = Some fullName).
Proof.
  unfold _fetchAllAssets.
  destruct (Remote.listCatalogs api) as [catalogs|e] eqn:Hlist.
  - destruct (partitionCatalogs toLowerCase priorityCatalogs catalogs)
      as [prioritized others].
    cbv zeta. unfold cacheSet at 1 2. simpl. intros Hin.
    apply loop_In in Hin as [[] | (catalog & Hcatalog & Hin)].
    destruct (discoveredIn_shape _ _ _ _ _ Hin)
      as (Henv & _ & Htype & Htags & Hempty & Hfull).
    split; [|done]. by exists catalogs, catalog.
  - unfold cacheSet. simpl. intros [].
Qed.

Lemma discovered_assets_shape_witness :
  let assets :=
    allAssets (_fetchAllAssets 10 5 Samples.ascii_lower Samples.flaky "prod" []) in
  exists asset,
    In asset assets
    /\ Asset.environmentId asset = "prod"
    /\ Asset.assetType asset = "volume"
    /\ Asset.tags asset = Some ∅.
Proof.
  intros assets.
  assert (Hin : In (mkAsset "prod" "volume" (Catalog.Build "Sales" None)
                            (Schema.Build "s1") ∅
                            (RemoteObject.Build "v" (Js.Text "x.y.v") None))
                   assets).
  { vm_compute. right. left. reflexivity. }
  eexists. split; [exact Hin|].
  destruct (discovered_assets_shape 10 5 Samples.ascii_lower Samples.flaky
              "prod" [] _ Hin) as (_ & Henv & _ & _ & Hempty & _).
  split; [exact Henv|]. split; [reflexivity|].
  apply Hempty. discriminate.
Defined.

End CrawlClaims.

(** ** A crawl followed by [getAllShareTables] *)

Section CrawlCacheFacts.

Import Discovery DiscoverySpec CrawlSpec.

Variable MAX_CATALOGS MAX_SCHEMAS_PER_CATALOG : Z.
Variable toLowerCase : string -> string.
Variable api : Remote.t.
Variable envId : string.
Variable priorityCatalogs : list string.

Let run : crawl :=
  _fetchAllAssets MAX_CATALOGS MAX_SCHEMAS_PER_CATALOG toLowerCase api envId
                  priorityCatalogs.

Lemma applyWrites_app cache ws1 ws2 :
  applyWrites cache (ws1 ++ ws2) = applyWrites (applyWrites cache ws1) ws2.
Proof. unfold applyWrites. apply fold_left_app. Qed.

(** A completed crawl ends with the write of its array and of the final
    progress record. *)
Lemma completed_writes catalogs :
  Remote.listCatalogs api = Js.Ok catalogs ->
  exists before final,
    writes run
    = before
        ++ [(Cache.cacheKey envId,
             Cache.Assets (allAssets run) (completedAt api run));
            (Cache.metadataKey envId, Cache.Progress final)].
Proof.
  intros Hlist. unfold completedAt, run, _fetchAllAssets. rewrite Hlist.
  destruct (partitionCatalogs toLowerCase priorityCatalogs catalogs)
    as [prioritized others].
  cbv zeta.
  set (c := fold_left _ _ _).
  exists (writes c). eexists.
  unfold cacheSet, progress. simpl. rewrite <- app_assoc. simpl.
  rewrite !length_app. simpl.
  replace (length (writes c) + 2 - 2) with (length (writes c)) by lia.
  reflexivity.
Qed.

Lemma completed_cache catalogs cache :
  Remote.listCatalogs api = Js.Ok catalogs ->
  applyWrites cache (writes run) !! Cache.cacheKey envId
  = Some (Cache.Assets (allAssets run) (completedAt api run)).
Proof.
  intros Hlist. destruct (completed_writes catalogs Hlist)
    as (before & final & ->).
  rewrite applyWrites_app. simpl.
  rewrite lookup_insert_ne
    by (intros Heq; by apply (cacheKey_not_metadataKey envId)).
  apply lookup_insert_eq.
Qed.

End CrawlCacheFacts.

Section CrawlCacheClaims.

Import Discovery DiscoverySpec CrawlSpec SingleFlight.

(** X2.  Once a crawl whose catalog listing succeeded has made its writes,
    a call of [getAllShareTables] for the environment within [CACHE_TTL] of
    the crawl's last asset write is answered at once with the very array
    the crawl returned, and starts no crawl and registers no marker. *)
Theorem completed_crawl_is_served (MAX_CATALOGS MAX_SCHEMAS_PER_CATALOG : Z)
    (toLowerCase : string -> string) (api : Remote.t) (envId : string)
    (priorityCatalogs : list string) (catalogs : list Catalog.t)
    (s : state) (caller : nat) (priorityCatalogs' : list string) (now : Z) :
  let run :=
    _fetchAllAssets MAX_CATALOGS MAX_SCHEMAS_PER_CATALOG toLowerCase api envId
                    priorityCatalogs in
  let after :=
    State (applyWrites (cache s) (writes run)) (activeRequests s) (started s)
          (settled s) (tasks s) in
  Remote.listCatalogs api = Js.Ok catalogs ->
  (now - completedAt api run < Cache.CACHE_TTL)%Z ->
  getAllShareTables caller envId priorityCatalogs' now after
  = setTask caller (Settled (Js.Ok (allAssets run))) after.
Proof.
  intros run after Hlist Hfresh.
  unfold getAllShareTables, Cache.freshAssets.
  change (cache after) with (applyWrites (cache s) (writes run)).
  unfold run at 1.
  rewrite (completed_cache MAX_CATALOGS MAX_SCHEMAS_PER_CATALOG toLowerCase
             api envId priorityCatalogs catalogs (cache s) Hlist).
  fold run. by rewrite (proj2 (Z.ltb_lt _ _) Hfresh).
Qed.

Lemma completed_crawl_is_served_witness :
  let run := _fetchAllAssets 10 5 Samples.ascii_lower Samples.flaky "prod" [] in
  (1000 - completedAt Samples.flaky run < Cache.CACHE_TTL)%Z
  /\ tasks (getAllShareTables 7 "prod" [] 1000
              (State (applyWrites ∅ (writes run)) ∅ [] ∅ ∅)) !! 7
     = Some (Settled (Js.Ok (allAssets run))).
Proof.
  intros run.
  assert (Hfresh : (1000 - completedAt Samples.flaky run < Cache.CACHE_TTL)%Z)
    by (vm_compute; reflexivity).
  split; [exact Hfresh|].
  refine (eq_trans
            (f_equal (fun st => tasks st !! 7)
               (completed_crawl_is_served 10 5 Samples.ascii_lower
                  Samples.flaky "prod" [] _ initial 7 [] 1000 eq_refl Hfresh))
            _).
  apply lookup_insert_eq.
Defined.

(** X3.  A crawl whose catalog listing fails returns an empty array and
    writes only the error record: the asset list cached for the
    environment, if any, stays as it was, and the loading status reports
    [isLoading = false] with the error message. *)
Theorem failed_crawl_keeps_cache (MAX_CATALOGS MAX_SCHEMAS_PER_CATALOG : Z)
    (toLowerCase : string -> string) (api : Remote.t) (envId : string)
    (priorityCatalogs : list string) (e : Js.error)
    (cache : gmap string Cache.entry) :
  let run :=
    _fetchAllAssets MAX_CATALOGS MAX_SCHEMAS_PER_CATALOG toLowerCase api envId
                    priorityCatalogs in
  Remote.listCatalogs api = Js.Throw e ->
  allAssets run = []
  /\ applyWrites cache (writes run) !! Cache.cacheKey envId
     = cache !! Cache.cacheKey envId
  /\ (forall now,
        Cache.freshAssets (applyWrites cache (writes run)) envId now
        = Cache.freshAssets cache envId now)
  /\ getLoadingStatus (applyWrites cache (writes run)) envId
     = failedState (Js.message e) (Remote.now api 0).
Proof.
  intros run Hlist. unfold run, _fetchAllAssets. rewrite Hlist.
  unfold cacheSet, applyWrites, failed, failedState. simpl.
  assert (Hne : Cache.metadataKey envId <> Cache.cacheKey envId)
    by (intros Heq; by apply (cacheKey_not_metadataKey envId)).
  split; [done|]. split; [by rewrite lookup_insert_ne|]. split.
  - intros now. unfold Cache.freshAssets. by rewrite lookup_insert_ne.
  - unfold getLoadingStatus. by rewrite lookup_insert_eq.
Qed.

Lemma failed_crawl_keeps_cache_witness :
  let run :=
    _fetchAllAssets 10 5 Samples.ascii_lower Samples.unreachable "prod" [] in
  let cache : gmap string Cache.entry :=
    {[ Cache.cacheKey "prod" := Cache.Assets [Samples.untagged] 0 ]} in
  Remote.listCatalogs Samples.unreachable
  = Js.Throw (Js.HttpError (Some 500%Z) "boom")
  /\ Cache.freshAssets (applyWrites cache (writes run)) "prod" 1000
     = Some [Samples.untagged].
Proof.
  intros run cache. split; [reflexivity|].
  destruct (failed_crawl_keeps_cache 10 5 Samples.ascii_lower
              Samples.unreachable "prod" [] _ cache eq_refl)
    as (_ & _ & Hfresh & _).
  rewrite Hfresh. vm_compute. reflexivity.
Defined.

End CrawlCacheClaims.

(** ** Progress reads, error counter and request spacing *)

Section ReadsClaims.

Import Discovery DiscoverySpec.



End ReadsClaims.

Section TransportMoreFacts.

Import Transport TransportSpec.
Local Open Scope Q_scope.

Lemma throttle_errors w : consecutiveErrors (throttle w) = consecutiveErrors w.
Proof. unfold throttle. by destruct (Qlt_le_dec _ _). Qed.

Lemma invoke_errors {A} (fn : nat -> Q * Js.result A) w outcome w' :
  invoke fn (throttle w) = (outcome, w') ->
  consecutiveErrors w' = consecutiveErrors w.
Proof.
  unfold invoke. destruct (fn (attempts (throttle w))) as [duration o].
  intros [= _ <-]. exact (throttle_errors w).
Qed.

End TransportMoreFacts.

Section TransportMoreClaims.

Import Transport TransportSpec.
Local Open Scope Q_scope.

(** X5.  An error that is not an HTTP 429 is thrown to the caller after a
    single invocation of the thunk, whatever the retry budget: nothing is
    retried, no backoff is announced and the consecutive-error counter is
    left as it was. *)
Theorem other_errors_are_not_retried {A} (fn : nat -> Q * Js.result A)
    (retries : nat) (w : world) (e : Js.error) :
  snd (fn (attempts w)) = Js.Throw e ->
  is429 e = false ->
  fst (rateLimitedRequest fn retries w) = Js.Throw e
  /\ attempts (snd (rateLimitedRequest fn retries w)) = S (attempts w)
  /\ backoffs (snd (rateLimitedRequest fn retries w)) = backoffs w
  /\ consecutiveErrors (snd (rateLimitedRequest fn retries w))
     = consecutiveErrors w.
Proof.
  intros Hfn Hother.
  destruct retries as [|retries]; simpl;
    destruct (invoke fn (throttle w)) as [outcome w1] eqn:Hinv;
    pose proof (invoke_errors fn w outcome w1 Hinv) as Herr;
    apply invoke_inv in Hinv as (Hout & Hatt & Hback);
    rewrite Hfn in Hout; subst outcome; rewrite ?Hother; simpl; done.
Qed.

Lemma other_errors_are_not_retried_witness :
  let notFound : nat -> Q * Js.result unit :=
    fun _ => (5, Js.Throw (Js.HttpError (Some 404%Z) "Not Found")) in
  is429 (Js.HttpError (Some 404%Z) "Not Found") = false
  /\ attempts (snd (rateLimitedRequest notFound DEFAULT_RETRIES initial)) = 1%nat.
Proof.
  intros notFound.
  assert (Hother : is429 (Js.HttpError (Some 404%Z) "Not Found") = false)
    by reflexivity.
  split; [exact Hother|].
  exact (proj1 (proj2 (other_errors_are_not_retried notFound DEFAULT_RETRIES
                         initial _ eq_refl Hother))).
Defined.

End TransportMoreClaims.

(** ** Concurrent calls of [rateLimitedRequest] *)

Section TransportLoopFacts.

Import TransportLoop TransportLoopSpec.
Local Open Scope Q_scope.

Context {A : Type}.

Lemma run_invariant (P : state A -> Prop) :
  (forall s ev, P s -> P (step s ev)) ->
  forall events s, P s -> P (run s events).
Proof.
  intros Hstep events. unfold run.
  induction events as [|ev events IH]; intros s Hs; simpl; [done|].
  by apply IH, Hstep.
Qed.

Lemma sinceReset_snoc notes n count :
  sinceReset (notes ++ [n]) count
  = match n with
    | RateLimited _ _ => S (sinceReset notes count)
    | _ => 0%nat
    end.
Proof.
  revert count. induction notes as [|n' notes IH]; intros count; simpl.
  - by destruct n.
  - destruct n'; by rewrite IH.
Qed.







Lemma suspend_counted id (f : frame A) s :
  (forall result, f <> Returned result) ->
  (forall retries since delay, f <> BackingOff retries since delay) ->
  counted s -> counted (suspend id f s).
Proof.
  intros Hreturned Hbacking (Hcount & Hdone & Hback). split; [done|].
  split; simpl.
  - intros id' result. destruct (decide (id = id')) as [<-|Hne].
    + rewrite lookup_insert_eq. intros [= ->]. by destruct (Hreturned result).
    + rewrite lookup_insert_ne by done. apply Hdone.
  - intros id' retries since delay. destruct (decide (id = id')) as [<-|Hne].
    + rewrite lookup_insert_eq. intros [= ->].
      by destruct (Hbacking retries since delay).
    + rewrite lookup_insert_ne by done. apply Hback.
Qed.

Lemma send_counted id retries seen errors (s : state A) :
  counted s -> counted (send id retries seen errors s).
Proof.
  intros (Hcount & Hdone & Hback). split; [done|]. split; simpl.
  - intros id' result. destruct (decide (id = id')) as [<-|Hne].
    + by rewrite lookup_insert_eq.
    + rewrite lookup_insert_ne by done. apply Hdone.
  - intros id' retries' since delay. destruct (decide (id = id')) as [<-|Hne].
    + by rewrite lookup_insert_eq.
    + rewrite lookup_insert_ne by done. apply Hback.
Qed.

Lemma enter_counted id retries (s : state A) :
  counted s -> counted (enter id retries s).
Proof.
  intros Hs. unfold enter. destruct (Qlt_le_dec _ _).
  - by apply suspend_counted.
  - by apply send_counted.
Qed.

Lemma settle_counted id retries outcome (s : state A) :
  counted s -> counted (settle id retries outcome s).
Proof.
  intros (Hcount & Hdone & Hback). unfold settle.
  destruct outcome as [result|error].
  - split; [simpl; by rewrite sinceReset_snoc|]. split; simpl.
    + intros id' result'. destruct (decide (id = id')) as [<-|Hne].
      * intros _. apply in_or_app. right. by left.
      * rewrite lookup_insert_ne by done. intros H.
        apply in_or_app. left. by apply (Hdone _ _ H).
    + intros id' retries' since delay.
      destruct (decide (id = id')) as [<-|Hne].
      * by rewrite lookup_insert_eq.
      * rewrite lookup_insert_ne by done. intros H.
        destruct (Hback _ _ _ _ H) as (Hin & Hdelay & Hleft).
        split; [apply in_or_app; by left|done].
  - destruct (Transport.is429 error && (0 <? retries)%nat) eqn:Hretry.
    + apply andb_prop in Hretry as [_ Hleft%Nat.ltb_lt].
      split; [simpl; by rewrite sinceReset_snoc, Hcount|]. split; simpl.
      * intros id' result'. destruct (decide (id = id')) as [<-|Hne].
        -- by rewrite lookup_insert_eq.
        -- rewrite lookup_insert_ne by done. intros H.
           apply in_or_app. left. by apply (Hdone _ _ H).
      * intros id' retries' since delay.
        destruct (decide (id = id')) as [<-|Hne].
        -- rewrite lookup_insert_eq. intros [= <- <- <-].
           split; [apply in_or_app; right; by left|done].
        -- rewrite lookup_insert_ne by done. intros H.
           destruct (Hback _ _ _ _ H) as (Hin & Hdelay & Hleft').
           split; [apply in_or_app; by left|done].
    + by apply suspend_counted.
Qed.

Lemma step_counted (s : state A) ev : counted s -> counted (step s ev).
Proof.
  intros Hs. destruct ev as [ms|id retries|id|id outcome|]; simpl.
  - by destruct (Qle_bool 0 ms).
  - destruct (calls s !! id); [done|]. by apply enter_counted.
  - destruct (calls s !! id) as [[? ? ? ?|?|? ? ?|?|?]|]; try done.
    + destruct (Qle_bool _ _); [|done]. by apply send_counted.
    + destruct (Qle_bool _ _); [|done]. by apply enter_counted.
  - destruct (calls s !! id) as [[?|retries|?|?|?]|]; try done.
    by apply settle_counted.
  - destruct Hs as (Hcount & Hdone & Hback).
    split; [simpl; by rewrite sinceReset_snoc|]. split; simpl.
    + intros id result H. apply in_or_app. left. by apply (Hdone _ _ H).
    + intros id retries since delay H.
      destruct (Hback _ _ _ _ H) as (Hin & Hdelay & Hleft).
      split; [apply in_or_app; by left|done].
Qed.

Lemma initial_counted start : counted (@initial A start).
Proof.
  split; [done|]. split; simpl.
  - intros id result. by rewrite lookup_empty.
  - intros id retries since delay. by rewrite lookup_empty.
Qed.

End TransportLoopFacts.

Section TransportLoopClaims.

Import TransportLoop TransportLoopSpec.
Local Open Scope Q_scope.

Context {A : Type}.

(** X6.  The consecutive-error counter is shared by all calls of
    [rateLimitedRequest].  Whatever calls are made and however they
    interleave, the counter is the number of rate-limited answers that some
    call has decided to retry since a request of any call last succeeded or
    [clearCache] last ran.  A call that has returned has reset the counter,
    and a call that is backing off has raised it, by a delay of
    [min(1000 * 2^(3 - retries), 8000)] with [retries > 0]; the success of
    a request resets the counter at once.  So the counter does not tell how
    often one call has retried: in the run [interleaved], call 1 throws
    after one backoff while the counter is zero, and both of its requests
    were delayed as if nothing had failed. *)
Theorem error_counter_is_shared (start : Q) (events : list (event A)) :
  let s := run (initial start) events in
  consecutiveErrors s = sinceReset (history s) 0
  /\ (forall id result,
        calls s !! id = Some (Returned result) ->
        In (Succeeded id) (history s))
  /\ (forall id retries since backoffDelay,
        calls s !! id = Some (BackingOff retries since backoffDelay) ->
        In (RateLimited id backoffDelay) (history s)
        /\ backoffDelay = Transport.backoffDelay retries
        /\ (0 < retries)%nat)
  /\ (forall id retries result,
        calls s !! id = Some (InFlight retries) ->
        consecutiveErrors (step s (Settles id (Js.Ok result))) = 0%nat)
  /\ (forall id retries error,
        calls s !! id = Some (InFlight retries) ->
        consecutiveErrors (step s (Settles id (Js.Throw error)))
        = if Transport.is429 error && (0 <? retries)%nat
          then S (consecutiveErrors s)
          else consecutiveErrors s)
  /\ (let s := run (initial 0) interleaved in
      calls s !! 1%nat = Some (Thrown notFound)
      /\ backoffsOf 1 (history s) = [1000]
      /\ consecutiveErrors s = 0%nat
      /\ map errorsSeen (requestsOf 1 (requests s)) = [0%nat; 0%nat]).
Proof.
  intros s.
  assert (Hs : counted s).
  { apply run_invariant; [apply step_counted|apply initial_counted]. }
  destruct Hs as (Hcount & Hdone & Hback).
  split; [done|]. split; [done|]. split; [done|]. split; [|split].
  - intros id retries result Hid. simpl. by rewrite Hid.
  - intros id retries error Hid. simpl. rewrite Hid. simpl.
    by destruct (_ && _).
  - by vm_compute.
Qed.


End TransportLoopClaims.


(** ** More on the cached route handlers *)

Section RoutesMoreFacts.

Import Routes RoutesSpec.


Lemma validateAsset_flags asset agreements r :
  Evaluator.validateAsset asset agreements = Js.Ok r ->
  ValidationResult.compliant r
  = (length (ValidationResult.violations r) =? 0)%nat
  /\ ValidationResult.environmentId r = Asset.environmentId asset.
Proof.
  rewrite validateAsset_spec.
  destruct (EvaluatorSpec.evaluationError asset agreements); [done|].
  by intros [= <-].
Qed.

Lemma validateAsset_names asset agreements r :
  Evaluator.validateAsset asset agreements = Js.Ok r ->
  ValidationResult.assetName r = Asset.name asset
  /\ ValidationResult.fullName r = Asset.fullName asset.
Proof.
  rewrite validateAsset_spec.
  destruct (EvaluatorSpec.evaluationError asset agreements); [done|].
  by intros [= <-].
Qed.

Lemma validateEach_cons agreements asset assets :
  validateEach agreements (asset :: assets)
  = match Evaluator.validateAsset asset agreements with
    | Js.Throw e => Js.Throw e
    | Js.Ok r =>
        match validateEach agreements assets with
        | Js.Throw e => Js.Throw e
        | Js.Ok rs => Js.Ok (r :: rs)
        end
    end.
Proof.
  unfold validateEach. simpl. unfold mbind, result_bind.
  destruct (Evaluator.validateAsset asset agreements); simpl; [|done].
  by destruct (mapM _ assets).
Qed.

Lemma validateEach_Forall2 agreements assets results :
  validateEach agreements assets = Js.Ok results ->
  Forall2 (fun asset r => Evaluator.validateAsset asset agreements = Js.Ok r)
          assets results.
Proof.
  revert results. induction assets as [|asset assets IH]; intros results.
  - intros [= <-]. constructor.
  - rewrite validateEach_cons.
    destruct (Evaluator.validateAsset asset agreements) as [r|e] eqn:Hr;
      [|done].
    destruct (validateEach agreements assets) as [rs|e] eqn:Hrs; [|done].
    intros [= <-]. constructor; [done|]. by apply IH.
Qed.

Lemma validateEach_no_agreements assets :
  exists results, validateEach [] assets = Js.Ok results.
Proof.
  induction assets as [|asset assets [rs IH]]; [by eexists|].
  rewrite validateEach_cons, IH, validateAsset_spec. simpl. by eexists.
Qed.

Lemma Forall2_In_r {A B} (P : A -> B -> Prop) xs ys y :
  Forall2 P xs ys -> In y ys -> exists x, In x xs /\ P x y.
Proof.
  induction 1 as [|x y' xs ys Hxy _ IH]; [done|].
  intros [<- | Hin].
  - exists x. split; [by left|done].
  - destruct (IH Hin) as (x' & Hx' & HP). exists x'. split; [by right|done].
Qed.

Lemma count_split results :
  countCompliant results + countNonCompliant results = length results.
Proof.
  unfold countCompliant, countNonCompliant.
  induction results as [|r results IH]; simpl; [done|].
  destruct (ValidationResult.compliant r); simpl; lia.
Qed.

End RoutesMoreFacts.

Section RoutesMoreClaims.

Import Routes RoutesSpec.



(** X9.  When [validateAsset] throws for one of the fetched assets, each of
    [GET /violations], [POST /validate-all] and [GET /overview] answers
    with status 500 and the error's message, and stores nothing in
    [validationCache]. *)
Theorem evaluation_failure_is_not_cached (roundPercent : nat -> nat -> nat)
    (environments : list string) (agreements : list Agreement.t)
    (getAllShareTables : string -> Js.result (list Asset.t))
    (now built stored : Z) (w : world) (e : Js.error) :
  validateEach agreements (fst (fetchAssets environments getAllShareTables w))
  = Js.Throw e ->
  (fresh w "violations" now = None ->
   fst (getViolations environments agreements getAllShareTables now stored w)
   = Status500 "Failed to get violations" (Js.message e)
   /\ validationCache
        (snd (getViolations environments agreements getAllShareTables
                            now stored w))
      = validationCache w)
  /\ (fresh w "validate_all" now = None ->
      fst (postValidateAll environments agreements getAllShareTables
                           now stored w)
      = Status500 "Failed to validate all assets" (Js.message e)
      /\ validationCache
           (snd (postValidateAll environments agreements getAllShareTables
                                 now stored w))
         = validationCache w)
  /\ (fresh w "compliance_overview" now = None ->
      fst (getOverview roundPercent environments agreements getAllShareTables
                       now built stored w)
      = Status500 "Failed to get compliance overview" (Js.message e)
      /\ validationCache
           (snd (getOverview roundPercent environments agreements
                             getAllShareTables now built stored w))
         = validationCache w).
Proof.
  intros Hthrow.
  pose proof (fetchAssets_log environments getAllShareTables w) as [Hcache _].
  unfold getViolations, postValidateAll, getOverview.
  destruct (fetchAssets environments getAllShareTables w) as [assets w1].
  simpl in Hthrow, Hcache. split; [|split]; intros ->.
  - destruct agreements as [|agreement agreements'].
    + destruct (validateEach_no_agreements assets) as [rs Hrs]. congruence.
    + change (length (agreement :: agreements') =? 0)%nat with false. cbv iota.
      by rewrite Hthrow.
  - by rewrite Hthrow.
  - destruct assets as [|asset assets]; [discriminate Hthrow|].
    change (length (asset :: assets) =? 0)%nat with false. cbv iota.
    by rewrite Hthrow.
Qed.

Lemma evaluation_failure_is_not_cached_witness :
  let discovered : string -> Js.result (list Asset.t) :=
    fun _ => Js.Ok [Samples.untagged] in
  validateEach [malformed] (fst (fetchAssets ["prod"] discovered initial))
  = Js.Throw EvaluatorSpec.typeError
  /\ fresh initial "validate_all" 0 = None
  /\ validationCache
       (snd (postValidateAll ["prod"] [malformed] discovered 0 1 initial))
     = ∅.
Proof.
  intros discovered.
  assert (Hthrow : validateEach [malformed]
                     (fst (fetchAssets ["prod"] discovered initial))
                   = Js.Throw EvaluatorSpec.typeError)
    by (vm_compute; reflexivity).
  assert (Hmiss : fresh initial "validate_all" 0 = None) by reflexivity.
  split; [exact Hthrow|]. split; [exact Hmiss|].
  exact (proj2 (proj1 (proj2 (evaluation_failure_is_not_cached
                                (fun _ _ => 0) ["prod"] [malformed] discovered
                                0 0 1 initial _ Hthrow)) Hmiss)).
Defined.

(** X10.  On a cache miss with at least one agreement, the response of
    [GET /violations] lists exactly the non-compliant results, in asset
    order; every listed result has at least one violation; [totalAssets]
    is the number of assets fetched, [violatingAssets] the number of
    results listed, and the two asset counts add up to the total. *)
Theorem violations_response_counts (environments : list string)
    (agreements : list Agreement.t)
    (getAllShareTables : string -> Js.result (list Asset.t))
    (now stored : Z) (w : world) (results : list ValidationResult.t) :
  let allAssets := fst (fetchAssets environments getAllShareTables w) in
  fresh w "violations" now = None ->
  agreements <> [] ->
  validateEach agreements allAssets = Js.Ok results ->
  exists violating compliantAssets,
    fst (getViolations environments agreements getAllShareTables now stored w)
    = Json (Violations violating (length allAssets) compliantAssets
                       (length violating) None)
    /\ violating
       = List.filter (fun r => negb (ValidationResult.compliant r)) results
    /\ Forall (fun r => ValidationResult.compliant r = false
                        /\ ValidationResult.violations r <> []) violating
    /\ compliantAssets + length violating = length allAssets
    /\ compliantAssets = countCompliant results.
Proof.
  intros allAssets Hmiss Hne Hresults. unfold getViolations. rewrite Hmiss.
  destruct agreements as [|agreement agreements']; [done|].
  change (length (agreement :: agreements') =? 0)%nat with false. cbv iota.
  pose proof (validateEach_Forall2 _ _ _ Hresults) as Hall.
  unfold allAssets in *.
  destruct (fetchAssets environments getAllShareTables w) as [assets w1].
  simpl in Hresults, Hall |- *. rewrite Hresults. simpl.
  set (violating := List.filter _ results).
  pose proof (count_split results) as Hsplit.
  unfold countNonCompliant in Hsplit. fold violating in Hsplit.
  pose proof (Forall2_length _ _ _ Hall) as Hlen.
  eexists _, _. split; [reflexivity|]. split; [done|]. split; [|lia].
  apply List.Forall_forall. intros r Hr.
  apply filter_In in Hr as [Hr Hflag]. apply negb_true_iff in Hflag.
  split; [done|].
  destruct (Forall2_In_r _ _ _ _ Hall Hr) as (asset & _ & Hasset).
  apply validateAsset_flags in Hasset as [Hflags _].
  rewrite Hflags in Hflag. intros Hnil. rewrite Hnil in Hflag. done.
Qed.

Lemma violations_response_counts_witness :
  let discovered : string -> Js.result (list Asset.t) :=
    fun _ => Js.Ok [Samples.untagged; Samples.orders "prod" {[ "PII" := "true" ]}] in
  fresh initial "violations" 0 = None
  /\ [Samples.piiAgreement] <> []
  /\ exists violating,
      fst (getViolations ["prod"] [Samples.piiAgreement] discovered 0 1 initial)
      = Json (Violations violating 2 1 1 None).
Proof.
  intros discovered.
  assert (Hmiss : fresh initial "violations" 0 = None) by reflexivity.
  assert (Hne : [Samples.piiAgreement] <> []) by discriminate.
  split; [exact Hmiss|]. split; [exact Hne|].
  destruct (violations_response_counts ["prod"] [Samples.piiAgreement]
              discovered 0 1 initial _ Hmiss Hne eq_refl)
    as (violating & compliantAssets & Hresponse & -> & _ & _ & ->).
  eexists. exact Hresponse.
Defined.

End RoutesMoreClaims.

(** ** The by-environment tally of [GET /overview] *)

Section ObjectFacts.

Lemma insertByIndex_Permutation {V} (entry : string * V) sorted :
  Permutation (Js.insertByIndex entry sorted) (entry :: sorted).
Proof.
  induction sorted as [|entry' sorted IH]; simpl; [done|].
  destruct (_ <=? _)%N; [done|].
  rewrite IH. apply perm_swap.
Qed.

Lemma filter_Permutation {A} (p : A -> bool) xs :
  Permutation (List.filter p xs ++ List.filter (fun x => negb (p x)) xs) xs.
Proof.
  induction xs as [|x xs IH]; simpl; [done|].
  destruct (p x); simpl.
  - by constructor.
  - rewrite <- Permutation_middle. by constructor.
Qed.

(** [Object.entries] enumerates every own property once. *)
Lemma ownEntries_Permutation {V} (obj : list (string * V)) :
  Permutation (Js.ownEntries obj) obj.
Proof.
  unfold Js.ownEntries.
  rewrite <- (filter_Permutation Js.isIndex obj) at 3.
  apply Permutation_app; [|done].
  induction (List.filter Js.isIndex obj) as [|entry entries IH]; simpl;
    [done|].
  rewrite insertByIndex_Permutation. by constructor.
Qed.

Lemma list_sum_Permutation xs ys :
  Permutation xs ys -> list_sum xs = list_sum ys.
Proof. induction 1; simpl; lia. Qed.

End ObjectFacts.

Section TallyFacts.

Import Routes RoutesSpec.

Lemma tally_keys stats r :
  let env := ValidationResult.environmentId r in
  ((In env (map fst stats) \/ Js.inherited env = true)
   /\ map fst (tally stats r) = map fst stats)
  \/ (~ In env (map fst stats) /\ Js.inherited env = false
      /\ map fst (tally stats r) = map fst stats ++ [env]).
Proof.
  induction stats as [|[env' entry] stats IH]; simpl.
  - destruct (Js.inherited (ValidationResult.environmentId r)) eqn:Hinherited.
    + left. split; [by right|done].
    + right. tauto.
  - destruct (String.eqb_spec env' (ValidationResult.environmentId r))
      as [->|Hne]; simpl.
    + left. tauto.
    + destruct IH as [[Hin ->] | (Hnot & Hown & ->)]; [left|right].
      * split; [|done]. destruct Hin as [Hin|Hin]; [left; by right|by right].
      * split; [|done]. intros [Heq | Hin]; [by apply Hne|done].
Qed.

Lemma tally_entries stats r env total compliant :
  NoDup (map fst stats) ->
  In (env, (total, compliant)) (tally stats r) ->
  (env <> ValidationResult.environmentId r
   /\ In (env, (total, compliant)) stats)
  \/ (env = ValidationResult.environmentId r
      /\ exists entry,
          (total, compliant) = bumped r entry
          /\ (In (env, entry) stats
              \/ (entry = (0, 0) /\ ~ In env (map fst stats)
                  /\ Js.inherited env = false))).
Proof.
  induction stats as [|[env' entry'] stats IH]; simpl; intros Hnodup.
  - destruct (Js.inherited (ValidationResult.environmentId r)) eqn:Hinherited;
      [done|].
    intros [[= <- <- <-] | []]. right. split; [done|].
    exists (0, 0). split; [done|]. right. tauto.
  - apply NoDup_cons in Hnodup as [Hfresh Hnodup].
    destruct (String.eqb_spec env' (ValidationResult.environmentId r))
      as [->|Hne]; simpl.
    + intros [[= <- <- <-] | Hin].
      * right. split; [done|]. exists entry'. split; [done|]. by left; left.
      * left. split; [|by right]. intros ->. apply Hfresh.
        apply list_elem_of_In, in_map_iff.
        by exists (ValidationResult.environmentId r, (total, compliant)).
    + intros [[= <- <-] | Hin].
      * left. split; [done|]. by left.
      * apply (IH Hnodup) in Hin as [[Hne' Hin] | (-> & entry & Hb & Hwhere)].
        -- left. split; [done|]. by right.
        -- right. split; [done|]. exists entry. split; [done|].
           destruct Hwhere as [Hin | (-> & Hnot & Hown)]; [by left; right|].
           right. split; [done|]. split; [|done].
           intros [Heq | Hin]; [by apply Hne|done].
Qed.

Lemma ofEnvironment_snoc env seen r :
  ofEnvironment env (seen ++ [r])
  = ofEnvironment env seen
    ++ (if String.eqb env (ValidationResult.environmentId r) then [r] else []).
Proof. unfold ofEnvironment. by rewrite List.filter_app. Qed.

Lemma countCompliant_app xs ys :
  countCompliant (xs ++ ys) = countCompliant xs + countCompliant ys.
Proof. unfold countCompliant. by rewrite List.filter_app, length_app. Qed.

Lemma tally_total stats r :
  (forall env, In env (map fst stats) -> Js.inherited env = false) ->
  list_sum (map (fun e => fst (snd e)) (tally stats r))
  = list_sum (map (fun e : string * (nat * nat) => fst (snd e)) stats)
    + (if Js.inherited (ValidationResult.environmentId r) then 0 else 1).
Proof.
  induction stats as [|[env entry] stats IH]; simpl; intros Hown.
  - by destruct (Js.inherited (ValidationResult.environmentId r)).
  - destruct (String.eqb_spec env (ValidationResult.environmentId r))
      as [<-|Hne]; simpl.
    + rewrite (Hown env) by (by left). lia.
    + rewrite IH by (intros; apply Hown; by right). lia.
Qed.

Lemma tally_tallied stats seen r :
  tallied stats seen -> tallied (tally stats r) (seen ++ [r]).
Proof.
  intros (Hnodup & Hcover & Hentries & Hsum). split; [|split; [|split]].
  - destruct (tally_keys stats r) as [[_ ->] | (Hnot & _ & ->)]; [done|].
    apply NoDup_app. split; [done|]. split.
    + intros env Henv ->%list_elem_of_singleton.
      by apply Hnot, list_elem_of_In.
    + apply NoDup_singleton.
  - intros r' Hr' Hown. apply in_app_iff in Hr' as [Hr' | Hr'];
      destruct (tally_keys stats r) as [[Hin ->] | (Hnot & _ & ->)].
    + by apply Hcover.
    + apply in_app_iff. left. by apply Hcover.
    + destruct Hr' as [<- | []]. destruct Hin as [Hin|Hin]; [done|congruence].
    + destruct Hr' as [<- | []]. apply in_app_iff. right. by left.
  - intros env total compliant Hin.
    apply (tally_entries _ _ _ _ _ Hnodup) in Hin
      as [[Hne Hin] | (-> & entry & Hb & Hwhere)].
    + rewrite ofEnvironment_snoc.
      rewrite (proj2 (String.eqb_neq _ _) Hne), app_nil_r. by apply Hentries.
    + rewrite ofEnvironment_snoc, String.eqb_refl, length_app,
        countCompliant_app.
      unfold bumped in Hb. injection Hb as -> ->. simpl.
      assert (Hentry : Js.inherited (ValidationResult.environmentId r) = false
                       /\ fst entry
                          = length (ofEnvironment
                                      (ValidationResult.environmentId r) seen)
                       /\ snd entry
                          = countCompliant
                              (ofEnvironment
                                 (ValidationResult.environmentId r) seen)).
      { destruct Hwhere as [Hin | (-> & Hnot & Hown)].
        - destruct entry as [t c].
          destruct (Hentries _ _ _ Hin) as (Hown & -> & -> & _). done.
        - assert (Hnone : ofEnvironment (ValidationResult.environmentId r) seen
                          = []).
          { unfold ofEnvironment.
            destruct (List.filter _ seen) as [|r' rest] eqn:Hfilter; [done|].
            assert (Hr' : In r' (List.filter
                                  (fun r0 =>
                                     String.eqb
                                       (ValidationResult.environmentId r)
                                       (ValidationResult.environmentId r0))
                                  seen))
              by (rewrite Hfilter; by left).
            apply filter_In in Hr' as [Hr' Heq%String.eqb_eq].
            exfalso. apply Hnot. rewrite Heq. apply Hcover; [done|].
            by rewrite <- Heq. }
          by rewrite Hnone. }
      destruct Hentry as (Hown & -> & ->). split; [done|].
      unfold countCompliant.
      destruct (ValidationResult.compliant r) eqn:Hflag; simpl;
        rewrite Hflag; simpl; repeat split; lia.
  - rewrite tally_total.
    + rewrite Hsum. unfold counted. rewrite List.filter_app, length_app.
      simpl. by destruct (Js.inherited (ValidationResult.environmentId r)).
    + intros env ([env' [total compliant]] & <- & Hin)%in_map_iff.
      by destruct (Hentries _ _ _ Hin) as [Hown _].
Qed.

Lemma fold_tally_tallied results stats seen :
  tallied stats seen ->
  tallied (fold_left tally results stats) (seen ++ results).
Proof.
  revert stats seen. induction results as [|r results IH]; intros stats seen H.
  - by rewrite app_nil_r.
  - simpl. replace (seen ++ r :: results) with ((seen ++ [r]) ++ results)
      by (by rewrite <- app_assoc).
    apply IH. by apply tally_tallied.
Qed.

Lemma environmentStats_totals roundPercent stats :
  map EnvironmentStats.totalAssets (environmentStats roundPercent stats)
  = map (fun e : string * (nat * nat) => fst (snd e)) (Js.ownEntries stats).
Proof.
  unfold environmentStats. rewrite map_map. apply map_ext.
  by intros [env [total compliant]].
Qed.

Lemma environmentStats_ids roundPercent stats :
  map EnvironmentStats.environmentId (environmentStats roundPercent stats)
  = map fst (Js.ownEntries stats).
Proof.
  unfold environmentStats. rewrite map_map. apply map_ext.
  by intros [env [total compliant]].
Qed.

Lemma countCompliant_le results : countCompliant results <= length results.
Proof. pose proof (count_split results). lia. Qed.

Lemma Forall2_In_l {A B} (P : A -> B -> Prop) xs ys x :
  Forall2 P xs ys -> In x xs -> exists y, In y ys /\ P x y.
Proof.
  induction 1 as [|x' y xs ys Hxy _ IH]; [done|].
  intros [<- | Hin].
  - exists y. split; [by left|done].
  - destruct (IH Hin) as (y' & Hy' & HP). exists y'. split; [by right|done].
Qed.

Lemma counted_all results :
  (forall r, In r results ->
             Js.inherited (ValidationResult.environmentId r) = false) ->
  counted results = results.
Proof.
  unfold counted. induction results as [|r results IH]; intros Hown; simpl;
    [done|].
  rewrite (Hown r) by (by left). simpl. f_equal. apply IH.
  intros r' Hr'. apply Hown. by right.
Qed.

End TallyFacts.

Section OverviewClaims.

Import Routes RoutesSpec.

(** X11.  On a cache miss with at least one asset fetched, the overview
    reports as [totalAssets] the number of assets fetched, and its
    compliant and non-compliant counts add up to it.  [byEnvironment] has
    exactly one entry for each environment that has an asset and whose id
    does not name a member of [Object.prototype]; an environment with such
    an id (["constructor"], say) gets no entry.  Each entry counts the
    results of its environment and the compliant ones among them, with a
    positive total, and the entries' totals add up to the number of
    results of the environments that have an entry, which is the overall
    total when no environment id is such a name. *)
Theorem overview_counts (roundPercent : nat -> nat -> nat)
    (environments : list string) (agreements : list Agreement.t)
    (getAllShareTables : string -> Js.result (list Asset.t))
    (now built stored : Z) (w : world) (results : list ValidationResult.t) :
  let detailedAssets := fst (fetchAssets environments getAllShareTables w) in
  fresh w "compliance_overview" now = None ->
  detailedAssets <> [] ->
  validateEach agreements detailedAssets = Js.Ok results ->
  exists overall byEnvironment,
    fst (getOverview roundPercent environments agreements getAllShareTables
                     now built stored w)
    = Json (Overview overall byEnvironment built)
    /\ Overall.totalAssets overall = length detailedAssets
    /\ Overall.compliantAssets overall = countCompliant results
    /\ Overall.compliantAssets overall + Overall.nonCompliantAssets overall
       = Overall.totalAssets overall
    /\ NoDup (map EnvironmentStats.environmentId byEnvironment)
    /\ (forall id,
          In id (map EnvironmentStats.environmentId byEnvironment)
          <-> Js.inherited id = false
              /\ exists asset,
                  In asset detailedAssets /\ Asset.environmentId asset = id)
    /\ (forall s,
          In s byEnvironment ->
          EnvironmentStats.totalAssets s
          = length (ofEnvironment (EnvironmentStats.environmentId s) results)
          /\ EnvironmentStats.compliantAssets s
             = countCompliant
                 (ofEnvironment (EnvironmentStats.environmentId s) results)
          /\ 0 < EnvironmentStats.totalAssets s
          /\ EnvironmentStats.compliantAssets s
             <= EnvironmentStats.totalAssets s
          /\ EnvironmentStats.compliancePercentage s
             = roundPercent (EnvironmentStats.compliantAssets s)
                            (EnvironmentStats.totalAssets s))
    /\ list_sum (map EnvironmentStats.totalAssets byEnvironment)
       = length (counted results)
    /\ ((forall asset,
            In asset detailedAssets ->
            Js.inherited (Asset.environmentId asset) = false) ->
        list_sum (map EnvironmentStats.totalAssets byEnvironment)
        = Overall.totalAssets overall).
Proof.
  intros detailedAssets Hmiss Hne Hresults. unfold getOverview.
  rewrite Hmiss. unfold detailedAssets in *.
  destruct (fetchAssets environments getAllShareTables w) as [assets w1].
  simpl in Hne, Hresults |- *.
  destruct assets as [|asset assets]; [done|].
  change (length (asset :: assets) =? 0)%nat with false. cbv iota.
  rewrite Hresults.
  pose proof (validateEach_Forall2 _ _ _ Hresults) as Hall.
  pose proof (Forall2_length _ _ _ Hall) as Hlen.
  pose proof (countCompliant_le results) as Hle.
  assert (Htallied : tallied (fold_left tally results []) results).
  { apply (fold_tally_tallied results [] []).
    split; [constructor|]. split; [done|]. split; done. }
  destruct Htallied as (Hnodup & Hcover & Hentries & Hsum).
  pose proof (ownEntries_Permutation (fold_left tally results [])) as Hperm.
  assert (Hsums : list_sum (map (fun e : string * (nat * nat) => fst (snd e))
                                (Js.ownEntries (fold_left tally results [])))
                  = length (counted results)).
  { rewrite <- Hsum. apply list_sum_Permutation. by apply Permutation_map. }
  eexists _, _. split; [reflexivity|]. cbn [Overall.totalAssets
    Overall.compliantAssets Overall.nonCompliantAssets].
  split; [done|]. split; [done|]. split; [lia|].
  rewrite environmentStats_ids, environmentStats_totals.
  split; [by rewrite Hperm|]. split; [|split; [|split]].
  - intros id. split.
    + intros Hid.
      apply (Permutation_in _ (Permutation_map fst Hperm)) in Hid.
      apply in_map_iff in Hid as ([env [total compliant]] & <- & Hin).
      destruct (Hentries _ _ _ Hin) as (Hown & -> & _ & Hpos).
      split; [done|]. simpl in Hpos |- *.
      destruct (ofEnvironment env results) as [|r rest] eqn:Hof;
        [simpl in Hpos; lia|].
      assert (Hr : In r (ofEnvironment env results))
        by (rewrite Hof; by left).
      apply filter_In in Hr as [Hr Heq%String.eqb_eq].
      destruct (Forall2_In_r _ _ _ _ Hall Hr) as (a & Ha & Hok).
      apply validateAsset_flags in Hok as [_ Henv].
      exists a. split; [done|]. congruence.
    + intros (Hown & a & Ha & <-).
      destruct (Forall2_In_l _ _ _ _ Hall Ha) as (r & Hr & Hok).
      apply validateAsset_flags in Hok as [_ Henv].
      apply (Permutation_in _ (Permutation_sym (Permutation_map fst Hperm))).
      rewrite <- Henv in *. by apply Hcover.
  - intros s Hs. unfold environmentStats in Hs.
    apply in_map_iff in Hs as ([env [total compliant]] & <- & Hin).
    apply (Permutation_in _ Hperm) in Hin.
    destruct (Hentries _ _ _ Hin) as (_ & -> & -> & Hpos). simpl.
    pose proof (countCompliant_le (ofEnvironment env results)) as Hle'.
    unfold percentage. rewrite (proj2 (Nat.ltb_lt _ _) Hpos).
    repeat split; done.
  - exact Hsums.
  - intros Hown. rewrite Hsums, counted_all; [simpl in Hlen |- *; lia|].
    intros r Hr. destruct (Forall2_In_r _ _ _ _ Hall Hr) as (a & Ha & Hok).
    apply validateAsset_flags in Hok as [_ ->]. by apply Hown.
Qed.

Lemma overview_counts_witness :
  let discovered : string -> Js.result (list Asset.t) :=
    fun env => Js.Ok [Samples.orders env ∅;
                      Samples.orders env {[ "PII" := "true" ]}] in
  fresh initial "compliance_overview" 0 = None
  /\ fst (fetchAssets ["prod"; "constructor"] discovered initial) <> []
  /\ exists overall byEnvironment,
      fst (getOverview (fun c t => c * 100 / t) ["prod"; "constructor"]
                       [Samples.piiAgreement] discovered 0 1 2 initial)
      = Json (Overview overall byEnvironment 1)
      /\ Overall.totalAssets overall = 4
      /\ list_sum (map EnvironmentStats.totalAssets byEnvironment) = 2.
Proof.
  intros discovered.
  assert (Hmiss : fresh initial "compliance_overview" 0 = None) by reflexivity.
  assert (Hne : fst (fetchAssets ["prod"; "constructor"] discovered initial)
                <> [])
    by discriminate.
  split; [exact Hmiss|]. split; [exact Hne|].
  destruct (overview_counts (fun c t => c * 100 / t) ["prod"; "constructor"]
              [Samples.piiAgreement] discovered 0 1 2 initial _ Hmiss Hne
              eq_refl)
    as (overall & byEnvironment & Hresponse & Htotal & _ & _ & _ & _ & _
        & Hsum & _).
  exists overall, byEnvironment. split; [exact Hresponse|].
  split; [rewrite Htotal; reflexivity|]. rewrite Hsum. reflexivity.
Defined.

End OverviewClaims.

(** ** [POST /validate/:assetId] *)

Section ValidateByIdFacts.

Import ValidateById.

Lemma split_nonempty sep s : split sep s <> [].
Proof.
  destruct s as [|c s]; simpl; [done|].
  destruct (Ascii.eqb c sep); [done|]. by destruct (split sep s).
Qed.

Lemma split_noColon s : noColon s = true -> split ":" s = [s].
Proof.
  induction s as [|c s IH]; simpl; [done|].
  intros [Hc Hs]%andb_prop. apply negb_true_iff in Hc. rewrite Hc.
  by rewrite (IH Hs).
Qed.

Lemma split_app a b :
  noColon a = true -> split ":" (a +:+ ":" +:+ b) = a :: split ":" b.
Proof.
  induction a as [|c a IH]; simpl; [done|].
  intros [Hc Ha]%andb_prop. apply negb_true_iff in Hc. rewrite Hc.
  by rewrite (IH Ha).
Qed.

Lemma split_parts s : Forall (fun part => noColon part = true) (split ":" s).
Proof.
  induction s as [|c s IH]; simpl.
  - by constructor.
  - destruct (Ascii.eqb c ":") eqn:Hc.
    + by constructor.
    + destruct (split ":" s) as [|part parts]; inversion IH; subst;
        constructor; simpl; rewrite ?Hc; auto.
Qed.

Lemma truthy_Some s : s <> EmptyString -> Js.truthy (Some s) = true.
Proof.
  intros Hs. unfold Js.truthy. apply negb_true_iff.
  by apply String.eqb_neq.
Qed.

Lemma truthy_inv v :
  Js.truthy v = true -> exists s, v = Some s /\ s <> EmptyString.
Proof.
  destruct v as [s|]; [|done]. simpl. intros Hs%negb_true_iff.
  exists s. split; [done|]. by apply String.eqb_neq.
Qed.

Lemma findTable_unique tables table fullName :
  In table tables ->
  Asset.fullName table = Some fullName ->
  NoDup (map Asset.fullName tables) ->
  findTable tables fullName = Some table.
Proof.
  unfold findTable. induction tables as [|t tables IH]; [done|].
  intros Hin Hname Hnodup. simpl in *. inversion Hnodup as [|? ? Hfresh Hrest]; subst.
  destruct Hin as [-> | Hin].
  - by rewrite bool_decide_eq_true_2.
  - rewrite bool_decide_eq_false_2; [by apply IH|].
    intros Ht. apply Hfresh. rewrite Ht, <- Hname.
    apply list_elem_of_In. by apply in_map.
Qed.

Lemma findTable_Some tables fullName table :
  findTable tables fullName = Some table ->
  In table tables /\ Asset.fullName table = Some fullName.
Proof.
  unfold findTable. intros [Hin Hname]%find_some.
  split; [done|]. by apply bool_decide_eq_true_1 in Hname.
Qed.

End ValidateByIdFacts.

Section ValidateByIdClaims.

Import ValidateById.

Variable agreements : list Agreement.t.
Variable getAllShareTables : string -> Js.result (list Asset.t).

(** X12.  An asset is found again under the id [envId:fullName]: when
    neither part is empty or holds a colon, the assets of the environment
    have distinct full names and the asset is among them,
    [POST /validate/:assetId] fetches that one environment and answers
    with [validateAsset]'s result for that asset. *)
Theorem validate_by_id_round_trip (envId fullName : string)
    (tables : list Asset.t) (table : Asset.t) (result : ValidationResult.t) :
  envId <> EmptyString -> noColon envId = true ->
  fullName <> EmptyString -> noColon fullName = true ->
  getAllShareTables envId = Js.Ok tables ->
  In table tables ->
  Asset.fullName table = Some fullName ->
  NoDup (map Asset.fullName tables) ->
  Evaluator.validateAsset table agreements = Js.Ok result ->
  postValidate agreements getAllShareTables (envId +:+ ":" +:+ fullName)
  = (Json result, [envId]).
Proof.
  intros Henv HenvColon Hname HnameColon Htables Hin Hfull Hnodup Hresult.
  unfold postValidate.
  rewrite (split_app _ _ HenvColon), (split_noColon _ HnameColon).
  cbn [nth_error]. rewrite (truthy_Some _ Henv), (truthy_Some _ Hname).
  cbn [negb orb]. rewrite Htables.
  rewrite (findTable_unique _ _ _ Hin Hfull Hnodup). by rewrite Hresult.
Qed.

(** X13.  An asset id without a colon is rejected with status 400 before
    anything is fetched. *)
Theorem validate_by_id_needs_a_colon (assetId : string) :
  noColon assetId = true ->
  postValidate agreements getAllShareTables assetId
  = (Status400 "Invalid asset ID format", []).
Proof.
  intros Hcolon. unfold postValidate. rewrite (split_noColon _ Hcolon).
  cbn [nth_error]. cbn [Js.truthy negb]. by rewrite orb_true_r.
Qed.

(** X14.  Only the text between the first and the second colon of the id
    is looked up: whenever the handler answers with a validation result,
    the result is for an asset of the environment named before the first
    colon whose full name is that text, which is not empty and holds no
    colon.  An asset whose full name holds a colon is never the one
    answered. *)
Theorem validate_by_id_stops_at_second_colon (assetId : string)
    (result : ValidationResult.t) (fetched : list string) :
  postValidate agreements getAllShareTables assetId = (Json result, fetched) ->
  exists envId fullName rest tables table,
    split ":" assetId = envId :: fullName :: rest
    /\ fetched = [envId]
    /\ getAllShareTables envId = Js.Ok tables
    /\ In table tables
    /\ Evaluator.validateAsset table agreements = Js.Ok result
    /\ ValidationResult.fullName result = Some fullName
    /\ fullName <> EmptyString
    /\ noColon fullName = true.
Proof.
  unfold postValidate. pose proof (split_parts assetId) as Hparts.
  destruct (split ":" assetId) as [|envId [|fullName rest]] eqn:Hsplit;
    cbn [nth_error].
  - by destruct (split_nonempty _ _ Hsplit).
  - cbn [Js.truthy negb]. by rewrite orb_true_r.
  - destruct (Js.truthy (Some envId)) eqn:Henv; [|done].
    destruct (Js.truthy (Some fullName)) eqn:Hname; [|done].
    cbn [negb orb].
    destruct (getAllShareTables envId) as [tables|e] eqn:Htables; [|done].
    destruct (findTable tables fullName) as [table|] eqn:Hfind; [|done].
    destruct (Evaluator.validateAsset table agreements) as [r|e] eqn:Hresult;
      [|done].
    intros [= <- <-].
    destruct (findTable_Some _ _ _ Hfind) as [Hin Hfull].
    destruct (truthy_inv _ Hname) as (s & [= <-] & Hne).
    inversion Hparts as [|? ? _ Hrest]; subst.
    inversion Hrest as [|? ? Hcolon _]; subst.
    exists envId, fullName, rest, tables, table.
    repeat (split; [done|]). split; [|done].
    destruct (validateAsset_names _ _ _ Hresult) as [_ ->]. exact Hfull.
Qed.

End ValidateByIdClaims.

Lemma validate_by_id_round_trip_witness :
  ValidateById.postValidate [Samples.piiAgreement]
    (fun env => Js.Ok [MoreSamples.crawledOrders env ∅;
                       MoreSamples.oddlyNamed])
    "prod:sales.default.orders"
  = (ValidateById.Json
       {| ValidationResult.assetId := Some "prod:sales.default.orders";
          ValidationResult.assetName := "orders";
          ValidationResult.fullName := Some "sales.default.orders";
          ValidationResult.environmentId := "prod";
          ValidationResult.compliant := false;
          ValidationResult.violations :=
            [Evaluator.mkViolation Samples.piiAgreement
               (Samples.requirement (Some [("PII", "true")]))
               "PII" "true" None] |},
     ["prod"]).
Proof.
  refine (validate_by_id_round_trip [Samples.piiAgreement]
            (fun env => Js.Ok [MoreSamples.crawledOrders env ∅;
                               MoreSamples.oddlyNamed])
            "prod" "sales.default.orders" _
            (MoreSamples.crawledOrders "prod" ∅) _
            _ _ _ _ eq_refl _ eq_refl _ eq_refl).
  - discriminate.
  - reflexivity.
  - discriminate.
  - reflexivity.
  - by left.
  - simpl. apply NoDup_cons_2.
    + intros H%list_elem_of_In. destruct H as [H|[]]. discriminate.
    + apply NoDup_cons_2; [|apply NoDup_nil_2].
      intros H%list_elem_of_In. destruct H.
Defined.

Lemma validate_by_id_needs_a_colon_witness :
  ValidateById.postValidate [Samples.piiAgreement]
    (fun _ => Js.Ok [MoreSamples.oddlyNamed]) "sales.default.orders"
  = (ValidateById.Status400 "Invalid asset ID format", []).
Proof.
  apply (validate_by_id_needs_a_colon [Samples.piiAgreement]
           (fun _ => Js.Ok [MoreSamples.oddlyNamed]) "sales.default.orders").
  reflexivity.
Defined.

Lemma validate_by_id_stops_at_second_colon_witness :
  ValidateById.postValidate []
    (fun env => Js.Ok [MoreSamples.crawledOrders env ∅;
                       MoreSamples.oddlyNamed])
    "prod:sales.default.orders:2024"
  = (ValidateById.Json
       {| ValidationResult.assetId := Some "prod:sales.default.orders";
          ValidationResult.assetName := "orders";
          ValidationResult.fullName := Some "sales.default.orders";
          ValidationResult.environmentId := "prod";
          ValidationResult.compliant := true;
          ValidationResult.violations := [] |},
     ["prod"])
  /\ exists envId fullName rest,
      ValidateById.split ":" "prod:sales.default.orders:2024"
      = envId :: fullName :: rest
      /\ ValidateById.noColon fullName = true.
Proof.
  assert (Hrun : ValidateById.postValidate []
            (fun env => Js.Ok [MoreSamples.crawledOrders env ∅;
                               MoreSamples.oddlyNamed])
            "prod:sales.default.orders:2024"
          = (ValidateById.Json
               {| ValidationResult.assetId := Some "prod:sales.default.orders";
                  ValidationResult.assetName := "orders";
                  ValidationResult.fullName := Some "sales.default.orders";
                  ValidationResult.environmentId := "prod";
                  ValidationResult.compliant := true;
                  ValidationResult.violations := [] |},
             ["prod"])) by reflexivity.
  split; [exact Hrun|].
  destruct (validate_by_id_stops_at_second_colon _ _ _ _ _ Hrun)
    as (envId & fullName & rest & tables & table & Hsplit & _ & _ & _ & _ & _
        & _ & Hcolon).
  exists envId, fullName, rest. split; [exact Hsplit|exact Hcolon].
Defined.

(** ** [clearCache] and [POST /clear-cache] *)

Section ClearCacheFacts.

Import SingleFlight.

Lemma publishes_only_cache envId (writes : list (list Asset.t * Z)) s :
  let s' := run s (map (fun w => Publish envId (fst w) (snd w)) writes) in
  activeRequests s' = activeRequests s
  /\ started s' = started s
  /\ settled s' = settled s
  /\ tasks s' = tasks s.
Proof.
  revert s. induction writes as [|w writes IH]; intros s; simpl; [done|].
  destruct (IH (publish envId (fst w) (snd w) s)) as (-> & -> & -> & ->).
  done.
Qed.

Lemma crawls_started envId s s' entry :
  started s' = started s ++ [entry] ->
  fst entry = envId ->
  crawls envId s' = S (crawls envId s).
Proof.
  intros Hstarted Hentry. unfold crawls. rewrite Hstarted.
  rewrite List.filter_app, length_app. simpl.
  rewrite Hentry, String.eqb_refl. simpl. lia.
Qed.

Lemma call_on_cold_cache caller envId prio now s :
  Cache.freshAssets (cache s) envId now = None ->
  activeRequests s !! Cache.requestKey envId = None ->
  getAllShareTables caller envId prio now s
  = State (cache s)
          (<[Cache.requestKey envId := length (started s)]> (activeRequests s))
          (started s ++ [(envId, prio)]) (settled s)
          (<[caller := AwaitingOwn (length (started s))
                                   (Cache.requestKey envId)]> (tasks s)).
Proof. intros Hmiss Hidle. unfold getAllShareTables. by rewrite Hmiss, Hidle. Qed.

Lemma freshAssets_empty envId now : Cache.freshAssets ∅ envId now = None.
Proof. unfold Cache.freshAssets. by rewrite lookup_empty. Qed.

End ClearCacheFacts.

Section ClearCacheClaims.

Import SingleFlight ClearCache.


(** X16.  [clearCache] while a crawl is in flight breaks the coalescing of
    the next one.  The caller that comes after the clearing starts a second
    crawl and registers it; when the first crawl settles, the [finally]
    block of its caller deletes the marker of the second crawl, which is
    still running, so that any further caller that misses the cache starts
    a third crawl instead of joining the second. *)
Theorem stale_finally_unregisters_newer_crawl (s : state) (envId : string)
    (a b c : nat) (prioA prioB prioC : list string) (t0 t1 t2 : Z)
    (writes : list (list Asset.t * Z)) (result : outcome) :
  let first := length (started s) in
  let second := S first in
  let s' :=
    run s ([Call a envId prioA t0; ClearCache; Call b envId prioB t1]
           ++ map (fun w => Publish envId (fst w) (snd w)) writes
           ++ [Settle first result; Resume a]) in
  Cache.freshAssets (cache s) envId t0 = None ->
  activeRequests s !! Cache.requestKey envId = None ->
  settled s !! first = None ->
  settled s !! second = None ->
  a <> b ->
  Cache.freshAssets (cache s') envId t2 = None ->
  tasks s' !! a = Some (Settled result)
  /\ tasks s' !! b = Some (AwaitingOwn second (Cache.requestKey envId))
  /\ settled s' !! second = None
  /\ activeRequests s' !! Cache.requestKey envId = None
  /\ crawls envId s' = crawls envId s + 2
  /\ crawls envId (getAllShareTables c envId prioC t2 s')
     = crawls envId s + 3.
Proof.
  intros first second s' Hmiss Hidle Hfirst Hsecond Hab Hmiss'.
  set (key := Cache.requestKey envId) in *.
  set (s1 := getAllShareTables a envId prioA t0 s).
  assert (Hs1 : s1 = State (cache s) (<[key := first]> (activeRequests s))
                       (started s ++ [(envId, prioA)]) (settled s)
                       (<[a := AwaitingOwn first key]> (tasks s)))
    by (by apply call_on_cold_cache).
  set (s2 := getAllShareTables b envId prioB t1 (clearCache s1)).
  assert (Hs2 : s2 = State ∅ (<[key := second]> ∅)
                       ((started s ++ [(envId, prioA)]) ++ [(envId, prioB)])
                       (settled s)
                       (<[b := AwaitingOwn second key]>
                          (<[a := AwaitingOwn first key]> (tasks s)))).
  { unfold s2. rewrite call_on_cold_cache
      by (simpl; [apply freshAssets_empty || apply lookup_empty ..]).
    rewrite Hs1. simpl. unfold second, first, key.
    rewrite length_app. simpl. by rewrite Nat.add_1_r. }
  set (s3 := run s2 (map (fun w => Publish envId (fst w) (snd w)) writes)).
  destruct (publishes_only_cache envId writes s2)
    as (Hactive & Hstarted & Hsettled & Htasks). fold s3 in Hactive, Hstarted,
    Hsettled, Htasks.
  assert (Hs' : s' = resume a (settle first result s3)).
  { unfold s', run. rewrite !fold_left_app. reflexivity. }
  assert (Hsettle : settle first result s3
                    = State (cache s3) (activeRequests s3) (started s3)
                            (<[first := result]> (settled s3)) (tasks s3)).
  { unfold settle. by rewrite Hsettled, Hs2; simpl; rewrite Hfirst. }
  assert (Hresume : s' = State (cache s3) (delete key (activeRequests s3))
                           (started s3) (<[first := result]> (settled s3))
                           (<[a := Settled result]> (tasks s3))).
  { rewrite Hs', Hsettle. unfold resume. simpl. rewrite Htasks, Hs2. simpl.
    rewrite lookup_insert_ne by done. rewrite lookup_insert_eq.
    by rewrite lookup_insert_eq. }
  assert (Hcrawls : crawls envId s' = crawls envId s + 2).
  { rewrite Hresume. unfold crawls. simpl. rewrite Hstarted, Hs2. simpl.
    rewrite !List.filter_app, !length_app. simpl.
    rewrite String.eqb_refl. simpl. lia. }
  assert (Hgone : activeRequests s' !! key = None).
  { rewrite Hresume. simpl. apply lookup_delete_eq. }
  split; [rewrite Hresume; simpl; apply lookup_insert_eq|].
  split.
  { rewrite Hresume. simpl. rewrite lookup_insert_ne by done.
    rewrite Htasks, Hs2. simpl. apply lookup_insert_eq. }
  split.
  { rewrite Hresume. simpl. rewrite lookup_insert_ne by (unfold second; lia).
    by rewrite Hsettled, Hs2. }
  split; [done|]. split; [done|].
  rewrite call_on_cold_cache by done.
  rewrite (crawls_started envId s' _ (envId, prioC)) by done. lia.
Qed.

Lemma stale_finally_unregisters_newer_crawl_witness :
  let s' :=
    run initial [Call 1 "prod" [] 0; ClearCache; Call 2 "prod" [] 1;
                 Settle 0 (Js.Ok []); Resume 1] in
  tasks s' !! 2 = Some (AwaitingOwn 1 (Cache.requestKey "prod"))
  /\ activeRequests s' !! Cache.requestKey "prod" = None
  /\ crawls "prod" (getAllShareTables 3 "prod" [] 2 s') = 3.
Proof.
  destruct (stale_finally_unregisters_newer_crawl initial "prod" 1 2 3
              [] [] [] 0 1 2 [] (Js.Ok []))
    as (_ & Hb & _ & Hgone & _ & Hthird);
    [reflexivity | reflexivity | reflexivity | reflexivity | lia
    | reflexivity |].
  split; [exact Hb|]. split; [exact Hgone|exact Hthird].
Defined.

End ClearCacheClaims.

(** ** [GET /catalog-compliance] *)

Section CatalogComplianceFacts.

Import CatalogCompliance CatalogComplianceSpec.

Lemma group_keys entries a entries' :
  group entries a = Js.Ok entries' ->
  (In (Asset.catalog_name a) (map fst entries)
   /\ map fst entries' = map fst entries)
  \/ (~ In (Asset.catalog_name a) (map fst entries)
      /\ Js.inherited (Asset.catalog_name a) = false
      /\ map fst entries' = map fst entries ++ [Asset.catalog_name a]).
Proof.
  revert entries'.
  induction entries as [|[c l] entries IH]; simpl; intros entries'.
  - destruct (Js.inherited _) eqn:Hname; [done|]. intros [= <-].
    right. split; [tauto|done].
  - destruct (String.eqb c (Asset.catalog_name a)) eqn:Hc.
    + apply String.eqb_eq in Hc. intros [= <-]. left. split; [by left|done].
    + apply String.eqb_neq in Hc.
      destruct (group entries a) as [rest|e]; simpl; [|done].
      intros [= <-]. simpl.
      destruct (IH rest eq_refl) as [[Hin ->] | (Hout & Hname & ->)].
      * left. split; [by right|done].
      * right. split; [|done]. intros [?|?]; [done|by apply Hout].
Qed.

Lemma group_entries entries a entries' c l :
  NoDup (map fst entries) ->
  group entries a = Js.Ok entries' ->
  In (c, l) entries' ->
  (c <> Asset.catalog_name a /\ In (c, l) entries)
  \/ (c = Asset.catalog_name a
      /\ ((exists l0, In (c, l0) entries /\ l = l0 ++ [a])
          \/ (~ In c (map fst entries) /\ l = [a]))).
Proof.
  revert entries'.
  induction entries as [|[c0 l0] entries IH]; simpl; intros entries' Hnodup.
  - destruct (Js.inherited _); [done|].
    intros [= <-] [[= <- <-]|[]]. right. split; [done|]. right.
    split; [tauto|done].
  - apply NoDup_cons in Hnodup as [Hfresh Hnodup].
    destruct (String.eqb c0 (Asset.catalog_name a)) eqn:Hc.
    + apply String.eqb_eq in Hc. subst c0. intros [= <-] [[= <- <-]|Hin].
      * right. split; [done|]. left. exists l0. split; [by left|done].
      * left. split; [|by right]. intros ->. apply Hfresh.
        apply list_elem_of_In. by apply (in_map fst _ _ Hin).
    + apply String.eqb_neq in Hc.
      destruct (group entries a) as [rest|e]; simpl; [|done].
      intros [= <-] [[= <- <-]|Hin].
      * left. split; [done|by left].
      * destruct (IH rest Hnodup eq_refl Hin)
          as [[Hne Hold] | [-> [(l1 & Hold & ->) | [Hout ->]]]].
        -- left. split; [done|by right].
        -- right. split; [done|]. left. exists l1. split; [by right|done].
        -- right. split; [done|]. right. split; [|done].
           intros [?|?]; [done|by apply Hout].
Qed.

(** Only a catalog named like a member of [Object.prototype] makes the
    grouping throw. *)
Lemma group_throws entries a e :
  group entries a = Js.Throw e -> reservedCatalog a = true.
Proof.
  unfold reservedCatalog.
  induction entries as [|[c l] entries IH]; simpl.
  - by destruct (Js.inherited _).
  - destruct (String.eqb _ _); [done|].
    destruct (group entries a) as [rest|e0]; simpl; [done|]. auto.
Qed.

Lemma inCatalog_snoc c seen a :
  inCatalog c (seen ++ [a])
  = inCatalog c seen
    ++ (if String.eqb c (Asset.catalog_name a) then [a] else []).
Proof. unfold inCatalog. by rewrite List.filter_app. Qed.

Lemma inCatalog_none c assets :
  (forall a, In a assets -> Asset.catalog_name a <> c) ->
  inCatalog c assets = [].
Proof.
  unfold inCatalog. induction assets as [|a assets IH]; simpl; [done|].
  intros Hnone. rewrite (proj2 (String.eqb_neq _ _)).
  - apply IH. intros a' Ha'. apply Hnone. by right.
  - intros ->. by apply (Hnone a); [left|].
Qed.

Lemma inCatalog_In c assets a :
  In a (inCatalog c assets) -> In a assets /\ Asset.catalog_name a = c.
Proof.
  unfold inCatalog. intros [Hin Hc]%filter_In.
  split; [done|]. symmetry. by apply String.eqb_eq.
Qed.

Lemma group_grouped entries seen a entries' :
  grouped entries seen ->
  group entries a = Js.Ok entries' ->
  grouped entries' (seen ++ [a]).
Proof.
  intros (Hnodup & Hcover & Hentries & Hnames) Hgroup.
  pose proof (group_keys _ _ _ Hgroup) as Hkeys.
  split; [|split; [|split]].
  - destruct Hkeys as [[_ ->] | (Hout & _ & ->)]; [done|].
    apply NoDup_app. split; [done|]. split.
    + intros x Hx%list_elem_of_In [->|[]%elem_of_nil]%elem_of_cons.
      by apply Hout.
    + apply NoDup_singleton.
  - intros a' [Ha'|[<-|[]]]%in_app_or.
    + apply Hcover in Ha'.
      destruct Hkeys as [[_ ->] | (_ & _ & ->)]; [done|].
      apply in_or_app. by left.
    + destruct Hkeys as [[Hin ->] | (_ & _ & ->)]; [done|].
      apply in_or_app. right. by left.
  - intros c l Hin. rewrite inCatalog_snoc.
    destruct (group_entries _ _ _ _ _ Hnodup Hgroup Hin)
      as [[Hne Hold] | [-> [(l0 & Hold & ->) | [Hout ->]]]].
    + destruct (Hentries _ _ Hold) as [-> Hsome].
      rewrite (proj2 (String.eqb_neq _ _) Hne). by rewrite app_nil_r.
    + destruct (Hentries _ _ Hold) as [-> Hsome].
      rewrite String.eqb_refl. split; [done|]. by destruct (inCatalog _ seen).
    + rewrite String.eqb_refl. rewrite inCatalog_none; [done|].
      intros a' Ha' Hc. apply Hout. rewrite <- Hc. by apply Hcover.
  - intros c. destruct Hkeys as [[_ ->] | (_ & Hname & ->)]; [by apply Hnames|].
    intros [Hc|[<-|[]]]%in_app_or; [by apply Hnames|done].
Qed.

Lemma forEach_group assets entries seen :
  grouped entries seen ->
  match Js.forEach assets (fun a acc => group acc a) entries with
  | Js.Ok entries' => grouped entries' (seen ++ assets)
  | Js.Throw _ => existsb reservedCatalog assets = true
  end.
Proof.
  revert entries seen.
  induction assets as [|a assets IH]; intros entries seen H; simpl.
  - by rewrite app_nil_r.
  - destruct (group entries a) as [entries'|e] eqn:Hgroup; simpl.
    + replace (seen ++ a :: assets) with ((seen ++ [a]) ++ assets)
        by (by rewrite <- app_assoc).
      specialize (IH entries' (seen ++ [a]) (group_grouped _ _ _ _ H Hgroup)).
      destruct (Js.forEach assets _ entries'); [done|].
      rewrite IH. apply orb_true_r.
    + by rewrite (group_throws _ _ _ Hgroup).
Qed.

(** No asset that has been grouped is in a catalog named like a member of
    [Object.prototype]. *)
Lemma grouped_unreserved entries seen :
  grouped entries seen -> existsb reservedCatalog seen = false.
Proof.
  intros (_ & Hcover & _ & Hnames).
  destruct (existsb reservedCatalog seen) eqn:Hsome; [|done].
  apply existsb_exists in Hsome as (a & Ha & Hreserved).
  unfold reservedCatalog in Hreserved.
  by rewrite (Hnames _ (Hcover a Ha)) in Hreserved.
Qed.

(** The grouping of an environment's assets fails exactly when one of them
    is in a catalog named like a member of [Object.prototype]. *)
Lemma groupByCatalog_grouped assets :
  match groupByCatalog assets with
  | Js.Ok entries =>
      grouped entries assets /\ existsb reservedCatalog assets = false
  | Js.Throw _ => existsb reservedCatalog assets = true
  end.
Proof.
  unfold groupByCatalog.
  pose proof (forEach_group assets [] []) as H. simpl in H.
  destruct (Js.forEach assets _ []) as [entries|e].
  - assert (Hgrouped : grouped entries assets).
    { apply H. split; [constructor|].
      split; [by intros ? []|]. split; [by intros ? ? []|by intros ? []]. }
    split; [done|]. by apply (grouped_unreserved entries).
  - apply H. split; [constructor|].
    split; [by intros ? []|]. split; [by intros ? ? []|by intros ? []].
Qed.

(** The order in which the entries are gone through does not matter to what
    they hold. *)
Lemma grouped_Permutation entries entries' seen :
  Permutation entries' entries ->
  grouped entries seen -> grouped entries' seen.
Proof.
  intros Hperm (Hnodup & Hcover & Hentries & Hnames).
  assert (Hkeys : Permutation (map fst entries') (map fst entries))
    by (by apply Permutation_map).
  split; [by rewrite Hkeys|]. split; [|split].
  - intros a Ha. apply (Permutation_in _ (Permutation_sym Hkeys)).
    by apply Hcover.
  - intros c l Hin. apply Hentries. by apply (Permutation_in _ Hperm).
  - intros c Hc. apply Hnames. by apply (Permutation_in _ Hkeys).
Qed.

Lemma ownEntries_grouped entries seen :
  grouped entries seen -> grouped (Js.ownEntries entries) seen.
Proof. apply grouped_Permutation, ownEntries_Permutation. Qed.

Lemma grouped_key entries seen c :
  grouped entries seen ->
  In c (map fst entries) ->
  In (c, inCatalog c seen) entries /\ inCatalog c seen <> [].
Proof.
  intros (_ & _ & Hentries & _) ([c' l] & <- & Hin)%in_map_iff. simpl.
  destruct (Hentries _ _ Hin) as [-> Hsome]. done.
Qed.

Lemma grouped_absent entries seen c :
  grouped entries seen ->
  ~ In c (map fst entries) ->
  inCatalog c seen = [].
Proof.
  intros (_ & Hcover & _) Hout. apply inCatalog_none.
  intros a Ha <-. by apply Hout, Hcover.
Qed.

Lemma contributed_cases getAllShareTables env :
  contributed getAllShareTables env
  = match getAllShareTables env with
    | Js.Ok found => if existsb reservedCatalog found then [] else found
    | Js.Throw _ => []
    end.
Proof. unfold contributed, assetsOf. by destruct (getAllShareTables env). Qed.

Section Loop.

Variable roundPercent : nat -> nat -> nat.
Variable agreements : list Agreement.t.

Lemma validateEach_total assets :
  (forall a, In a assets ->
             exists r, Evaluator.validateAsset a agreements = Js.Ok r) ->
  exists results, Routes.validateEach agreements assets = Js.Ok results.
Proof.
  induction assets as [|a assets IH]; intros Hall.
  - by exists [].
  - rewrite validateEach_cons.
    destruct (Hall a) as [r ->]; [by left|].
    destruct IH as [rs ->]; [intros; apply Hall; by right|]. by eexists.
Qed.

(** Catalogs that are not among the entries keep what they had. *)
Lemma validateCatalogs_other env entries cc c :
  ~ In c (map fst entries) ->
  validateCatalogs roundPercent agreements env entries cc !! c = cc !! c.
Proof.
  revert cc. induction entries as [|[c0 l0] entries IH]; intros cc Hout;
    simpl; [done|].
  destruct (Routes.validateEach agreements l0) as [results|e]; [|done].
  rewrite IH by (intros ?; apply Hout; by right).
  apply lookup_insert_ne. intros ->. apply Hout. by left.
Qed.

(** A catalog whose evaluation throws keeps what it had. *)
Lemma validateCatalogs_throw env entries cc c l e :
  NoDup (map fst entries) ->
  In (c, l) entries ->
  Routes.validateEach agreements l = Js.Throw e ->
  validateCatalogs roundPercent agreements env entries cc !! c = cc !! c.
Proof.
  revert cc. induction entries as [|[c0 l0] entries IH]; intros cc Hnodup Hin
    Hthrow; simpl; [done|].
  simpl in Hnodup. apply NoDup_cons in Hnodup as [Hfresh Hnodup].
  destruct Hin as [[= -> ->]|Hin].
  - by rewrite Hthrow.
  - destruct (Routes.validateEach agreements l0) as [results|e0]; [|done].
    rewrite (IH _ Hnodup Hin Hthrow). apply lookup_insert_ne.
    intros ->. apply Hfresh. apply list_elem_of_In.
    by apply (in_map fst _ _ Hin).
Qed.

(** When every evaluation succeeds, each entry is assigned. *)
Lemma validateCatalogs_ok env entries cc c l results :
  NoDup (map fst entries) ->
  (forall c' l', In (c', l') entries ->
     exists rs, Routes.validateEach agreements l' = Js.Ok rs) ->
  In (c, l) entries ->
  Routes.validateEach agreements l = Js.Ok results ->
  validateCatalogs roundPercent agreements env entries cc !! c
  = Some (entryOf roundPercent env c results).
Proof.
  revert cc. induction entries as [|[c0 l0] entries IH]; intros cc Hnodup Hall
    Hin Hok; simpl; [done|].
  simpl in Hnodup. apply NoDup_cons in Hnodup as [Hfresh Hnodup].
  destruct (Hall c0 l0) as [rs Hrs]; [by left|]. rewrite Hrs.
  destruct Hin as [[= -> ->]|Hin].
  - rewrite validateCatalogs_other
      by (intros ?%list_elem_of_In; by apply Hfresh).
    rewrite lookup_insert_eq. congruence.
  - apply IH; [done| |done|done]. intros; eapply Hall; by right.
Qed.

End Loop.

Lemma summary_adds_up (cc : gmap string CatalogEntry.t) :
  CatalogSummary.compliantCatalogs (summaryOf cc)
  + CatalogSummary.nonCompliantCatalogs (summaryOf cc)
  = CatalogSummary.totalCatalogs (summaryOf cc).
Proof.
  unfold summaryOf. simpl. rewrite <- length_map_to_list.
  rewrite <- (length_map snd (map_to_list cc)).
  induction (map snd (map_to_list cc)) as [|v vs IH]; simpl; [done|].
  destruct (CatalogEntry.isCompliant v); simpl; lia.
Qed.

End CatalogComplianceFacts.

Section CatalogComplianceLoop.

Import CatalogCompliance CatalogComplianceSpec.

Variable roundPercent : nat -> nat -> nat.
Variable agreements : list Agreement.t.
Variable getAllShareTables : string -> Js.result (list Asset.t).

Local Abbreviation step :=
  (environmentStep roundPercent agreements getAllShareTables).
Local Abbreviation assets := (contributed getAllShareTables).
Local Abbreviation reported :=
  (CatalogComplianceSpec.reported roundPercent agreements getAllShareTables).

Lemma step_fetched cc fetched env :
  snd (step (cc, fetched) env) = fetched ++ [env].
Proof.
  unfold environmentStep. destruct (getAllShareTables env); [|done].
  by destruct (groupByCatalog _).
Qed.

Lemma loop_fetched envs cc fetched :
  snd (fold_left step envs (cc, fetched)) = fetched ++ envs.
Proof.
  revert cc fetched. induction envs as [|env envs IH]; intros cc fetched;
    cbn [fold_left]; [by rewrite app_nil_r|].
  pose proof (step_fetched cc fetched env) as Hstep.
  destruct (step (cc, fetched) env) as [cc' fetched']. simpl in Hstep.
  rewrite IH, Hstep. by rewrite <- app_assoc.
Qed.

Lemma step_reported done cc fetched env :
  (forall a, In a (assets env) ->
             exists r, Evaluator.validateAsset a agreements = Js.Ok r) ->
  reported done cc ->
  reported (done ++ [env]) (fst (step (cc, fetched) env)).
Proof.
  intros Hok [Hentries Hcover].
  assert (Hkeep : forall c e,
            inCatalog c (assets env) = [] -> cc !! c = Some e ->
            exists pre env0 post results,
              done ++ [env] = pre ++ env0 :: post
              /\ (forall env', In env' post -> inCatalog c (assets env') = [])
              /\ inCatalog c (assets env0) <> []
              /\ Routes.validateEach agreements (inCatalog c (assets env0))
                 = Js.Ok results
              /\ e = entryOf roundPercent env0 c results).
  { intros c e Hnone Hc.
    destruct (Hentries c e Hc)
      as (pre & env0 & post & results & -> & Hlater & Hsome & Hres & ->).
    exists pre, env0, (post ++ [env]), results.
    split; [by rewrite <- app_assoc|]. split; [|done].
    intros env' [?|[<-|[]]]%in_app_or; [by apply Hlater|done]. }
  assert (Hskip : assets env = [] -> reported (done ++ [env]) cc).
  { intros Hnone. split.
    - intros c e'. apply Hkeep. by rewrite Hnone.
    - intros env' a [Hdone|[<-|[]]]%in_app_or Ha.
      + by apply (Hcover env').
      + by rewrite Hnone in Ha. }
  pose proof (contributed_cases getAllShareTables env) as Hassets.
  unfold environmentStep.
  destruct (getAllShareTables env) as [found|e] eqn:Hfetch;
    [|by apply Hskip].
  pose proof (groupByCatalog_grouped found) as Hgrouped.
  destruct (groupByCatalog found) as [entries0|e]; cbn [fst];
    [|apply Hskip; by rewrite Hassets, Hgrouped].
  destruct Hgrouped as [Hgrouped Hnone]. rewrite Hnone in Hassets.
  apply ownEntries_grouped in Hgrouped.
  set (entries := Js.ownEntries entries0) in *.
  rewrite Hassets in *.
  assert (Hall : forall c l, In (c, l) entries ->
            exists rs, Routes.validateEach agreements l = Js.Ok rs).
  { intros c l Hin. destruct Hgrouped as (_ & _ & Hshape & _).
    destruct (Hshape _ _ Hin) as [-> _]. apply validateEach_total.
    intros a [Ha _]%inCatalog_In. by apply Hok. }
  split.
  - intros c e.
    destruct (in_dec string_dec c (map fst entries)) as [Hin|Hout].
    + destruct (grouped_key _ _ _ Hgrouped Hin) as [Hentry Hsome].
      destruct (Hall _ _ Hentry) as [rs Hrs].
      rewrite (validateCatalogs_ok roundPercent agreements env entries cc
                 c _ rs (proj1 Hgrouped) Hall Hentry Hrs).
      intros [= <-]. exists done, env, [], rs.
      rewrite Hassets. by repeat split.
    + rewrite validateCatalogs_other by done.
      apply Hkeep. by apply (grouped_absent entries).
  - intros env' a [Hdone|[<-|[]]]%in_app_or Ha.
    + destruct (in_dec string_dec (Asset.catalog_name a) (map fst entries))
        as [Hin|Hout].
      * destruct (grouped_key _ _ _ Hgrouped Hin) as [Hentry Hsome].
        destruct (Hall _ _ Hentry) as [rs Hrs].
        by rewrite (validateCatalogs_ok roundPercent agreements env
                      entries cc _ _ rs (proj1 Hgrouped) Hall Hentry Hrs).
      * rewrite validateCatalogs_other by done. by apply (Hcover env').
    + rewrite Hassets in Ha.
      pose proof (proj1 (proj2 Hgrouped) a Ha) as Hin.
      destruct (grouped_key entries found _ Hgrouped Hin) as [Hentry Hsome].
      destruct (Hall _ _ Hentry) as [rs Hrs].
      by rewrite (validateCatalogs_ok roundPercent agreements env
                    entries cc _ _ rs (proj1 Hgrouped) Hall Hentry Hrs).
Qed.

Lemma loop_reported envs done cc fetched :
  (forall env a, In env envs -> In a (assets env) ->
                 exists r, Evaluator.validateAsset a agreements = Js.Ok r) ->
  reported done cc ->
  reported (done ++ envs) (fst (fold_left step envs (cc, fetched))).
Proof.
  revert done cc fetched.
  induction envs as [|env envs IH]; intros done cc fetched Hok Hinv; cbn [fold_left].
  - by rewrite app_nil_r.
  - replace (done ++ env :: envs) with ((done ++ [env]) ++ envs)
      by (by rewrite <- app_assoc).
    pose proof (step_reported done cc fetched env
                  (fun a => Hok env a (or_introl eq_refl)) Hinv) as Hnext.
    destruct (step (cc, fetched) env) as [cc' fetched'].
    apply IH; [|done]. intros env' a ?. apply Hok. by right.
Qed.

(** A catalog that no environment can evaluate is never assigned. *)
Lemma step_unreported cc fetched env c :
  (inCatalog c (assetsOf getAllShareTables env) = []
   \/ exists e,
       Routes.validateEach agreements
         (inCatalog c (assetsOf getAllShareTables env)) = Js.Throw e) ->
  cc !! c = None ->
  fst (step (cc, fetched) env) !! c = None.
Proof.
  unfold environmentStep, assetsOf.
  destruct (getAllShareTables env) as [found|e]; [|done].
  intros Hcase Hnone.
  pose proof (groupByCatalog_grouped found) as Hgrouped.
  destruct (groupByCatalog found) as [entries0|e]; cbn [fst]; [|done].
  destruct Hgrouped as [Hgrouped _]. apply ownEntries_grouped in Hgrouped.
  set (entries := Js.ownEntries entries0) in *.
  destruct (in_dec string_dec c (map fst entries)) as [Hin|Hout].
  - destruct (grouped_key _ _ _ Hgrouped Hin) as [Hentry Hsome].
    destruct Hcase as [Hempty|[e Hthrow]]; [done|].
    by rewrite (validateCatalogs_throw roundPercent agreements env entries
                  cc c _ e (proj1 Hgrouped) Hentry Hthrow).
  - by rewrite validateCatalogs_other.
Qed.

Lemma loop_unreported envs cc fetched c :
  (forall env, In env envs ->
     inCatalog c (assetsOf getAllShareTables env) = []
     \/ exists e,
         Routes.validateEach agreements
           (inCatalog c (assetsOf getAllShareTables env)) = Js.Throw e) ->
  cc !! c = None ->
  fst (fold_left step envs (cc, fetched)) !! c = None.
Proof.
  revert cc fetched. induction envs as [|env envs IH]; intros cc fetched
    Hall Hnone; cbn [fold_left]; [done|].
  pose proof (step_unreported cc fetched env c
                (Hall env (or_introl eq_refl)) Hnone) as Hnext.
  destruct (step (cc, fetched) env) as [cc' fetched'].
  apply IH; [|done]. intros env' ?. apply Hall. by right.
Qed.

End CatalogComplianceLoop.

Section CatalogComplianceClaims.

Import CatalogCompliance CatalogComplianceSpec.

Variable roundPercent : nat -> nat -> nat.
Variable environments : list string.
Variable agreements : list Agreement.t.
Variable getAllShareTables : string -> Js.result (list Asset.t).

(** X17.  On a cache miss, [GET /catalog-compliance] goes through the
    environments in the order of [getEnvironments()].  An environment
    contributes its assets unless its fetch fails or one of its assets is in
    a catalog named like a member of [Object.prototype] ([constructor],
    [toString], ...): grouping such an asset throws, and the environment is
    skipped as a whole.  When every contributed asset can be evaluated, the
    body reports every catalog name that has a contributed asset, once, and
    no name of a member of [Object.prototype].  The entry of a name belongs
    to the last environment that contributes an asset in a catalog of that
    name, never to a skipped environment, and counts that environment's
    assets only: its total is their number and is positive, compliant and
    non-compliant counts add up to the total, [violations] is the
    non-compliant count and [isCompliant] holds exactly when it is zero.  In
    the summary, compliant and non-compliant catalogs add up to the number
    of names reported. *)
Theorem catalog_compliance_counts (now built stored : Z) (w : world) :
  fresh w now = None ->
  (forall env a,
     In env environments -> In a (contributed getAllShareTables env) ->
     exists r, Evaluator.validateAsset a agreements = Js.Ok r) ->
  exists data,
    getCatalogCompliance roundPercent environments agreements
                         getAllShareTables now built stored w
    = (Json data, World (Some (data, stored)) (fetched w ++ environments))
    /\ lastUpdated data = built
    /\ (forall env a,
          In env environments -> In a (contributed getAllShareTables env) ->
          is_Some (catalogCompliance data !! Asset.catalog_name a))
    /\ (forall c e,
          catalogCompliance data !! c = Some e ->
          CatalogEntry.catalogName e = c
          /\ Js.inherited c = false
          /\ (forall a,
                In a (assetsOf getAllShareTables
                               (CatalogEntry.environmentId e)) ->
                Js.inherited (Asset.catalog_name a) = false)
          /\ exists pre post results,
              environments = pre ++ CatalogEntry.environmentId e :: post
              /\ (forall env', In env' post ->
                    inCatalog c (contributed getAllShareTables env') = [])
              /\ Routes.validateEach agreements
                   (inCatalog c (assetsOf getAllShareTables
                                          (CatalogEntry.environmentId e)))
                 = Js.Ok results
              /\ CatalogEntry.totalAssets e = length results
              /\ CatalogEntry.totalAssets e
                 = length (inCatalog c (assetsOf getAllShareTables
                                          (CatalogEntry.environmentId e)))
              /\ 0 < CatalogEntry.totalAssets e
              /\ CatalogEntry.compliantAssets e
                 = Routes.countCompliant results
              /\ CatalogEntry.compliantAssets e
                 + CatalogEntry.nonCompliantAssets e
                 = CatalogEntry.totalAssets e
              /\ CatalogEntry.violations e = CatalogEntry.nonCompliantAssets e
              /\ (CatalogEntry.isCompliant e = true
                  <-> CatalogEntry.violations e = 0))
    /\ CatalogSummary.totalCatalogs (summary data)
       = size (catalogCompliance data)
    /\ CatalogSummary.compliantCatalogs (summary data)
       + CatalogSummary.nonCompliantCatalogs (summary data)
       = CatalogSummary.totalCatalogs (summary data).
Proof.
  intros Hmiss Hok. unfold getCatalogCompliance. rewrite Hmiss.
  pose proof (loop_fetched roundPercent agreements getAllShareTables
                environments ∅ (fetched w)) as Hfetched.
  pose proof (loop_reported roundPercent agreements getAllShareTables
                environments [] ∅ (fetched w) Hok) as Hinv.
  destruct (fold_left _ environments (∅, fetched w)) as [cc fetched'].
  simpl in Hfetched, Hinv. subst fetched'.
  destruct Hinv as [Hentries Hcover].
  { split; [intros c e; by rewrite lookup_empty|by intros ? ? []]. }
  eexists. split; [reflexivity|]. simpl.
  split; [done|]. split; [done|]. split; [|split; [done|]].
  - intros c e Hc.
    destruct (Hentries c e Hc)
      as (pre & env & post & results & -> & Hlater & Hsome & Hres & ->).
    simpl. split; [done|].
    assert (Hsame : contributed getAllShareTables env
                    = assetsOf getAllShareTables env
                    /\ existsb reservedCatalog
                         (assetsOf getAllShareTables env) = false).
    { unfold contributed in Hsome |- *.
      destruct (existsb _ _); [done|done]. }
    destruct Hsame as [Hsame Hnone]. rewrite Hsame in *.
    assert (Hnames : forall a,
              In a (assetsOf getAllShareTables env) ->
              Js.inherited (Asset.catalog_name a) = false).
    { intros a Ha.
      destruct (Js.inherited (Asset.catalog_name a)) eqn:Hname; [|done].
      rewrite <- Hnone. symmetry. apply existsb_exists. by exists a. }
    split.
    { destruct (inCatalog c _) as [|a rest] eqn:Hin; [done|].
      assert (Ha : In a (inCatalog c (assetsOf getAllShareTables env)))
        by (rewrite Hin; by left).
      apply inCatalog_In in Ha as [Ha <-]. by apply Hnames. }
    split; [done|].
    exists pre, post, results.
    pose proof (count_split results) as Hsplit.
    pose proof (Forall2_length _ _ _ (validateEach_Forall2 _ _ _ Hres))
      as Hlen.
    unfold Routes.countNonCompliant in Hsplit.
    repeat (split; [done || lia|]).
    split; [by destruct (inCatalog c _); simpl in *; [|lia]|].
    split; [done|]. split; [lia|]. split; [lia|].
    rewrite Nat.eqb_eq. lia.
  - apply (summary_adds_up cc).
Qed.

(** X18.  [GET /catalog-compliance] never answers 500 for an evaluation
    failure: on a cache miss it answers with a body and caches it, whatever
    happens while the environments are gone through, so that the same body
    is served until the entry expires.  A catalog name whose assets cannot
    be evaluated in any environment that has some is left out of the
    body. *)
Theorem catalog_compliance_swallows_failures (now built stored later : Z)
    (w : world) (c : string) :
  fresh w now = None ->
  (later - stored < Routes.VALIDATION_CACHE_TTL)%Z ->
  (forall env,
     In env environments ->
     inCatalog c (assetsOf getAllShareTables env) = []
     \/ exists e,
         Routes.validateEach agreements
           (inCatalog c (assetsOf getAllShareTables env)) = Js.Throw e) ->
  exists data,
    let w' := World (Some (data, stored)) (fetched w ++ environments) in
    getCatalogCompliance roundPercent environments agreements
                         getAllShareTables now built stored w
    = (Json data, w')
    /\ catalogCompliance data !! c = None
    /\ getCatalogCompliance roundPercent environments agreements
                            getAllShareTables later built stored w'
       = (Json data, w').
Proof.
  intros Hmiss Hfresh Hbad. unfold getCatalogCompliance at 1. rewrite Hmiss.
  pose proof (loop_fetched roundPercent agreements getAllShareTables
                environments ∅ (fetched w)) as Hfetched.
  pose proof (loop_unreported roundPercent agreements getAllShareTables
                environments ∅ (fetched w) c Hbad (lookup_empty c)) as Hnone.
  destruct (fold_left _ environments (∅, fetched w)) as [cc fetched'].
  simpl in Hfetched, Hnone. subst fetched'.
  eexists. split; [reflexivity|]. split; [done|].
  unfold getCatalogCompliance, fresh. simpl.
  by rewrite (proj2 (Z.ltb_lt _ _) Hfresh).
Qed.

End CatalogComplianceClaims.

Lemma catalog_compliance_counts_witness :
  let reserved : Asset.t :=
    {| Asset.id := None; Asset.assetType := "table";
       Asset.catalog_name := "constructor"; Asset.schema_name := "default";
       Asset.name := "orders"; Asset.fullName := None;
       Asset.environmentId := "dev"; Asset.properties := None;
       Asset.tags := None |} in
  let discovered : string -> Js.result (list Asset.t) :=
    fun env =>
      if String.eqb env "dev"
      then Js.Ok [Samples.orders env ∅; reserved]
      else Js.Ok [Samples.orders env ∅;
                  Samples.orders env {[ "PII" := "true" ]}] in
  exists data e,
    CatalogCompliance.getCatalogCompliance (fun c t => c * 100 / t)
      ["prod"; "dev"] [Samples.piiAgreement] discovered 0 1 2
      CatalogCompliance.initial
    = (CatalogCompliance.Json data,
       CatalogCompliance.World (Some (data, 2%Z)) ["prod"; "dev"])
    /\ CatalogCompliance.catalogCompliance data !! "sales" = Some e
    /\ CatalogCompliance.catalogCompliance data !! "constructor" = None
    /\ CatalogEntry.environmentId e = "prod"
    /\ CatalogEntry.totalAssets e = 2.
Proof.
  intros reserved discovered.
  destruct (catalog_compliance_counts (fun c t => c * 100 / t)
              ["prod"; "dev"] [Samples.piiAgreement] discovered 0 1 2
              CatalogCompliance.initial eq_refl)
    as (data & Hrun & _ & Hcover & Hentries & _).
  { intros env a [<-|[<-|[]]] Ha; vm_compute in Ha; [|done].
    destruct Ha as [<-|[<-|[]]]; by eexists. }
  destruct (Hcover "prod" (Samples.orders "prod" ∅)) as [e He];
    [by left|by left|].
  exists data, e. split; [exact Hrun|]. split; [exact He|].
  injection Hrun as <-. vm_compute in He. injection He as <-.
  split; [by vm_compute|by split].
Defined.

Lemma catalog_compliance_swallows_failures_witness :
  exists data,
    CatalogCompliance.getCatalogCompliance (fun c t => c * 100 / t)
      ["prod"] [RoutesSpec.malformed] (fun _ => Js.Ok [Samples.untagged])
      0 1 2 CatalogCompliance.initial
    = (CatalogCompliance.Json data,
       CatalogCompliance.World (Some (data, 2%Z)) ["prod"])
    /\ CatalogCompliance.catalogCompliance data !! "sales" = None.
Proof.
  destruct (catalog_compliance_swallows_failures (fun c t => c * 100 / t)
              ["prod"] [RoutesSpec.malformed]
              (fun _ => Js.Ok [Samples.untagged]) 0 1 2 3
              CatalogCompliance.initial "sales" eq_refl eq_refl)
    as (data & Hrun & Hnone & _).
  { intros env _. right. by eexists. }
  exists data. split; [exact Hrun|exact Hnone].
Defined.

(** ** What [POST /validate-all] reports *)

Section ValidateAllFacts.

Import Routes CatalogComplianceSpec.

Lemma fetchAssets_flat_map environments getAllShareTables acc w :
  fst (fold_left (fetchStep getAllShareTables) environments (acc, w))
  = acc ++ flat_map (assetsOf getAllShareTables) environments.
Proof.
  revert acc w. induction environments as [|env envs IH]; intros acc w;
    cbn [fold_left flat_map]; [by rewrite app_nil_r|].
  assert (Hassets : assetsOf getAllShareTables env
                    = match getAllShareTables env with
                      | Js.Ok assets => assets
                      | Js.Throw _ => []
                      end) by done.
  unfold fetchStep at 2.
  destruct (getAllShareTables env) as [assets|e]; rewrite IH, Hassets.
  - by rewrite <- app_assoc.
  - done.
Qed.

End ValidateAllFacts.

Section ValidateAllClaims.

Import Routes CatalogComplianceSpec.

(** X19.  On a cache miss [POST /validate-all] evaluates the assets of the
    environments whose fetch succeeded, in the order of the environments;
    an environment whose fetch fails is left out without an error.  When
    every evaluation succeeds the response holds one result per asset, in
    the same order and for that asset's name and environment, a result is
    flagged compliant exactly when it has no violation, [total] is the
    number of assets, and [compliant] and [nonCompliant] add up to it. *)
Theorem validate_all_counts (environments : list string)
    (agreements : list Agreement.t)
    (getAllShareTables : string -> Js.result (list Asset.t))
    (now stored : Z) (w : world) (results : list ValidationResult.t) :
  let allAssets := flat_map (assetsOf getAllShareTables) environments in
  fresh w "validate_all" now = None ->
  validateEach agreements allAssets = Js.Ok results ->
  exists compliant nonCompliant,
    fst (postValidateAll environments agreements getAllShareTables
                         now stored w)
    = Json (ValidateAll results (length allAssets) compliant nonCompliant)
    /\ Forall2 (fun asset r =>
                  ValidationResult.assetName r = Asset.name asset
                  /\ ValidationResult.environmentId r
                     = Asset.environmentId asset
                  /\ (ValidationResult.compliant r = true
                      <-> ValidationResult.violations r = []))
               allAssets results
    /\ compliant + nonCompliant = length allAssets
    /\ compliant = countCompliant results.
Proof.
  intros allAssets Hmiss Hresults. unfold postValidateAll. rewrite Hmiss.
  pose proof (fetchAssets_flat_map environments getAllShareTables [] w)
    as Hfetch.
  unfold fetchAssets.
  destruct (fold_left _ environments ([], w)) as [assets w1].
  simpl in Hfetch. subst assets. fold allAssets. rewrite Hresults.
  pose proof (validateEach_Forall2 _ _ _ Hresults) as Hall.
  pose proof (Forall2_length _ _ _ Hall) as Hlen.
  pose proof (count_split results) as Hsplit.
  eexists _, _. simpl. rewrite <- Hlen. split; [reflexivity|].
  split; [|split; [lia|done]].
  clear -Hall. induction Hall as [|asset r assets results Hr _ IH];
    constructor; [|done].
  destruct (validateAsset_flags _ _ _ Hr) as [Hflag Henv].
  split; [|split; [done|]].
  - by destruct (validateAsset_names _ _ _ Hr) as [-> _].
  - rewrite Hflag, Nat.eqb_eq. by destruct (ValidationResult.violations r).
Qed.

Lemma validate_all_counts_witness :
  let discovered : string -> Js.result (list Asset.t) :=
    fun env =>
      if String.eqb env "dev" then Js.Throw (Js.HttpError (Some 500%Z) "down")
      else Js.Ok [Samples.untagged;
                  Samples.orders "prod" {[ "PII" := "true" ]}] in
  exists results,
    fst (postValidateAll ["dev"; "prod"] [Samples.piiAgreement] discovered
                         0 1 initial)
    = Json (ValidateAll results 2 1 1).
Proof.
  intros discovered.
  destruct (validate_all_counts ["dev"; "prod"] [Samples.piiAgreement]
              discovered 0 1 initial _ eq_refl eq_refl)
    as (compliant & nonCompliant & Hresponse & _ & Hsum & ->).
  eexists. rewrite Hresponse. repeat f_equal.
  change (countCompliant _) with 1 in Hsum. simpl in Hsum. lia.
Defined.

End ValidateAllClaims.

(** ** Environments and clients *)

Section ConfigFacts.

Import Config.

Variable DATABRICKS_HOST : option string.
Variable DATABRICKS_APP_NAME : option string.

Lemma pushConfigured_In environments acc env :
  In env (fold_left pushConfigured environments acc) ->
  In env acc
  \/ exists id entry,
      In (id, entry) environments
      /\ EnvironmentConfig.enabled entry = true
      /\ Js.truthy (EnvironmentConfig.workspaceUrl entry) = true
      /\ env = configured id entry.
Proof.
  revert acc. induction environments as [|[id entry] environments IH];
    intros acc; cbn [fold_left]; [by left|].
  intros [Hin | (id' & entry' & Hin & H)]%IH.
  - unfold pushConfigured in Hin.
    destruct (EnvironmentConfig.enabled entry) eqn:Henabled;
      [|by left].
    destruct (Js.truthy (EnvironmentConfig.workspaceUrl entry)) eqn:Hurl;
      [|by left].
    simpl in Hin. apply in_app_or in Hin as [Hin|[<-|[]]]; [by left|].
    right. exists id, entry. split; [by left|done].
  - right. exists id', entry'. split; [by right|done].
Qed.

Lemma entryOf_unique environments id entry :
  NoDup (map fst environments) ->
  In (id, entry) environments ->
  entryOf environments id = Some entry.
Proof.
  unfold entryOf. induction environments as [|[id' entry'] environments IH];
    [done|].
  simpl. intros [Hfresh Hnodup]%NoDup_cons [[= -> ->]|Hin].
  - by rewrite String.eqb_refl.
  - rewrite (proj2 (String.eqb_neq _ _)); [by apply IH|].
    intros ->. apply Hfresh. apply list_elem_of_In.
    by apply (in_map fst _ _ Hin).
Qed.

Lemma getDatabricksHost_truthy databricksHost :
  getDatabricksHost DATABRICKS_HOST = Some databricksHost ->
  Js.truthy (Some databricksHost) = true.
Proof.
  unfold getDatabricksHost. destruct DATABRICKS_HOST as [host|]; [|done].
  destruct (Js.truthy (Some host)) eqn:Hhost; [|done].
  intros [= <-]. destruct (String.prefix "https://" host); [done|].
  reflexivity.
Qed.

End ConfigFacts.

Section ConfigClaims.

Import Config.

(** X20.  Every environment listed by [getEnvironments] can be looked up by
    its id: [getEnvironment] returns the listed record itself, or, for a
    config entry named ["current"] while the app runs in a workspace, the
    record of that workspace; the record has a host.  So
    [createDatabricksClient] never fails with "not found" for a listed
    environment: it throws only when neither the caller, nor the
    middleware, nor the config provides a token, and otherwise builds a
    client for the record's host with the first of the three tokens. *)
Theorem listed_environments_resolve (DATABRICKS_HOST : option string)
    (DATABRICKS_APP_NAME : option string)
    (environments : list (string * EnvironmentConfig.t))
    (currentUserToken userToken : option string) (env : Environment.t) :
  NoDup (map fst environments) ->
  In env (getEnvironments DATABRICKS_HOST DATABRICKS_APP_NAME environments) ->
  exists resolved,
    getEnvironment DATABRICKS_HOST DATABRICKS_APP_NAME environments
                   (Environment.id env) = Some resolved
    /\ Environment.id resolved = Environment.id env
    /\ Js.truthy (Environment.host resolved) = true
    /\ (resolved = env
        \/ exists databricksHost,
            getDatabricksHost DATABRICKS_HOST = Some databricksHost
            /\ Environment.id env = "current"
            /\ resolved = current DATABRICKS_APP_NAME databricksHost)
    /\ let token :=
         Js.or userToken
               (Js.or currentUserToken (Environment.token resolved)) in
       createDatabricksClient DATABRICKS_HOST DATABRICKS_APP_NAME
                              environments currentUserToken
                              (Environment.id env) userToken
       = if Js.truthy token
         then Js.Ok {| Client.baseURL := Environment.host resolved;
                       Client.authorization :=
                         "Bearer " +:+ default EmptyString token |}
         else Js.Throw (Error "No authentication token available. Either configure a PAT in databricks-config.json or access via Databricks Apps.").
Proof.
  intros Hnodup Hin.
  assert (Hresolved : exists resolved,
            getEnvironment DATABRICKS_HOST DATABRICKS_APP_NAME environments
                           (Environment.id env) = Some resolved
            /\ Environment.id resolved = Environment.id env
            /\ Js.truthy (Environment.host resolved) = true
            /\ (resolved = env
                \/ exists databricksHost,
                    getDatabricksHost DATABRICKS_HOST = Some databricksHost
                    /\ Environment.id env = "current"
                    /\ resolved = current DATABRICKS_APP_NAME databricksHost)).
  { unfold getEnvironments, getEnvironment in *.
    apply pushConfigured_In in Hin as [Hin | (id & entry & Hentry & Henabled
                                              & Hurl & ->)].
    - destruct (getDatabricksHost DATABRICKS_HOST) as [h|] eqn:Hhost;
        [|done].
      destruct Hin as [<-|[]]. simpl. exists (current DATABRICKS_APP_NAME h).
      split; [done|]. split; [done|].
      split; [by apply (getDatabricksHost_truthy DATABRICKS_HOST)|by left].
    - simpl. rewrite (entryOf_unique _ _ _ Hnodup Hentry), Henabled. simpl.
      destruct (getDatabricksHost DATABRICKS_HOST) as [h|] eqn:Hhost.
      + destruct (String.eqb id "current") eqn:Hid.
        * apply String.eqb_eq in Hid as ->.
          exists (current DATABRICKS_APP_NAME h). split; [done|].
          split; [done|].
          split; [by apply (getDatabricksHost_truthy DATABRICKS_HOST)|].
          right. by exists h.
        * exists (configured id entry). repeat split; try done. by left.
      + exists (configured id entry). repeat split; try done. by left. }
  destruct Hresolved as (resolved & Hget & Hid & Hhost & Hwhich).
  exists resolved. repeat (split; [done|]).
  unfold createDatabricksClient. rewrite Hget. cbv zeta.
  by destruct (Js.truthy (Js.or userToken _)).
Qed.

Lemma listed_environments_resolve_witness :
  let env := configured "prod"
               (EnvironmentConfig.Build (Some "Production")
                  (Some "https://prod.example.test") (Some "pat") true) in
  getEnvironment (Some "adb.example.test") None ListingSpec.configFile "prod"
  = Some env
  /\ createDatabricksClient (Some "adb.example.test") None
       ListingSpec.configFile None "prod" None
     = Js.Ok {| Client.baseURL := Some "https://prod.example.test";
                Client.authorization := "Bearer pat" |}.
Proof.
  intros env.
  destruct (listed_environments_resolve (Some "adb.example.test") None
              ListingSpec.configFile None None env)
    as (resolved & Hget & _ & _ & _ & Hclient).
  - simpl. apply NoDup_cons_2.
    + intros H%list_elem_of_In. destruct H as [H|[]]. discriminate.
    + apply NoDup_cons_2; [|apply NoDup_nil_2].
      intros H%list_elem_of_In. destruct H.
  - right. by left.
  - assert (Hsame : resolved = env)
      by (vm_compute in Hget; by injection Hget as <-).
    subst resolved. split; [exact Hget|exact Hclient].
Defined.

End ConfigClaims.

(** ** Listings and the names they hide *)

Section ListingFacts.

Import Listing ListingSpec.

Variable createDatabricksClient :
  string -> option string -> Js.result Client.t.
Variable getCatalogs :
  Client.t -> nat -> Q * Js.result (option (list Catalog.t)).
Variable getSchemas :
  Client.t -> string -> nat -> Q * Js.result (option (list Schema.t)).

Lemma fresh_Some {A} (cache : gmap string (A * Q)) key now data :
  fresh cache key now = Some data ->
  exists timestamp,
    cache !! key = Some (data, timestamp)
    /\ (now - timestamp < CACHE_TTL)%Q.
Proof.
  unfold fresh. destruct (cache !! key) as [[data' timestamp]|]; [|done].
  destruct (Qlt_le_dec _ _) as [Hlt|]; [|done].
  intros [= <-]. by exists timestamp.
Qed.

Lemma filter_Forall {A} (f : A -> bool) xs :
  Forall (fun x => f x = true) (List.filter f xs).
Proof.
  apply List.Forall_forall. intros x Hx. by apply filter_In in Hx as [_ ?].
Qed.

Lemma listCatalogs_clean envId userToken w :
  clean w ->
  clean (snd (listCatalogs createDatabricksClient getCatalogs envId
                           userToken w))
  /\ forall data,
       fst (listCatalogs createDatabricksClient getCatalogs envId
                         userToken w) = Js.Ok data ->
       Forall (fun c => visibleCatalog c = true) data.
Proof.
  intros [Hcatalogs Hschemas]. unfold listCatalogs. cbv zeta.
  destruct (fresh (catalogs w) _ _) as [data|] eqn:Hfresh.
  - split; [done|]. simpl. intros ? [= <-].
    apply fresh_Some in Hfresh as (timestamp & Hentry & _).
    by apply (Hcatalogs _ _ _ Hentry).
  - destruct (createDatabricksClient envId userToken) as [client|e];
      [|by split].
    destruct (Transport.rateLimitedRequest _ _ _) as [[found|e] t]; simpl.
    + split; [split|].
      * simpl. intros key data timestamp.
        destruct (decide (key = "catalogs:" +:+ envId)) as [->|Hne].
        -- rewrite lookup_insert_eq. intros [= <- <-]. apply filter_Forall.
        -- rewrite lookup_insert_ne by done. apply Hcatalogs.
      * done.
      * intros ? [= <-]. apply filter_Forall.
    + by split.
Qed.

Lemma listSchemas_clean envId catalogName userToken w :
  clean w ->
  clean (snd (listSchemas createDatabricksClient getSchemas envId catalogName
                          userToken w))
  /\ forall data,
       fst (listSchemas createDatabricksClient getSchemas envId catalogName
                        userToken w) = Js.Ok data ->
       Forall (fun s => visibleSchema s = true) data.
Proof.
  intros [Hcatalogs Hschemas]. unfold listSchemas. cbv zeta.
  destruct (fresh (schemas w) _ _) as [data|] eqn:Hfresh.
  - split; [done|]. simpl. intros ? [= <-].
    apply fresh_Some in Hfresh as (timestamp & Hentry & _).
    by apply (Hschemas _ _ _ Hentry).
  - destruct (createDatabricksClient envId userToken) as [client|e];
      [|by split].
    destruct (Transport.rateLimitedRequest _ _ _) as [[found|e] t]; simpl.
    + split; [split|].
      * done.
      * simpl. intros key data timestamp.
        destruct (decide (key = "schemas:" +:+ envId +:+ ":" +:+ catalogName))
          as [->|Hne].
        -- rewrite lookup_insert_eq. intros [= <- <-]. apply filter_Forall.
        -- rewrite lookup_insert_ne by done. apply Hschemas.
      * intros ? [= <-]. apply filter_Forall.
    + by split.
Qed.

Lemma clean_initial : clean initial.
Proof.
  split; intros key data timestamp; simpl; by rewrite lookup_empty.
Qed.

End ListingFacts.

Section CrawlListingFacts.

Import Discovery CrawlSpec.

Lemma In_firstn {A} (x : A) n xs : In x (firstn n xs) -> In x xs.
Proof.
  revert n. induction xs as [|y xs IH]; intros [|n]; simpl; try done.
  intros [?|?]; [by left|right; by apply (IH n)].
Qed.

Lemma In_slice0 {A} (x : A) xs n : In x (slice0 xs n) -> In x xs.
Proof. unfold slice0. destruct (n <? 0)%Z; apply In_firstn. Qed.

Lemma catalogsToScan_In MAX_CATALOGS toLowerCase priorityCatalogs catalogs
    catalog :
  In catalog (catalogsToScan MAX_CATALOGS toLowerCase priorityCatalogs
                             catalogs) ->
  In catalog catalogs.
Proof.
  rewrite catalogsToScan_filter.
  intros [Hin | Hin%In_firstn]%in_app_or;
    by apply filter_In in Hin as [? _].
Qed.

Lemma crawl_In MAX_CATALOGS MAX_SCHEMAS_PER_CATALOG toLowerCase api envId
    priorityCatalogs asset :
  In asset
     (allAssets (_fetchAllAssets MAX_CATALOGS MAX_SCHEMAS_PER_CATALOG
                                 toLowerCase api envId priorityCatalogs)) ->
  exists catalogs catalog,
    Remote.listCatalogs api = Js.Ok catalogs
    /\ In catalog (catalogsToScan MAX_CATALOGS toLowerCase priorityCatalogs
                                  catalogs)
    /\ discoveredIn MAX_SCHEMAS_PER_CATALOG api envId catalog asset.
Proof.
  unfold _fetchAllAssets.
  destruct (Remote.listCatalogs api) as [catalogs|e] eqn:Hlist.
  - destruct (partitionCatalogs toLowerCase priorityCatalogs catalogs)
      as [prioritized others].
    cbv zeta. unfold cacheSet at 1 2. simpl. intros Hin.
    apply loop_In in Hin as [[] | (catalog & Hcatalog & Hin)].
    by exists catalogs, catalog.
  - unfold cacheSet. simpl. intros [].
Qed.

Lemma discoveredIn_schema MAX_SCHEMAS_PER_CATALOG api envId catalog asset :
  discoveredIn MAX_SCHEMAS_PER_CATALOG api envId catalog asset ->
  exists schemas schema,
    Remote.listSchemas api (Catalog.name catalog) = Js.Ok schemas
    /\ In schema schemas
    /\ Asset.schema_name asset = Schema.name schema
    /\ Asset.catalog_name asset = Catalog.name catalog.
Proof.
  intros (schemas & schema & obj & Hschemas & Hin%In_slice0 & Hcases).
  exists schemas, schema. split; [done|]. split; [done|].
  by destruct Hcases as [(tables & _ & _ & ->) | [[_ ->] | [[_ ->] | [_ ->]]]].
Qed.

End CrawlListingFacts.

Section ListingClaims.

Import Listing ListingSpec Discovery.

Variable createDatabricksClient :
  string -> option string -> Js.result Client.t.
Variable getCatalogs :
  Client.t -> nat -> Q * Js.result (option (list Catalog.t)).
Variable getSchemas :
  Client.t -> string -> nat -> Q * Js.result (option (list Schema.t)).

(** X21.  [listCatalogs] never returns a catalog whose name starts with
    ["__"] or ["system"], and [listSchemas] never a schema whose name
    starts with ["__"] or ["information_schema"], whether the answer comes
    from the remote API or from the cache; what they leave in the cache is
    filtered in the same way.  On a miss the answer is the remote listing
    without those names, in the remote order, and a missing list counts as
    empty. *)
Theorem listings_hide_reserved_names (envId catalogName : string)
    (userToken : option string) (w : world) :
  clean w ->
  let catalogsCall :=
    listCatalogs createDatabricksClient getCatalogs envId userToken w in
  let schemasCall :=
    listSchemas createDatabricksClient getSchemas envId catalogName
                userToken w in
  clean (snd catalogsCall)
  /\ clean (snd schemasCall)
  /\ (forall data catalog,
        fst catalogsCall = Js.Ok data -> In catalog data ->
        String.prefix "__" (Catalog.name catalog) = false
        /\ String.prefix "system" (Catalog.name catalog) = false)
  /\ (forall data schema,
        fst schemasCall = Js.Ok data -> In schema data ->
        String.prefix "__" (Schema.name schema) = false
        /\ String.prefix "information_schema" (Schema.name schema) = false)
  /\ (forall client found t,
        fresh (catalogs w) ("catalogs:" +:+ envId)
              (Transport.clock (transport w)) = None ->
        createDatabricksClient envId userToken = Js.Ok client ->
        Transport.rateLimitedRequest (getCatalogs client)
          Transport.DEFAULT_RETRIES (transport w) = (Js.Ok found, t) ->
        fst catalogsCall
        = Js.Ok (List.filter visibleCatalog (default [] found))).
Proof.
  intros Hclean catalogsCall schemasCall.
  destruct (listCatalogs_clean createDatabricksClient getCatalogs envId
              userToken w Hclean) as [Hc1 Hc2].
  destruct (listSchemas_clean createDatabricksClient getSchemas envId
              catalogName userToken w Hclean) as [Hs1 Hs2].
  split; [done|]. split; [done|]. split; [|split].
  - intros data catalog Hdata Hin.
    pose proof (proj1 (List.Forall_forall _ _) (Hc2 data Hdata) _ Hin) as H.
    unfold visibleCatalog in H. apply andb_prop in H as [H1 H2].
    by rewrite !negb_true_iff in *.
  - intros data schema Hdata Hin.
    pose proof (proj1 (List.Forall_forall _ _) (Hs2 data Hdata) _ Hin) as H.
    unfold visibleSchema in H. apply andb_prop in H as [H1 H2].
    by rewrite !negb_true_iff in *.
  - intros client found t Hmiss Hclient Hrequest.
    unfold catalogsCall, listCatalogs. cbv zeta.
    by rewrite Hmiss, Hclient, Hrequest.
Qed.

(** X22.  A crawl whose listings are answers of [listCatalogs] and
    [listSchemas] never returns an asset of a catalog whose name starts
    with ["__"] or ["system"], nor of a schema whose name starts with
    ["__"] or ["information_schema"], even when the catalog is named as a
    priority catalog. *)
Theorem crawl_skips_reserved_names (MAX_CATALOGS MAX_SCHEMAS_PER_CATALOG : Z)
    (toLowerCase : string -> string) (api : Remote.t) (envId : string)
    (userToken : option string) (priorityCatalogs : list string)
    (asset : Asset.t) :
  answers createDatabricksClient getCatalogs getSchemas envId userToken api ->
  In asset
     (allAssets (_fetchAllAssets MAX_CATALOGS MAX_SCHEMAS_PER_CATALOG
                                 toLowerCase api envId priorityCatalogs)) ->
  String.prefix "__" (Asset.catalog_name asset) = false
  /\ String.prefix "system" (Asset.catalog_name asset) = false
  /\ String.prefix "__" (Asset.schema_name asset) = false
  /\ String.prefix "information_schema" (Asset.schema_name asset) = false.
Proof.
  intros [(w & Hclean & Hcatalogs) Hschemas] Hin.
  apply crawl_In in Hin as (catalogs & catalog & Hlist & Hscan & Hfound).
  apply catalogsToScan_In in Hscan.
  apply discoveredIn_schema in Hfound
    as (schemas & schema & Hlisted & Hschema & -> & ->).
  destruct (Hschemas (Catalog.name catalog)) as (w' & Hclean' & Hanswer).
  rewrite Hcatalogs in Hlist. rewrite Hanswer in Hlisted.
  destruct (listCatalogs_clean createDatabricksClient getCatalogs envId
              userToken w Hclean) as [_ Hc].
  destruct (listSchemas_clean createDatabricksClient getSchemas envId
              (Catalog.name catalog) userToken w' Hclean') as [_ Hs].
  pose proof (proj1 (List.Forall_forall _ _) (Hc _ Hlist) _ Hscan) as H1.
  pose proof (proj1 (List.Forall_forall _ _) (Hs _ Hlisted) _ Hschema) as H2.
  unfold visibleCatalog in H1. unfold visibleSchema in H2.
  apply andb_prop in H1 as [H11 H12]. apply andb_prop in H2 as [H21 H22].
  by rewrite !negb_true_iff in *.
Qed.

End ListingClaims.

Lemma listings_hide_reserved_names_witness :
  fst (Listing.listCatalogs ListingSpec.anyClient ListingSpec.workspace
                            "prod" None Listing.initial)
  = Js.Ok [Catalog.Build "main" None]
  /\ fst (Listing.listSchemas ListingSpec.anyClient
                              ListingSpec.workspaceSchemas "prod" "main" None
                              Listing.initial)
     = Js.Ok [Schema.Build "default"].
Proof.
  destruct (listings_hide_reserved_names ListingSpec.anyClient
              ListingSpec.workspace ListingSpec.workspaceSchemas
              "prod" "main" None Listing.initial clean_initial)
    as (_ & _ & _ & _ & Hmiss).
  split; [|reflexivity].
  rewrite (Hmiss (Client.Build (Some "https://example.test") "Bearer t")
                 (Some [Catalog.Build "main" None;
                        Catalog.Build "system" None;
                        Catalog.Build "systems_eu" None])
                 (snd (Transport.rateLimitedRequest
                         (ListingSpec.workspace
                            (Client.Build (Some "https://example.test")
                                          "Bearer t"))
                         Transport.DEFAULT_RETRIES Transport.initial)));
    reflexivity.
Defined.

Lemma crawl_skips_reserved_names_witness :
  let found :=
    Discovery.allAssets
      (Discovery._fetchAllAssets 10 5 Samples.ascii_lower
         ListingSpec.seenThroughListing "prod" ["system"; "systems_eu"]) in
  map Asset.fullName found = [Some "main.default.t"]
  /\ forall asset, In asset found ->
       String.prefix "system" (Asset.catalog_name asset) = false.
Proof.
  intros found. split; [reflexivity|]. intros asset Hin.
  refine (proj1 (proj2 (crawl_skips_reserved_names ListingSpec.anyClient
            ListingSpec.workspace ListingSpec.workspaceSchemas 10 5
            Samples.ascii_lower ListingSpec.seenThroughListing "prod" None
            ["system"; "systems_eu"] asset _ Hin))).
  split.
  - exists Listing.initial. split; [apply clean_initial|reflexivity].
  - intros catalogName. exists Listing.initial.
    split; [apply clean_initial|reflexivity].
Defined.
